(** * Tunnel client and tunnel server of storj-lib (lib/tunnel)

    A shallow embedding of [lib/tunnel/client.js] and [lib/tunnel/server.js]
    together with the properties of the tunnel subsystem that are stated
    about them.  Event-emitter callbacks become functions from a state to a
    state; what the objects emit and which callbacks they invoke is recorded
    in a trace that is part of the state.  Logger calls are left out: they
    neither read nor change any field that the properties mention. *)

From Stdlib Require Import ZArith QArith Qround Lia.
From stdpp Require Import gmap strings list fin_maps pretty.

Local Open Scope Z_scope.

(** ** The fragments of JavaScript the two files rely on *)

Module JS.

(** [Array.prototype.indexOf]: the first index holding [x], or [-1]. *)
Fixpoint indexOf_from {A} `{EqDecision A} (l : list A) (x : A) (i : Z) : Z :=
  match l with
  | [] => -1
  | y :: l' => if decide (y = x) then i else indexOf_from l' x (i + 1)
  end.

Definition indexOf {A} `{EqDecision A} (l : list A) (x : A) : Z :=
  indexOf_from l x 0.

(** [Array.prototype.splice(start, 1)]: a negative [start] counts from the
    end of the array (and is clamped at 0), a [start] beyond the end
    removes nothing. *)
Definition splice1 {A} (l : list A) (start : Z) : list A :=
  let len := Z.of_nat (length l) in
  let s := if start <? 0 then Z.max (len + start) 0 else Z.min start len in
  take (Z.to_nat s) l ++ drop (S (Z.to_nat s)) l.

(** [Math.floor(r * n)] for a real [r], over the rationals. *)
Definition floor_mul (r : Q) (n : Z) : Z := Qfloor (r * inject_Z n).

(** The values [typeof] tells apart in the constructor's assertions. *)
Inductive value :=
| VUndefined
| VNull
| VBool (b : bool)
| VNum (n : Z)
| VStr (s : string)
| VObj.

Definition typeof (v : value) : string :=
  match v with
  | VUndefined => "undefined"
  | VNull => "object"
  | VBool _ => "boolean"
  | VNum _ => "number"
  | VStr _ => "string"
  | VObj => "object"
  end.

(** The characters of a value that is a string. *)
Definition string_of (v : value) : string :=
  match v with
  | VStr s => s
  | _ => ""
  end.

End JS.

(** ** lib/tunnel/server.js *)

Module Server.

Record PortRange := { min : option Z; max : option Z }.

Record Options := {
  serverPort : Z;
  maxTunnels : Z;
  gatewayPortRange : PortRange;
  autoBindServer : bool
}.

(** [TunnelServer.DEFAULTS] ([server: null] and the logger carry no data). *)
Definition DEFAULTS : Options :=
  {| serverPort := 4001;
     maxTunnels := 3;
     gatewayPortRange := {| min := Some 4002; max := Some 4004 |};
     autoBindServer := true |}.

(** The options object a caller hands to the constructor: every key may be
    missing. *)
Record UserOptions := {
  o_serverPort : option Z;
  o_maxTunnels : option Z;
  o_gatewayPortRange : option PortRange;
  o_autoBindServer : option bool
}.

Definition no_options : UserOptions :=
  {| o_serverPort := None; o_maxTunnels := None;
     o_gatewayPortRange := None; o_autoBindServer := None |}.

(** A server that admits one tunnel. *)
Definition one_tunnel : UserOptions :=
  {| o_serverPort := None; o_maxTunnels := Some 1;
     o_gatewayPortRange := None; o_autoBindServer := None |}.


(** [merge(Object.create(TunnelServer.DEFAULTS), options)]: the keys of
    [options] shadow the defaults, key by key and not recursively. *)
Definition merge (d : Options) (o : UserOptions) : Options :=
  {| serverPort := default (serverPort d) (o_serverPort o);
     maxTunnels := default (maxTunnels d) (o_maxTunnels o);
     gatewayPortRange := default (gatewayPortRange d) (o_gatewayPortRange o);
     autoBindServer := default (autoBindServer d) (o_autoBindServer o) |}.

(** What a [createGateway] callback is called with. *)
Inductive cb_result :=
| CbError (message : string)
| CbGateway (gid : nat).

(** What the server does that can be seen from outside. *)
Inductive effect :=
| Emit (event : string)
| Callback (cb : nat) (res : cb_result)
| GatewayOpen (gid : nat)
| ServerListen.

(** The variables one call of [createGateway] closes over: the gateway it
    constructed (with the port handed to the constructor, [None] for
    [undefined]), [authID], [usedPort] and the callback. *)
Record GatewayCtx := {
  gw_port : option Z;
  authID : string;
  usedPort : option Z;
  gw_callback : nat
}.

Record TunnelServer := {
  _options : Options;
  _gateways : gmap string nat;
  _authorized : list string;
  _usedPorts : list Z;
  created : list GatewayCtx;
  trace : list effect
}.

Definition TunnelServer_new (options : UserOptions) : TunnelServer :=
  let opts := merge DEFAULTS options in
  {| _options := opts;
     _gateways := ∅;
     _authorized := [];
     _usedPorts := [];
     created := [];
     trace := if autoBindServer opts then [ServerListen] else [] |}.

Definition gateway_count (s : TunnelServer) : Z :=
  Z.of_nat (size (_gateways s)).

(** [TunnelServer.prototype.hasTunnelAvailable] *)
Definition hasTunnelAvailable (s : TunnelServer) : bool :=
  gateway_count s <? maxTunnels (_options s).

(** *** Admission: [_verifyClient] *)

(** [query.token] as [querystring.parse] returns it. *)
Inductive qs_value :=
| QsUndefined
| QsString (s : string)
| QsArray (l : list string).

(** [this._authorized.indexOf(token)]: [indexOf] compares with [===], so
    only a string can be found in the list of tokens. *)
Definition authorized_indexOf (l : list string) (token : qs_value) : Z :=
  match token with
  | QsString t => JS.indexOf l t
  | _ => -1
  end.

(** [token] is in the authorized set. *)
Definition token_authorized (s : TunnelServer) (token : qs_value) : Prop :=
  match token with
  | QsString t => t ∈ _authorized s
  | _ => False
  end.

(** [callback(true)] or [callback(false, code)]. *)
Inductive verdict :=
| Accept
| Reject (code : Z).

Definition _verifyClient (s : TunnelServer) (token : qs_value)
  : TunnelServer * verdict :=
  if authorized_indexOf (_authorized s) token =? -1 then
    (s, Reject 401)
  else
    ({| _options := _options s;
        _gateways := _gateways s;
        _authorized :=
          JS.splice1 (_authorized s) (authorized_indexOf (_authorized s) token);
        _usedPorts := _usedPorts s;
        created := created s;
        trace := trace s |}, Accept).

(** *** Port leasing: [_getAvailablePort] *)

(** [while (start <= end) { available.push(start++); }], with [fuel]
    bounding the number of iterations. *)
Fixpoint push_range (fuel : nat) (start end_ : Z) (available : list Z) : list Z :=
  match fuel with
  | O => available
  | S fuel' =>
      if start <=? end_ then push_range fuel' (start + 1) end_ (available ++ [start])
      else available
  end.

(** One iteration of the loop over [this._usedPorts]. *)
Definition drop_used (available : list Z) (used : Z) : list Z :=
  if negb (JS.indexOf available used =? -1) then
    JS.splice1 available (JS.indexOf available used)
  else available.

(** The array [available] once both loops have run; [max] missing makes
    [start <= end] false at once. *)
Definition available_ports (start : Z) (end_ : option Z) (used : list Z) : list Z :=
  let available :=
    match end_ with
    | Some e => push_range (Z.to_nat (e - start + 1)) start e []
    | None => []
    end in
  fold_left drop_used used available.

(** The ports of the range that are not in use, in increasing order. *)
Definition free_ports (start e : Z) (used : list Z) : list Z :=
  filter (λ p, p ∉ used) (seqZ start (e - start + 1)).

(** [r] stands for the value of [Math.random()]; the result is [None] where
    the code returns [undefined]. *)
Definition _getAvailablePort (s : TunnelServer) (r : Q) : option Z :=
  match min (gatewayPortRange (_options s)) with
  | None | Some 0 => Some 0
  | Some start =>
      let available :=
        available_ports start (max (gatewayPortRange (_options s))) (_usedPorts s) in
      available !! Z.to_nat (JS.floor_mul r (Z.of_nat (length available)))
  end.

(** *** [createGateway] and the handlers it installs on the gateway *)

Definition TunnelsExhausted : string := "Maximum number of tunnels open".

(** [createGateway(callback)].  [tok] is what [gateway.getEntranceToken()]
    returns for the gateway that gets constructed.  The call returns after
    [gateway.open()]; the gateway reports back later, through its [open],
    [close] and [error] events. *)
Definition createGateway (s : TunnelServer) (callback : nat) (r : Q) (tok : string)
  : TunnelServer :=
  if gateway_count s >=? maxTunnels (_options s) then
    {| _options := _options s;
       _gateways := _gateways s;
       _authorized := _authorized s;
       _usedPorts := _usedPorts s;
       created := created s;
       trace := trace s ++ [Callback callback (CbError TunnelsExhausted)] |}
  else
    let gateway :=
      {| gw_port := _getAvailablePort s r;
         authID := tok;
         usedPort := None;
         gw_callback := callback |} in
    {| _options := _options s;
       _gateways := _gateways s;
       _authorized := _authorized s;
       _usedPorts := _usedPorts s;
       created := created s ++ [gateway];
       trace := trace s ++ [GatewayOpen (length (created s))] |}.

(** [gateway.on('open', function(token) { ... })]; [port] is
    [gateway.getEntranceAddress().port]. *)
Definition on_gateway_open (s : TunnelServer) (gid : nat) (token : string) (port : Z)
  : TunnelServer :=
  match created s !! gid with
  | None => s
  | Some g =>
      let gateways := <[token := gid]> (_gateways s) in
      let locked :=
        if Z.of_nat (size gateways) >=? maxTunnels (_options s)
        then [Emit "locked"] else [] in
      {| _options := _options s;
         _gateways := gateways;
         _authorized := _authorized s ++ [token];
         _usedPorts := _usedPorts s ++ [port];
         created :=
           <[gid := {| gw_port := gw_port g; authID := token;
                       usedPort := Some port; gw_callback := gw_callback g |}]>
             (created s);
         trace := trace s ++ locked ++ [Callback (gw_callback g) (CbGateway gid)] |}
  end.

(** [self._usedPorts.indexOf(usedPort)]: [usedPort] is still [null] when
    the gateway never opened, and [null] is not found among numbers. *)
Definition usedPorts_indexOf (l : list Z) (p : option Z) : Z :=
  match p with
  | Some n => JS.indexOf l n
  | None => -1
  end.

(** [gateway.on('close', function() { ... })] *)
Definition on_gateway_close (s : TunnelServer) (gid : nat) : TunnelServer :=
  match created s !! gid with
  | None => s
  | Some g =>
      {| _options := _options s;
         _gateways := delete (authID g) (_gateways s);
         _authorized := _authorized s;
         _usedPorts :=
           JS.splice1 (_usedPorts s) (usedPorts_indexOf (_usedPorts s) (usedPort g));
         created := created s;
         trace := trace s ++ [Emit "unlocked"] |}
  end.

(** [gateway.on('error', callback)] *)
Definition on_gateway_error (s : TunnelServer) (gid : nat) (err : string)
  : TunnelServer :=
  match created s !! gid with
  | None => s
  | Some g =>
      {| _options := _options s;
         _gateways := _gateways s;
         _authorized := _authorized s;
         _usedPorts := _usedPorts s;
         created := created s;
         trace := trace s ++ [Callback (gw_callback g) (CbError err)] |}
  end.

(** What can happen to a server, one event at a time. *)
Inductive event :=
| CreateGateway (callback : nat) (r : Q) (tok : string)
| GatewayOpened (gid : nat) (token : string) (port : Z)
| GatewayClosed (gid : nat)
| GatewayFailed (gid : nat) (err : string)
| Upgrade (token : qs_value).

Definition step (s : TunnelServer) (e : event) : TunnelServer :=
  match e with
  | CreateGateway cb r tok => createGateway s cb r tok
  | GatewayOpened gid token port => on_gateway_open s gid token port
  | GatewayClosed gid => on_gateway_close s gid
  | GatewayFailed gid err => on_gateway_error s gid err
  | Upgrade token => fst (_verifyClient s token)
  end.

Definition run (s : TunnelServer) (es : list event) : TunnelServer :=
  fold_left step es s.

(** The tokens with which gateways report open in the course of [es]. *)
Definition opened_tokens (es : list event) : list string :=
  omap (fun e => match e with GatewayOpened _ token _ => Some token | _ => None end) es.

(** The callbacks invoked so far, oldest first. *)
Definition callbacks (s : TunnelServer) : list (nat * cb_result) :=
  omap (fun e => match e with Callback cb r => Some (cb, r) | _ => None end) (trace s).

(** Example servers: one gateway open under the default options; one
    gateway constructed and not yet open on a server that admits one. *)
Definition one_open : TunnelServer :=
  run (TunnelServer_new no_options)
      [CreateGateway 0 0 "T"; GatewayOpened 0 "T" 4002].

Definition one_pending : TunnelServer :=
  run (TunnelServer_new one_tunnel) [CreateGateway 0 0 "a"].

Definition is_emit (event : string) (e : effect) : bool :=
  match e with
  | Emit ev => bool_decide (ev = event)
  | _ => false
  end.

(** How often [event] was emitted so far. *)
Definition emitted (event : string) (s : TunnelServer) : nat :=
  length (List.filter (is_emit event) (trace s)).

(** An example server: two gateways have opened, on the ports 4002 and
    4003, and the first one has closed. *)
Definition second_open : TunnelServer :=
  run (TunnelServer_new no_options)
      [CreateGateway 0 0 "a"; GatewayOpened 0 "a" 4002;
       CreateGateway 1 0 "b"; GatewayOpened 1 "b" 4003; GatewayClosed 0].

(** *** Gateways that behave *)

(** [createGateway] together with what its gateway reports next: the [open]
    event of the gateway just constructed or its failure; the close of a
    gateway; an upgrade request. *)
Inductive txn :=
| Lease (callback : nat) (r : Q) (tok token : string) (port : Z)
| Refuse (callback : nat) (r : Q) (tok err : string)
| Release (gid : nat)
| Redeem (token : qs_value).

Definition events_of (s : TunnelServer) (t : txn) : list event :=
  match t with
  | Lease cb r tok token port =>
      [CreateGateway cb r tok; GatewayOpened (length (created s)) token port]
  | Refuse cb r tok err =>
      [CreateGateway cb r tok; GatewayFailed (length (created s)) err]
  | Release gid => [GatewayClosed gid]
  | Redeem token => [Upgrade token]
  end.

Definition commit (s : TunnelServer) (t : txn) : TunnelServer :=
  run s (events_of s t).

Definition commit_all (s : TunnelServer) (ts : list txn) : TunnelServer :=
  fold_left commit ts s.

(** [n] upgrade requests in a row with the same token: the server after the
    last one and the verdicts, oldest first. *)
Fixpoint upgrades (n : nat) (s : TunnelServer) (token : qs_value)
  : TunnelServer * list verdict :=
  match n with
  | O => (s, [])
  | S n' =>
      let '(s1, v) := _verifyClient s token in
      let '(s2, vs) := upgrades n' s1 token in
      (s2, v :: vs)
  end.

(** How often [t] is in the list of authorized tokens. *)
Definition admissions (s : TunnelServer) (t : string) : nat :=
  length (filter (λ x, x = t) (_authorized s)).

(** What the gateways can be relied on for: a gateway reports open once,
    with a token no open gateway has and on a port no open gateway listens
    on; the gateway that reports close is one that is open. *)
Definition admissible (s : TunnelServer) (e : event) : Prop :=
  match e with
  | GatewayOpened gid token port =>
      (∃ g, created s !! gid = Some g ∧ usedPort g = None) ∧
      _gateways s !! token = None ∧ (port ∉ _usedPorts s)
  | GatewayClosed gid =>
      ∃ g, created s !! gid = Some g ∧ _gateways s !! authID g = Some gid
  | _ => True
  end.

Fixpoint admissible_run (s : TunnelServer) (es : list event) : Prop :=
  match es with
  | [] => True
  | e :: es' => admissible s e ∧ admissible_run (step s e) es'
  end.

(** The port of the open gateway registered under [token]. *)
Definition port_of (s : TunnelServer) (token : string) : option Z :=
  gid ← _gateways s !! token; g ← created s !! gid; usedPort g.

(** [_usedPorts] lists, without repetition, the ports of the open gateways,
    one for each; and each open gateway is registered under its own
    [authID]. *)
Definition ports_ok (s : TunnelServer) : Prop :=
  NoDup (_usedPorts s) ∧
  length (_usedPorts s) = size (_gateways s) ∧
  (∀ token gid, _gateways s !! token = Some gid →
     ∃ g p, created s !! gid = Some g ∧ authID g = token ∧
            usedPort g = Some p ∧ p ∈ _usedPorts s) ∧
  (∀ p, p ∈ _usedPorts s → ∃ token, port_of s token = Some p) ∧
  (∀ t1 t2 p, port_of s t1 = Some p → port_of s t2 = Some p → t1 = t2).

End Server.

(** ** lib/tunnel/client.js *)

Module Client.

(** [TunnelClient.OPEN] and [TunnelClient.CLOSED] *)
Definition OPEN : Z := 1.
Definition CLOSED : Z := 0.

(** The ready states of a [ws] socket. *)
Definition WS_CONNECTING : Z := 0.
Definition WS_OPEN : Z := 1.
Definition WS_CLOSING : Z := 2.
Definition WS_CLOSED : Z := 3.

(** The objects the demuxer hands out and the muxer takes in:
    [{ type, data, flags }].  The data of an [rpc] object is kept as the
    bytes [serialize()] gives and [kad.Message.fromBuffer] takes. *)
Inductive frame :=
| Rpc (data : string)
| DataChannel (data : string) (binary : bool) (quid : string)
| Other (type : string).

(** A socket carries the handlers of the place that constructed it: [open]
    for the tunnel socket, [_handleDataChannel] for a loopback socket, which
    closes over [quid] and the [object] that made it. *)
Inductive role :=
| Tunnel
| Loopback (quid : string) (data : string) (binary : bool).

(** Where a socket connects to: a URI as given, or
    ['ws://' + urlobj.hostname + ':' + urlobj.port] for
    [urlobj = url.parse(target)]. *)
Inductive address :=
| Uri (uri : string)
| WsHostPort (target : string).

Record WebSocket := {
  ws_url : address;
  ws_role : role;
  ws_readyState : Z;
  ws_sent : list (string * bool);
  ws_once_open : list (string * bool);
  ws_close_calls : nat
}.

Record Muxer := { mux_listeners : bool }.

Record Demuxer := { demux_listeners : bool; demux_written : list string }.

(** The events of [TunnelClient] itself. *)
Inductive signal :=
| SigOpen
| SigClose
| SigError (err : string).

Inductive exn :=
| AssertionError (message : string)
| TypeError (message : string)
| Error (message : string).

(** The client object, the sockets it has constructed ([_tunnel] and
    [_channels] hold indices into [sockets]), and what it has done so far:
    the events it emitted, the objects it wrote to its muxer and the HTTP
    requests it issued, oldest first.  [_channels] is keyed by quids, the
    identifiers a gateway makes up; none of them is the name of a property
    of [Object.prototype]. *)
Record TunnelClient := {
  _tunuri : string;
  _target : string;
  _tunnel : option nat;
  _muxer : option Muxer;
  _demuxer : option Demuxer;
  _channels : gmap string nat;
  readyState : Z;
  sockets : list WebSocket;
  emitted : list signal;
  written : list frame;
  requests : list (string * string)
}.

(** [assert(value, message)] *)
Definition assert (value : bool) (message : string) : exn + unit :=
  if value then inr tt else inl (AssertionError message).

(** The object the constructor leaves behind once both assertions have
    passed. *)
Definition fresh (tunnel target : string) : TunnelClient :=
  {| _tunuri := tunnel;
     _target := target;
     _tunnel := None;
     _muxer := None;
     _demuxer := None;
     _channels := ∅;
     readyState := CLOSED;
     sockets := [];
     emitted := [];
     written := [];
     requests := [] |}.

(** The constructor.  [options] only carries a logger. *)
Definition TunnelClient_new (tunnel target options : JS.value)
  : exn + TunnelClient :=
  match assert (bool_decide (JS.typeof tunnel = "string"))
               "Invalid tunnel address supplied" with
  | inl e => inl e
  | inr _ =>
      match assert (bool_decide (JS.typeof target = "string"))
                   "Invalid target address supplied" with
      | inl e => inl e
      | inr _ => inr (fresh (JS.string_of tunnel) (JS.string_of target))
      end
  end.

(** *** Field updates *)

Definition set_tunnel (v : option nat) (c : TunnelClient) : TunnelClient :=
  {| _tunuri := _tunuri c; _target := _target c; _tunnel := v;
     _muxer := _muxer c; _demuxer := _demuxer c; _channels := _channels c;
     readyState := readyState c; sockets := sockets c; emitted := emitted c;
     written := written c; requests := requests c |}.

Definition set_muxer (v : option Muxer) (c : TunnelClient) : TunnelClient :=
  {| _tunuri := _tunuri c; _target := _target c; _tunnel := _tunnel c;
     _muxer := v; _demuxer := _demuxer c; _channels := _channels c;
     readyState := readyState c; sockets := sockets c; emitted := emitted c;
     written := written c; requests := requests c |}.

Definition set_demuxer (v : option Demuxer) (c : TunnelClient) : TunnelClient :=
  {| _tunuri := _tunuri c; _target := _target c; _tunnel := _tunnel c;
     _muxer := _muxer c; _demuxer := v; _channels := _channels c;
     readyState := readyState c; sockets := sockets c; emitted := emitted c;
     written := written c; requests := requests c |}.

Definition set_channels (v : gmap string nat) (c : TunnelClient) : TunnelClient :=
  {| _tunuri := _tunuri c; _target := _target c; _tunnel := _tunnel c;
     _muxer := _muxer c; _demuxer := _demuxer c; _channels := v;
     readyState := readyState c; sockets := sockets c; emitted := emitted c;
     written := written c; requests := requests c |}.

Definition set_readyState (v : Z) (c : TunnelClient) : TunnelClient :=
  {| _tunuri := _tunuri c; _target := _target c; _tunnel := _tunnel c;
     _muxer := _muxer c; _demuxer := _demuxer c; _channels := _channels c;
     readyState := v; sockets := sockets c; emitted := emitted c;
     written := written c; requests := requests c |}.

Definition set_sockets (v : list WebSocket) (c : TunnelClient) : TunnelClient :=
  {| _tunuri := _tunuri c; _target := _target c; _tunnel := _tunnel c;
     _muxer := _muxer c; _demuxer := _demuxer c; _channels := _channels c;
     readyState := readyState c; sockets := v; emitted := emitted c;
     written := written c; requests := requests c |}.

Definition set_emitted (v : list signal) (c : TunnelClient) : TunnelClient :=
  {| _tunuri := _tunuri c; _target := _target c; _tunnel := _tunnel c;
     _muxer := _muxer c; _demuxer := _demuxer c; _channels := _channels c;
     readyState := readyState c; sockets := sockets c; emitted := v;
     written := written c; requests := requests c |}.

Definition set_written (v : list frame) (c : TunnelClient) : TunnelClient :=
  {| _tunuri := _tunuri c; _target := _target c; _tunnel := _tunnel c;
     _muxer := _muxer c; _demuxer := _demuxer c; _channels := _channels c;
     readyState := readyState c; sockets := sockets c; emitted := emitted c;
     written := v; requests := requests c |}.

Definition set_requests (v : list (string * string)) (c : TunnelClient)
  : TunnelClient :=
  {| _tunuri := _tunuri c; _target := _target c; _tunnel := _tunnel c;
     _muxer := _muxer c; _demuxer := _demuxer c; _channels := _channels c;
     readyState := readyState c; sockets := sockets c; emitted := emitted c;
     written := written c; requests := v |}.

(** *** Statements that change the client or throw *)

Inductive result (A : Type) :=
| Ok (a : A)
| Throw (e : exn).
Arguments Ok {A} a.
Arguments Throw {A} e.

Definition M (A : Type) : Type := TunnelClient -> TunnelClient * result A.

Definition ret {A} (a : A) : M A := fun c => (c, Ok a).

Definition throw {A} (e : exn) : M A := fun c => (c, Throw e).

Definition bind {A B} (m : M A) (k : A -> M B) : M B :=
  fun c =>
    match m c with
    | (c', Ok a) => k a c'
    | (c', Throw e) => (c', Throw e)
    end.

Definition gets {A} (f : TunnelClient -> A) : M A := fun c => (c, Ok (f c)).

Definition modify (f : TunnelClient -> TunnelClient) : M unit :=
  fun c => (f c, Ok tt).

Declare Scope js_scope.
Delimit Scope js_scope with js.
Notation "x <- m ;; k" := (bind m (fun x => k))
  (at level 100, m at next level, right associativity) : js_scope.
Notation "m ;; k" := (bind m (fun _ => k))
  (at level 100, right associativity) : js_scope.
Local Open Scope js_scope.

(** [this.emit(...)] *)
Definition emit (sig : signal) : M unit :=
  modify (fun c => set_emitted (emitted c ++ [sig]) c).

(** [x.m(...)] where [x] may be [null]. *)
Definition deref {A} (what : string) (o : option A) : M A :=
  match o with
  | Some a => ret a
  | None => throw (TypeError what)
  end.

(** [self._muxer.write(object)] *)
Definition muxer_write (object : frame) : M unit :=
  _ <- bind (gets _muxer) (deref "_muxer") ;;
  modify (fun c => set_written (written c ++ [object]) c).

(** [this._muxer.removeAllListeners()] *)
Definition muxer_removeAllListeners : M unit :=
  _ <- bind (gets _muxer) (deref "_muxer") ;;
  modify (set_muxer (Some {| mux_listeners := false |})).

(** [this._demuxer.removeAllListeners()] *)
Definition demuxer_removeAllListeners : M unit :=
  d <- bind (gets _demuxer) (deref "_demuxer") ;;
  modify (set_demuxer
            (Some {| demux_listeners := false; demux_written := demux_written d |})).

(** [self._demuxer.write(data)] *)
Definition demuxer_write (data : string) : M unit :=
  d <- bind (gets _demuxer) (deref "_demuxer") ;;
  modify (set_demuxer
            (Some {| demux_listeners := demux_listeners d;
                     demux_written := demux_written d ++ [data] |})).

Definition socket (sid : nat) : M WebSocket :=
  bind (gets (fun c => sockets c !! sid)) (deref "socket").

Definition put_socket (sid : nat) (s : WebSocket) : M unit :=
  modify (fun c => set_sockets (<[sid := s]> (sockets c)) c).

(** [new WebSocketClient(url)], with the handlers [role] stands for. *)
Definition new_socket (url : address) (r : role) : M nat :=
  sid <- gets (fun c => length (sockets c)) ;;
  modify (fun c =>
            set_sockets
              (sockets c ++
                 [{| ws_url := url; ws_role := r; ws_readyState := WS_CONNECTING;
                     ws_sent := []; ws_once_open := []; ws_close_calls := 0 |}]) c) ;;
  ret sid.

(** [sock.send(data, { binary })]: [ws] refuses to send on a socket that is
    not open. *)
Definition socket_send (sid : nat) (data : string) (binary : bool) : M unit :=
  s <- socket sid ;;
  if ws_readyState s =? WS_OPEN then
    put_socket sid
      {| ws_url := ws_url s; ws_role := ws_role s; ws_readyState := ws_readyState s;
         ws_sent := ws_sent s ++ [(data, binary)];
         ws_once_open := ws_once_open s; ws_close_calls := ws_close_calls s |}
  else throw (Error "not opened").

(** [sock.once('open', function() { sock.send(data, { binary }) })] *)
Definition socket_once_open (sid : nat) (data : string) (binary : bool) : M unit :=
  s <- socket sid ;;
  put_socket sid
    {| ws_url := ws_url s; ws_role := ws_role s; ws_readyState := ws_readyState s;
       ws_sent := ws_sent s;
       ws_once_open := ws_once_open s ++ [(data, binary)];
       ws_close_calls := ws_close_calls s |}.

(** An assignment to the [readyState] property of a socket. *)
Definition socket_set_readyState (sid : nat) (v : Z) : M unit :=
  s <- socket sid ;;
  put_socket sid
    {| ws_url := ws_url s; ws_role := ws_role s; ws_readyState := v;
       ws_sent := ws_sent s; ws_once_open := ws_once_open s;
       ws_close_calls := ws_close_calls s |}.

(** [this._tunnel.close()]: the socket starts its closing handshake. *)
Definition socket_close (sid : nat) : M unit :=
  s <- socket sid ;;
  put_socket sid
    {| ws_url := ws_url s; ws_role := ws_role s; ws_readyState := WS_CLOSING;
       ws_sent := ws_sent s; ws_once_open := ws_once_open s;
       ws_close_calls := S (ws_close_calls s) |}.

(** *** [JSON.stringify({ code: code, message: message })] *)

Definition dquote : Ascii.ascii := Ascii.ascii_of_N 34.
Definition backslash : Ascii.ascii := Ascii.ascii_of_N 92.

Definition hex_digit (n : N) : Ascii.ascii :=
  Ascii.ascii_of_N (if (n <? 10)%N then 48 + n else 87 + n).

(** One character inside a JSON string: the quote, the backslash and the
    control characters are escaped. *)
Definition json_escape (a : Ascii.ascii) : string :=
  let n := Ascii.N_of_ascii a in
  if (n =? 34)%N then String backslash (String dquote EmptyString)
  else if (n =? 92)%N then String backslash (String backslash EmptyString)
  else if (n =? 8)%N then String backslash "b"
  else if (n =? 9)%N then String backslash "t"
  else if (n =? 10)%N then String backslash "n"
  else if (n =? 12)%N then String backslash "f"
  else if (n =? 13)%N then String backslash "r"
  else if (n <? 32)%N then
    String backslash ("u00" +:+ String (hex_digit (n / 16)) (String (hex_digit (n mod 16)) ""))
  else String a EmptyString.

Fixpoint json_quote_body (s : string) : string :=
  match s with
  | EmptyString => EmptyString
  | String a s' => json_escape a +:+ json_quote_body s'
  end.

Definition json_quote (s : string) : string :=
  String dquote (json_quote_body s +:+ String dquote EmptyString).

Definition JSON_stringify_code_message (code : Z) (message : string) : string :=
  "{" +:+ json_quote "code" +:+ ":" +:+ pretty code +:+ ","
      +:+ json_quote "message" +:+ ":" +:+ json_quote message +:+ "}".

(** *** The methods of [TunnelClient] *)

(** [TunnelClient.prototype.open] *)
Definition open : M unit :=
  modify (set_demuxer (Some {| demux_listeners := true; demux_written := [] |})) ;;
  modify (set_muxer (Some {| mux_listeners := true |})) ;;
  uri <- gets _tunuri ;;
  sid <- new_socket (Uri uri) Tunnel ;;
  modify (set_tunnel (Some sid)).

(** [TunnelClient.prototype.close] *)
Definition close : M bool :=
  t <- gets _tunnel ;;
  match t with
  | None => ret false
  | Some sid =>
      muxer_removeAllListeners ;;
      demuxer_removeAllListeners ;;
      s <- socket sid ;;
      (if negb (JS.indexOf [WS_CONNECTING; WS_OPEN] (ws_readyState s) =? -1)
       then socket_close sid else ret tt) ;;
      modify (set_tunnel None) ;;
      modify (set_readyState CLOSED) ;;
      emit SigClose ;;
      ret true
  end.

(** [TunnelClient.prototype._handleRPC]: [request(options, ...)] with
    [url: this._target], [method: 'POST'] and the serialized message. *)
Definition _handleRPC (data : string) : M unit :=
  modify (fun c => set_requests (requests c ++ [(_target c, data)]) c).

(** [TunnelClient.prototype._forwardResponse]; the argument [res] is not
    used. *)
Definition _forwardResponse (err : option string) (body : string) : M unit :=
  match err with
  | Some e => emit (SigError e)
  | None => muxer_write (Rpc body)
  end.

(** [TunnelClient.prototype._sendToExistingSocket] *)
Definition _sendToExistingSocket (data : string) (binary : bool) (quid : string)
  : M unit :=
  sock <- bind (gets (fun c => _channels c !! quid)) (deref "sock") ;;
  s <- socket sock ;;
  if negb (ws_readyState s =? WS_OPEN) then socket_once_open sock data binary
  else socket_send sock data binary.

(** [TunnelClient.prototype._handleDataChannel]; the four handlers it
    installs on the new socket are [on_loopback_open] to
    [on_loopback_close] below. *)
Definition _handleDataChannel (data : string) (binary : bool) (quid : string)
  : M unit :=
  ch <- gets (fun c => _channels c !! quid) ;;
  match ch with
  | Some _ => _sendToExistingSocket data binary quid
  | None =>
      target <- gets _target ;;
      sock <- new_socket (WsHostPort target) (Loopback quid data binary) ;;
      modify (fun c => set_channels (<[quid := sock]> (_channels c)) c)
  end.

(** *** The handlers *)

(** [this._demuxer.on('error', ...)] *)
Definition on_demuxer_error (err : string) : M unit := emit (SigError err).

(** [this._demuxer.on('data', ...)] *)
Definition on_demuxer_data (object : frame) : M unit :=
  match object with
  | Rpc data => _handleRPC data
  | DataChannel data binary quid => _handleDataChannel data binary quid
  | Other _ => emit (SigError "Cannot handle tunnel frame type")
  end.

(** [this._muxer.on('error', ...)] *)
Definition on_muxer_error (err : string) : M unit := emit (SigError err).

(** [this._muxer.on('data', ...)] *)
Definition on_muxer_data (buffer : string) : M unit :=
  t <- bind (gets _tunnel) (deref "_tunnel") ;;
  socket_send t buffer true.

(** [this._tunnel.on('error', ...)] *)
Definition on_tunnel_error (err : string) : M unit :=
  close ;; emit (SigError err).

(** [this._tunnel.on('close', ...)] *)
Definition on_tunnel_close : M unit :=
  close ;; ret tt.

(** [this._tunnel.on('open', function() { this.readyState = ...; ... })]:
    inside the handler [this] is the socket that emits the event, [sid]. *)
Definition on_tunnel_open (sid : nat) : M unit :=
  socket_set_readyState sid OPEN ;;
  emit SigOpen.

(** [this._tunnel.on('message', ...)] *)
Definition on_tunnel_message (data : string) : M unit := demuxer_write data.

(** [socket.on('open', ...)] of a loopback socket *)
Definition on_loopback_open (sid : nat) (data : string) (binary : bool) : M unit :=
  socket_send sid data binary.

(** [socket.on('error', ...)] *)
Definition on_loopback_error (err : string) : M unit := emit (SigError err).

(** [socket.on('message', ...)] *)
Definition on_loopback_message (quid data : string) (binary : bool) : M unit :=
  muxer_write (DataChannel data binary quid).

(** [socket.on('close', ...)] *)
Definition on_loopback_close (quid : string) (code : Z) (message : string) : M unit :=
  modify (fun c => set_channels (delete quid (_channels c)) c) ;;
  muxer_write (DataChannel (JSON_stringify_code_message code message) false quid).

(** *** The client in its environment *)

(** The calls an embedder makes and the events the sockets, the codec and
    the HTTP request deliver to the handlers above. *)
Inductive event :=
| CallOpen
| CallClose
| SocketOpen (sid : nat)
| SocketMessage (sid : nat) (data : string) (binary : bool)
| SocketClose (sid : nat) (code : Z) (message : string)
| SocketError (sid : nat) (err : string)
| DemuxerData (object : frame)
| DemuxerError (err : string)
| MuxerData (buffer : string)
| MuxerError (err : string)
| Response (err : option string) (body : string).

(** The handlers registered with [once('open')], run in order. *)
Fixpoint flush_once_open (sid : nat) (pending : list (string * bool)) : M unit :=
  match pending with
  | [] => ret tt
  | (data, binary) :: pending' =>
      socket_send sid data binary ;; flush_once_open sid pending'
  end.

Definition clear_once_open (sid : nat) : M unit :=
  s <- socket sid ;;
  put_socket sid
    {| ws_url := ws_url s; ws_role := ws_role s; ws_readyState := ws_readyState s;
       ws_sent := ws_sent s; ws_once_open := []; ws_close_calls := ws_close_calls s |}.

(** A socket emits [open] once, when it stops connecting; the library has
    set its [readyState] by the time the handlers run. *)
Definition socket_emits_open (sid : nat) : M unit :=
  s <- gets (fun c => sockets c !! sid) ;;
  match s with
  | None => ret tt
  | Some s =>
      if ws_readyState s =? WS_CONNECTING then
        socket_set_readyState sid WS_OPEN ;;
        match ws_role s with
        | Tunnel => on_tunnel_open sid
        | Loopback _ data binary =>
            on_loopback_open sid data binary ;;
            clear_once_open sid ;;
            flush_once_open sid (ws_once_open s)
        end
      else ret tt
  end.

(** A socket emits [message] while it is open or closing. *)
Definition socket_emits_message (sid : nat) (data : string) (binary : bool) : M unit :=
  s <- gets (fun c => sockets c !! sid) ;;
  match s with
  | None => ret tt
  | Some s =>
      if (ws_readyState s =? WS_OPEN) || (ws_readyState s =? WS_CLOSING) then
        match ws_role s with
        | Tunnel => on_tunnel_message data
        | Loopback quid _ _ => on_loopback_message quid data binary
        end
      else ret tt
  end.

(** A socket emits [close] once, and is closed from then on. *)
Definition socket_emits_close (sid : nat) (code : Z) (message : string) : M unit :=
  s <- gets (fun c => sockets c !! sid) ;;
  match s with
  | None => ret tt
  | Some s =>
      if ws_readyState s =? WS_CLOSED then ret tt
      else
        socket_set_readyState sid WS_CLOSED ;;
        match ws_role s with
        | Tunnel => on_tunnel_close
        | Loopback quid _ _ => on_loopback_close quid code message
        end
  end.

(** A socket that is not closed yet may emit [error]. *)
Definition socket_emits_error (sid : nat) (err : string) : M unit :=
  s <- gets (fun c => sockets c !! sid) ;;
  match s with
  | None => ret tt
  | Some s =>
      if ws_readyState s =? WS_CLOSED then ret tt
      else
        match ws_role s with
        | Tunnel => on_tunnel_error err
        | Loopback _ _ _ => on_loopback_error err
        end
  end.

(** The codec objects only reach the listeners that are still attached. *)
Definition demuxer_listening (c : TunnelClient) : bool :=
  match _demuxer c with
  | Some d => demux_listeners d
  | None => false
  end.

Definition muxer_listening (c : TunnelClient) : bool :=
  match _muxer c with
  | Some m => mux_listeners m
  | None => false
  end.

Definition when (b : TunnelClient -> bool) (m : M unit) : M unit :=
  fun c => if b c then m c else (c, Ok tt).

Definition deliver (e : event) : M unit :=
  match e with
  | CallOpen => open
  | CallClose => close ;; ret tt
  | SocketOpen sid => socket_emits_open sid
  | SocketMessage sid data binary => socket_emits_message sid data binary
  | SocketClose sid code message => socket_emits_close sid code message
  | SocketError sid err => socket_emits_error sid err
  | DemuxerData object => when demuxer_listening (on_demuxer_data object)
  | DemuxerError err => when demuxer_listening (on_demuxer_error err)
  | MuxerData buffer => when muxer_listening (on_muxer_data buffer)
  | MuxerError err => when muxer_listening (on_muxer_error err)
  | Response err body => _forwardResponse err body
  end.

(** A run ends at the first exception that nothing catches. *)
Fixpoint run (es : list event) : M unit :=
  match es with
  | [] => ret tt
  | e :: es' => deliver e ;; run es'
  end.

(** The frames written to the muxer that carry [quid]. *)
Definition is_for (quid : string) (f : frame) : bool :=
  match f with
  | DataChannel _ _ q => bool_decide (q = quid)
  | _ => false
  end.

Definition written_for (quid : string) (c : TunnelClient) : list frame :=
  List.filter (is_for quid) (written c).

(** *** What the data-channel bookkeeping depends on *)

(** Of a socket: the handlers it carries and whether it is closed. *)
Definition shape : Type := role * bool.

Definition shape_of (s : WebSocket) : shape :=
  (ws_role s, ws_readyState s =? WS_CLOSED).

(** A loopback socket of [quid] that has not closed yet. *)
Definition live_for (quid : string) (sh : shape) : bool :=
  match fst sh with
  | Loopback q _ _ => bool_decide (q = quid) && negb (snd sh)
  | Tunnel => false
  end.

(** Every loopback socket that has not closed is the one [_channels] holds
    for its quid. *)
Definition channels_ok (c : TunnelClient) : Prop :=
  ∀ sid sh q, (shape_of <$> sockets c) !! sid = Some sh →
              live_for q sh = true → _channels c !! q = Some sid.

(** The muxer is there as soon as there is a socket or a demuxer. *)
Definition muxer_ok (c : TunnelClient) : Prop :=
  is_Some (_muxer c) ∨ (sockets c = [] ∧ _demuxer c = None).

Definition wf (c : TunnelClient) : Prop := channels_ok c ∧ muxer_ok c.

(** No loopback socket of [quid] is left that could still report. *)
Definition quiet (quid : string) (c : TunnelClient) : Prop :=
  ∀ sid sh, (shape_of <$> sockets c) !! sid = Some sh → live_for quid sh = false.

(** A client that has a tunnel has the socket, the muxer and the demuxer
    that [open] made. *)
Definition tunnel_ok (c : TunnelClient) : Prop :=
  ∀ sid, _tunnel c = Some sid →
         is_Some (sockets c !! sid) ∧ is_Some (_muxer c) ∧ is_Some (_demuxer c).

(** From [c] to [c']: no socket, muxer or demuxer is lost, the tunnel is the
    same or gone, and a client that was [CLOSED] still is. *)
Definition extends (c c' : TunnelClient) : Prop :=
  (length (sockets c) ≤ length (sockets c'))%nat ∧
  (is_Some (_muxer c) → is_Some (_muxer c')) ∧
  (is_Some (_demuxer c) → is_Some (_demuxer c')) ∧
  (∀ sid, _tunnel c' = Some sid → _tunnel c = Some sid) ∧
  (readyState c = CLOSED → readyState c' = CLOSED).

Definition grows {A} (m : M A) : Prop := ∀ c, extends c (fst (m c)).

(** The part of the client the properties above read. *)
Definition view (c : TunnelClient) : gmap string nat * list shape * bool * bool :=
  (_channels c, shape_of <$> sockets c,
   bool_decide (is_Some (_muxer c)), bool_decide (is_Some (_demuxer c))).

(** That part and what has been written to the muxer. *)
Definition obs (c : TunnelClient)
  : gmap string nat * list shape * bool * bool * list frame :=
  (view c, written c).

(** [m] leaves that part alone, whether it returns or throws. *)
Definition keeps {A} (m : M A) : Prop := ∀ c, obs (fst (m c)) = obs c.

(** Example clients: one that has just opened its tunnel, and one with an
    open tunnel and an open loopback socket for the quid [Q]. *)
Definition example_events : list event :=
  [CallOpen; SocketOpen 0; DemuxerData (DataChannel "P1" true "Q"); SocketOpen 1].

Definition just_opened : TunnelClient :=
  fst (open (fresh "ws://tunnel:4001/tun?token=T" "http://127.0.0.1:8080")).

Definition example_loopback : WebSocket :=
  {| ws_url := WsHostPort "http://127.0.0.1:8080";
     ws_role := Loopback "Q" "P1" true;
     ws_readyState := WS_OPEN;
     ws_sent := [("P1", true)];
     ws_once_open := [];
     ws_close_calls := 0 |}.

(** An inbound [datachannel] frame for [quid]. *)
Definition opens_channel (quid : string) (e : event) : bool :=
  match e with
  | DemuxerData (DataChannel _ _ q) => bool_decide (q = quid)
  | _ => false
  end.

(** *** Data channels and their sockets *)

(** What a loopback socket has been given to pass on to the target, oldest
    first: what it has sent or, while it is still connecting, the payload of
    the frame it was made for followed by the payloads that wait for its
    [open] event. *)
Definition outbox (s : WebSocket) : list (string * bool) :=
  match ws_role s with
  | Loopback _ data binary =>
      if ws_readyState s =? WS_CONNECTING then (data, binary) :: ws_once_open s
      else ws_sent s
  | Tunnel => ws_sent s
  end.

(** The payload that an event brings in for the data channel [quid]: that of
    a [datachannel] frame for [quid] which reaches the listener of the
    demuxer. *)
Definition inbound (quid : string) (c : TunnelClient) (e : event)
  : list (string * bool) :=
  match e with
  | DemuxerData (DataChannel data binary q) =>
      if demuxer_listening c && bool_decide (q = quid) then [(data, binary)] else []
  | _ => []
  end.

(** Every entry of [_channels] is a loopback socket of its quid that has not
    closed. *)
Definition channels_live (c : TunnelClient) : Prop :=
  ∀ q sid, _channels c !! q = Some sid →
           ∃ sh, (shape_of <$> sockets c) !! sid = Some sh ∧ live_for q sh = true.

(** [_tunnel] is a socket that [open] made. *)
Definition tunnel_role (c : TunnelClient) : Prop :=
  ∀ t, _tunnel c = Some t → ∃ s, sockets c !! t = Some s ∧ ws_role s = Tunnel.

(** A loopback socket is connecting, open or closed; nothing has called its
    [close], and it has sent nothing while it is connecting. *)
Definition loopback_ok (s : WebSocket) : Prop :=
  match ws_role s with
  | Tunnel => True
  | Loopback _ _ _ =>
      ws_close_calls s = 0%nat ∧
      ((ws_readyState s = WS_CONNECTING ∧ ws_sent s = []) ∨
       ws_readyState s = WS_OPEN ∨ ws_readyState s = WS_CLOSED)
  end.

Definition sockets_ok (c : TunnelClient) : Prop :=
  tunnel_role c ∧ ∀ sid s, sockets c !! sid = Some s → loopback_ok s.

(** From [c] to [c']: the same sockets with the same handlers, and only
    sockets that [open] made have changed. *)
Definition tunnel_only (c c' : TunnelClient) : Prop :=
  length (sockets c') = length (sockets c) ∧
  ∀ sid s, sockets c !! sid = Some s →
           ∃ s', sockets c' !! sid = Some s' ∧ ws_role s' = ws_role s ∧
                 (ws_role s ≠ Tunnel → s' = s).

(** What an event does to a loopback socket [s] that it changes: the socket
    opens and sends what has been waiting, it closes, or a frame for its
    data channel is sent or put in the queue. *)
Definition loopback_change (c : TunnelClient) (e : event) (sid : nat)
    (s s' : WebSocket) : Prop :=
  ws_url s' = ws_url s ∧ ws_role s' = ws_role s ∧
  ws_close_calls s' = ws_close_calls s ∧
  match e with
  | SocketOpen sid' =>
      sid' = sid ∧ ws_readyState s = WS_CONNECTING ∧ ws_readyState s' = WS_OPEN ∧
      ws_once_open s' = [] ∧
      ∃ q data binary, ws_role s = Loopback q data binary ∧
                       ws_sent s' = ws_sent s ++ (data, binary) :: ws_once_open s
  | SocketClose sid' _ _ =>
      sid' = sid ∧ ws_readyState s ≠ WS_CLOSED ∧ ws_readyState s' = WS_CLOSED ∧
      ws_sent s' = ws_sent s ∧ ws_once_open s' = ws_once_open s
  | DemuxerData (DataChannel data binary q) =>
      demuxer_listening c = true ∧ _channels c !! q = Some sid ∧
      ws_readyState s' = ws_readyState s ∧
      ((ws_readyState s = WS_OPEN ∧ ws_sent s' = ws_sent s ++ [(data, binary)] ∧
        ws_once_open s' = ws_once_open s) ∨
       (ws_readyState s ≠ WS_OPEN ∧ ws_sent s' = ws_sent s ∧
        ws_once_open s' = ws_once_open s ++ [(data, binary)]))
  | _ => False
  end.


(** The loopback socket that the first frame for the quid [Q] makes. *)
Definition connecting_loopback : WebSocket :=
  {| ws_url := WsHostPort "http://127.0.0.1:8080";
     ws_role := Loopback "Q" "P1" true;
     ws_readyState := WS_CONNECTING;
     ws_sent := [];
     ws_once_open := [];
     ws_close_calls := 0 |}.

(** A client that has closed its tunnel and opened a new one while the
    first tunnel socket is still closing, and that first socket. *)
Definition reopened : TunnelClient :=
  fst (run [CallOpen; SocketOpen 0; CallClose; CallOpen]
           (fresh "ws://tunnel:4001/tun?token=T" "http://127.0.0.1:8080")).

Definition closing_tunnel_socket : WebSocket :=
  {| ws_url := Uri "ws://tunnel:4001/tun?token=T";
     ws_role := Tunnel;
     ws_readyState := WS_CLOSING;
     ws_sent := [];
     ws_once_open := [];
     ws_close_calls := 1 |}.

End Client.

(** ** lib/tunnel/server.js: the sessions of [_handleClient] *)

Module Session.

(** Modelled from the spec: the close codes that [./error-codes] exports and
    [_handleClient] passes to [client.close] are known by their names only:
    [GATEWAY_CLOSED], [INVALID_FRAME_TYPE] and [UNEXPECTED]. *)
Inductive TunnelErrors :=
| GATEWAY_CLOSED
| INVALID_FRAME_TYPE
| UNEXPECTED.

(** The property key that [this._gateways[token]] looks up: a value that is
    not a string is turned into one first (an array by joining its elements
    with commas). *)
Definition key_of (token : Server.qs_value) : string :=
  match token with
  | Server.QsUndefined => "undefined"
  | Server.QsString t => t
  | Server.QsArray l => String.concat "," l
  end.

(** The closure of one call of [_handleClient] that found its gateway:
    [gateway], and whether [cleanup] has not yet taken the listeners off
    [muxer] and [demuxer]; [w_demuxed] is what was written to [demuxer]. *)
Record Wiring := {
  w_gateway : nat;
  w_muxer_listeners : bool;
  w_demuxer_listeners : bool;
  w_demuxed : list string
}.

(** A socket the server has accepted, [client] in [_handleClient]: the token
    of its upgrade request, its [readyState], what the server sent on it and
    the calls of [client.close], oldest first. *)
Record Peer := {
  p_token : Server.qs_value;
  p_readyState : Z;
  p_sent : list string;
  p_closed_with : list (TunnelErrors * string);
  p_wired : option Wiring
}.

(** The calls the server makes on a gateway. *)
Inductive gateway_call :=
| Respond (data : string)
| Transfer (quid data : string)
| Close.

Record State := {
  server : Server.TunnelServer;
  peers : list Peer;
  calls : list (nat * gateway_call)
}.

Definition State_new (options : Server.UserOptions) : State :=
  {| server := Server.TunnelServer_new options; peers := []; calls := [] |}.

Definition set_peer (pid : nat) (p : Peer) (st : State) : State :=
  {| server := server st; peers := <[pid := p]> (peers st); calls := calls st |}.

Definition add_call (gid : nat) (c : gateway_call) (st : State) : State :=
  {| server := server st; peers := peers st; calls := calls st ++ [(gid, c)] |}.

(** [client.close(code, message)]: an open socket starts closing. *)
Definition peer_close (code : TunnelErrors) (message : string) (p : Peer) : Peer :=
  {| p_token := p_token p;
     p_readyState :=
       if p_readyState p =? Client.WS_OPEN then Client.WS_CLOSING else p_readyState p;
     p_sent := p_sent p;
     p_closed_with := p_closed_with p ++ [(code, message)];
     p_wired := p_wired p |}.

(** [TunnelServer.prototype._handleClient], for the socket of a [connection]
    event; the socket is open then. *)
Definition _handleClient (st : State) (token : Server.qs_value) : State :=
  let client :=
    {| p_token := token; p_readyState := Client.WS_OPEN; p_sent := [];
       p_closed_with := []; p_wired := None |} in
  match Server._gateways (server st) !! key_of token with
  | None =>
      {| server := server st;
         peers := peers st ++ [peer_close GATEWAY_CLOSED "Gateway no longer open" client];
         calls := calls st |}
  | Some gateway =>
      {| server := server st;
         peers := peers st ++
           [{| p_token := token; p_readyState := Client.WS_OPEN; p_sent := [];
               p_closed_with := [];
               p_wired := Some {| w_gateway := gateway; w_muxer_listeners := true;
                                  w_demuxer_listeners := true; w_demuxed := [] |} |}];
         calls := calls st |}
  end.

(** [cleanup()] *)
Definition cleanup (pid : nat) (p : Peer) (w : Wiring) (st : State) : State :=
  set_peer pid
    {| p_token := p_token p; p_readyState := p_readyState p; p_sent := p_sent p;
       p_closed_with := p_closed_with p;
       p_wired := Some {| w_gateway := w_gateway w; w_muxer_listeners := false;
                          w_demuxer_listeners := false; w_demuxed := w_demuxed w |} |}
    (add_call (w_gateway w) Close st).

(** [demuxer.on('error', ...)] and [muxer.on('error', ...)] *)
Definition on_codec_error (pid : nat) (p : Peer) (err : string) (st : State) : State :=
  set_peer pid (peer_close UNEXPECTED err p) st.

(** [demuxer.on('data', ...)] *)
Definition on_demuxer_data (pid : nat) (p : Peer) (w : Wiring) (object : Client.frame)
    (st : State) : State :=
  match object with
  | Client.Rpc data => add_call (w_gateway w) (Respond data) st
  | Client.DataChannel data _ quid => add_call (w_gateway w) (Transfer quid data) st
  | Client.Other _ =>
      set_peer pid (peer_close INVALID_FRAME_TYPE "Cannot handle tunnel frame type" p) st
  end.

(** [muxer.on('data', ...)] *)
Definition on_muxer_data (pid : nat) (p : Peer) (w : Wiring) (data : string)
    (st : State) : State :=
  if negb (Client.WS_OPEN =? p_readyState p) then cleanup pid p w st
  else
    set_peer pid
      {| p_token := p_token p; p_readyState := p_readyState p;
         p_sent := p_sent p ++ [data]; p_closed_with := p_closed_with p;
         p_wired := p_wired p |} st.

(** [client.on('message', ...)] *)
Definition on_message (pid : nat) (p : Peer) (w : Wiring) (data : string)
    (st : State) : State :=
  set_peer pid
    {| p_token := p_token p; p_readyState := p_readyState p; p_sent := p_sent p;
       p_closed_with := p_closed_with p;
       p_wired := Some {| w_gateway := w_gateway w;
                          w_muxer_listeners := w_muxer_listeners w;
                          w_demuxer_listeners := w_demuxer_listeners w;
                          w_demuxed := w_demuxed w ++ [data] |} |} st.

(** What reaches a server with sessions: what reaches the server itself;
    an upgrade request that, once [_verifyClient] has accepted it, ends in a
    [connection] event; the events of an accepted socket and of the muxer and
    demuxer made for it. *)
Inductive event :=
| ServerEvent (e : Server.event)
| Handshake (token : Server.qs_value)
| PeerMessage (pid : nat) (data : string)
| PeerClose (pid : nat)
| PeerError (pid : nat)
| DemuxerData (pid : nat) (object : Client.frame)
| DemuxerError (pid : nat) (err : string)
| MuxerData (pid : nat) (data : string)
| MuxerError (pid : nat) (err : string).

(** The socket has closed when its [close] event is handled. *)
Definition closed (p : Peer) : Peer :=
  {| p_token := p_token p; p_readyState := Client.WS_CLOSED; p_sent := p_sent p;
     p_closed_with := p_closed_with p; p_wired := p_wired p |}.

(** The handlers of [_handleClient] are on the socket, the demuxer and the
    muxer of a wired peer only; [cleanup] takes those of the demuxer and the
    muxer off again. *)
Definition on_peer (pid : nat) (st : State)
    (handler : Peer -> Wiring -> State -> State) : State :=
  match peers st !! pid with
  | Some p =>
      match p_wired p with
      | Some w => handler p w st
      | None => st
      end
  | None => st
  end.

Definition step (st : State) (e : event) : State :=
  match e with
  | ServerEvent e =>
      {| server := Server.step (server st) e; peers := peers st; calls := calls st |}
  | Handshake token =>
      match Server._verifyClient (server st) token with
      | (srv, Server.Accept) =>
          _handleClient {| server := srv; peers := peers st; calls := calls st |} token
      | (srv, Server.Reject _) =>
          {| server := srv; peers := peers st; calls := calls st |}
      end
  | PeerMessage pid data => on_peer pid st (fun p w => on_message pid p w data)
  | PeerClose pid =>
      on_peer pid st (fun p w st => cleanup pid (closed p) w st)
  | PeerError pid => on_peer pid st (fun p w => cleanup pid p w)
  | DemuxerData pid object =>
      on_peer pid st (fun p w st =>
        if w_demuxer_listeners w then on_demuxer_data pid p w object st else st)
  | DemuxerError pid err =>
      on_peer pid st (fun p w st =>
        if w_demuxer_listeners w then on_codec_error pid p err st else st)
  | MuxerData pid data =>
      on_peer pid st (fun p w st =>
        if w_muxer_listeners w then on_muxer_data pid p w data st else st)
  | MuxerError pid err =>
      on_peer pid st (fun p w st =>
        if w_muxer_listeners w then on_codec_error pid p err st else st)
  end.

Definition run (st : State) (es : list event) : State := fold_left step es st.

(** The peer an event belongs to. *)
Definition peer_of (e : event) : option nat :=
  match e with
  | ServerEvent _ | Handshake _ => None
  | PeerMessage pid _ | PeerClose pid | PeerError pid | DemuxerData pid _
  | DemuxerError pid _ | MuxerData pid _ | MuxerError pid _ => Some pid
  end.

(** The peers wired to the gateway [gid]. *)
Definition wired_to (gid : nat) (p : Peer) : bool :=
  match p_wired p with
  | Some w => Nat.eqb (w_gateway w) gid
  | None => false
  end.

Definition wired_count (gid : nat) (st : State) : nat :=
  length (List.filter (wired_to gid) (peers st)).

(** Whether [cleanup] has run for a peer: its codec listeners are gone. *)
Definition cleaned (p : Peer) : Prop :=
  ∃ w, p_wired p = Some w ∧ w_muxer_listeners w = false ∧
       w_demuxer_listeners w = false.

(** The calls other than [gateway.close()]. *)
Definition forwards (c : nat * gateway_call) : bool :=
  match snd c with
  | Close => false
  | _ => true
  end.

(** Example states: a server whose only gateway has opened and closed
    again; and a server with one open gateway and the socket that redeemed
    its token. *)
Definition gateway_closed : State :=
  run (State_new Server.no_options)
      [ServerEvent (Server.CreateGateway 0 0 "a");
       ServerEvent (Server.GatewayOpened 0 "a" 4002);
       ServerEvent (Server.GatewayClosed 0)].

Definition session_events : list event :=
  [ServerEvent (Server.CreateGateway 0 0 "a");
   ServerEvent (Server.GatewayOpened 0 "a" 4002);
   Handshake (Server.QsString "a")].

Definition in_session : State := run (State_new Server.no_options) session_events.

(** *** Sessions and the gateways they are wired to *)

(** The socket [pid] is wired to the gateway [gid]. *)
Definition wired (st : State) (pid gid : nat) : Prop :=
  ∃ p w, peers st !! pid = Some p ∧ p_wired p = Some w ∧ w_gateway w = gid.

(** What the gateways can be relied on for also says that the token of a
    gateway that reports open has not been authorized before. *)
Definition admissible (st : State) (e : event) : Prop :=
  match e with
  | ServerEvent (Server.GatewayOpened gid token port) =>
      Server.admissible (server st) (Server.GatewayOpened gid token port) ∧
      (token ∉ Server._authorized (server st))
  | ServerEvent e' => Server.admissible (server st) e'
  | _ => True
  end.

Fixpoint admissible_run (st : State) (es : list event) : Prop :=
  match es with
  | [] => True
  | e :: es' => admissible st e ∧ admissible_run (step st e) es'
  end.

(** The server's books are in order, no token is authorized twice, a
    gateway whose token can still be redeemed or that has not opened has no
    socket, and no gateway has two. *)
Definition exclusive (st : State) : Prop :=
  Server.ports_ok (server st) ∧
  NoDup (Server._authorized (server st)) ∧
  (∀ t gid pid, Server._gateways (server st) !! t = Some gid →
                t ∈ Server._authorized (server st) → ¬ wired st pid gid) ∧
  (∀ gid g pid, Server.created (server st) !! gid = Some g →
                Server.usedPort g = None → ¬ wired st pid gid) ∧
  (∀ pid gid, wired st pid gid → (gid < length (Server.created (server st)))%nat) ∧
  (∀ pid1 pid2 gid, wired st pid1 gid → wired st pid2 gid → pid1 = pid2).

End Session.

(** ** Facts about the JavaScript fragments *)

Module JSFacts.
Import JS.

Section Arrays.
Context {A : Type} `{EqDecision A}.

Lemma indexOf_from_spec (l : list A) (x : A) (i : Z) :
  ((x ∉ l) ∧ indexOf_from l x i = -1) ∨
  (∃ l1 l2, l = l1 ++ x :: l2 ∧ (x ∉ l1) ∧
            indexOf_from l x i = i + Z.of_nat (length l1)).
Proof.
  revert i. induction l as [|y l IH]; intros i; simpl.
  - left. split; [apply not_elem_of_nil | reflexivity].
  - destruct (decide (y = x)) as [->|Hne].
    + right. exists [], l. simpl. split; [reflexivity|].
      split; [apply not_elem_of_nil | lia].
    + destruct (IH (i + 1)) as [[Hnot Heq]|(l1 & l2 & -> & Hnot & Heq)].
      * left. split; [|exact Heq].
        rewrite not_elem_of_cons. split; [congruence | exact Hnot].
      * right. exists (y :: l1), l2. simpl. split; [reflexivity|].
        split; [rewrite not_elem_of_cons; split; [congruence | exact Hnot]|].
        rewrite Heq. lia.
Qed.

Lemma indexOf_spec (l : list A) (x : A) :
  ((x ∉ l) ∧ indexOf l x = -1) ∨
  (∃ l1 l2, l = l1 ++ x :: l2 ∧ (x ∉ l1) ∧ indexOf l x = Z.of_nat (length l1)).
Proof.
  unfold indexOf.
  destruct (indexOf_from_spec l x 0) as [?|(l1 & l2 & ? & ? & Heq)]; [by left|].
  right. exists l1, l2. rewrite Heq. by rewrite Z.add_0_l.
Qed.

Lemma indexOf_absent (l : list A) (x : A) : x ∉ l → indexOf l x = -1.
Proof.
  intros Hnot.
  destruct (indexOf_spec l x) as [[_ ?]|(l1 & l2 & -> & _ & _)]; [done|].
  exfalso. apply Hnot. apply elem_of_app. right. apply elem_of_cons. by left.
Qed.

Lemma indexOf_present (l : list A) (x : A) : x ∈ l → indexOf l x ≠ -1.
Proof.
  intros Hin.
  destruct (indexOf_spec l x) as [[? _]|(l1 & l2 & _ & _ & ->)]; [done|lia].
Qed.

Lemma splice1_at (l1 l2 : list A) (x : A) :
  splice1 (l1 ++ x :: l2) (Z.of_nat (length l1)) = l1 ++ l2.
Proof.
  unfold splice1.
  assert ((Z.of_nat (length l1) <? 0) = false) as -> by (apply Z.ltb_ge; lia).
  rewrite length_app. simpl.
  replace (Z.to_nat (Z.min (Z.of_nat (length l1))
                           (Z.of_nat (length l1 + S (length l2)))))
    with (length l1) by lia.
  rewrite take_app_length.
  replace (S (length l1)) with (length (l1 ++ [x])) by (rewrite length_app; simpl; lia).
  replace (l1 ++ x :: l2) with ((l1 ++ [x]) ++ l2) by (by rewrite <- app_assoc).
  by rewrite drop_app_length.
Qed.

(** [splice(-1, 1)] removes the last element. *)
Lemma splice1_minus_one (l : list A) (x : A) : splice1 (l ++ [x]) (-1) = l.
Proof.
  unfold splice1. simpl.
  rewrite length_app. simpl.
  replace (Z.to_nat (Z.max (Z.of_nat (length l + 1) + -1) 0)) with (length l) by lia.
  rewrite take_app_length.
  replace (S (length l)) with (length (l ++ [x])) by (rewrite length_app; simpl; lia).
  rewrite drop_all. apply app_nil_r.
Qed.

(** Removing the first occurrence of [x]: what [splice] at [indexOf]
    does. *)
Lemma splice1_indexOf (l1 l2 : list A) (x : A) :
  x ∉ l1 → splice1 (l1 ++ x :: l2) (indexOf (l1 ++ x :: l2) x) = l1 ++ l2.
Proof.
  intros Hnot.
  destruct (indexOf_spec (l1 ++ x :: l2) x) as [[Habs _]|(k1 & k2 & Heq & Hk & ->)].
  - exfalso. apply Habs. apply elem_of_app. right. apply elem_of_cons. by left.
  - rewrite Heq at 1. rewrite splice1_at.
    assert (k1 = l1 ∧ k2 = l2) as [-> ->]; [|done].
    clear -Heq Hnot Hk. revert k1 Heq Hk.
    induction l1 as [|a l1 IH]; intros [|b k1] Heq Hk; simplify_eq/=.
    + done.
    + exfalso. apply Hk. apply elem_of_cons. by left.
    + exfalso. apply Hnot. apply elem_of_cons. by left.
    + rewrite not_elem_of_cons in Hnot. rewrite not_elem_of_cons in Hk.
      destruct Hnot as [_ Hnot]. destruct Hk as [_ Hk].
      match goal with
      | Heq : l1 ++ _ = k1 ++ _ |- _ => destruct (IH Hnot k1 Heq Hk) as [-> ->]
      end.
      done.
Qed.

End Arrays.

End JSFacts.

(** ** Properties of the tunnel server *)

Module ServerProps.
Import JS JSFacts Server.

(** *** Admission tokens *)

Lemma verifyClient_reject (s : TunnelServer) (token : qs_value) :
  ¬ token_authorized s token → _verifyClient s token = (s, Reject 401).
Proof.
  intros Hnot. unfold _verifyClient.
  assert (authorized_indexOf (_authorized s) token = -1) as ->; [|done].
  destruct token as [|t|l]; simpl in *; try done.
  by apply indexOf_absent.
Qed.

(** An accepted upgrade takes the first occurrence of the token out of
    [_authorized] and leaves the rest of the server alone. *)
Lemma verifyClient_accept (s : TunnelServer) (t : string) (l1 l2 : list string) :
  _authorized s = l1 ++ t :: l2 → t ∉ l1 →
  _verifyClient s (QsString t) =
    ({| _options := _options s; _gateways := _gateways s;
        _authorized := l1 ++ l2; _usedPorts := _usedPorts s;
        created := created s; trace := trace s |}, Accept).
Proof.
  intros Hl Hnot. unfold _verifyClient. simpl. rewrite Hl.
  assert ((indexOf (l1 ++ t :: l2) t =? -1) = false) as ->.
  { apply Z.eqb_neq, indexOf_present, elem_of_app. right. apply elem_of_cons. by left. }
  by rewrite splice1_indexOf.
Qed.

Lemma token_authorized_cases (s : TunnelServer) (token : qs_value) :
  ¬ token_authorized s token ∨
  ∃ t l1 l2, token = QsString t ∧ _authorized s = l1 ++ t :: l2 ∧ (t ∉ l1).
Proof.
  destruct token as [|t|l]; simpl; [left; tauto| |left; tauto].
  destruct (indexOf_spec (_authorized s) t)
    as [[Habs _]|(l1 & l2 & Hl & Hnot & _)]; [by left|].
  right. by exists t, l1, l2.
Qed.

Lemma verifyClient_verdict (s : TunnelServer) (token : qs_value) :
  snd (_verifyClient s token) = Accept ↔ token_authorized s token.
Proof.
  destruct (token_authorized_cases s token)
    as [Hnot|(t & l1 & l2 & -> & Hl & Hnot)].
  - rewrite (verifyClient_reject _ _ Hnot). simpl. split; [done|tauto].
  - rewrite (verifyClient_accept s t l1 l2 Hl Hnot). simpl. rewrite Hl.
    split; [|done]. intros _. apply elem_of_app. right. apply elem_of_cons. by left.
Qed.

(** The tokens of distinct gateways are distinct, so [_authorized] holds no
    token twice; the handlers keep it that way. *)
Lemma verifyClient_NoDup (s : TunnelServer) (token : qs_value) :
  NoDup (_authorized s) → NoDup (_authorized (fst (_verifyClient s token))).
Proof.
  intros Hnd. destruct (token_authorized_cases s token)
    as [Hnot|(t & l1 & l2 & -> & Hl & Hnot)].
  - by rewrite (verifyClient_reject _ _ Hnot).
  - rewrite (verifyClient_accept s t l1 l2 Hl Hnot). simpl.
    rewrite Hl in Hnd. apply NoDup_app in Hnd as (H1 & H2 & H3).
    apply NoDup_cons in H3 as [_ H3].
    apply NoDup_app. split_and!; [done| |done].
    intros x Hx Hx'. apply (H2 x Hx). apply elem_of_cons. by right.
Qed.

Lemma on_gateway_open_NoDup (s : TunnelServer) (gid : nat) (token : string) (port : Z) :
  NoDup (_authorized s) → token ∉ _authorized s →
  NoDup (_authorized (on_gateway_open s gid token port)).
Proof.
  intros Hnd Hfresh. unfold on_gateway_open.
  destruct (created s !! gid); simpl; [|done].
  apply NoDup_app. split_and!; [done| |apply NoDup_singleton].
  intros x Hx Hx'. apply list_elem_of_singleton in Hx' as ->. done.
Qed.

Lemma step_NoDup (s : TunnelServer) (e : event) :
  NoDup (_authorized s) →
  (∀ gid token port, e = GatewayOpened gid token port → token ∉ _authorized s) →
  NoDup (_authorized (step s e)).
Proof.
  intros Hnd Hfresh. destruct e as [cb r tok|gid token port|gid|gid err|token]; simpl.
  - unfold createGateway. by destruct (gateway_count s >=? _).
  - apply on_gateway_open_NoDup; [done|]. by eapply Hfresh.
  - unfold on_gateway_close. by destruct (created s !! gid).
  - unfold on_gateway_error. by destruct (created s !! gid).
  - by apply verifyClient_NoDup.
Qed.

Lemma authorized_step (s : TunnelServer) (e : event) (t : string) :
  t ∈ _authorized (step s e) →
  t ∈ _authorized s ∨ ∃ gid port, e = GatewayOpened gid t port.
Proof.
  destruct e as [cb r tok|gid token port|gid|gid err|token]; simpl.
  - unfold createGateway. destruct (gateway_count s >=? _); simpl; auto.
  - unfold on_gateway_open. destruct (created s !! gid); simpl; [|auto].
    rewrite elem_of_app, list_elem_of_singleton. intros [? | ->]; eauto.
  - unfold on_gateway_close. destruct (created s !! gid); simpl; auto.
  - unfold on_gateway_error. destruct (created s !! gid); simpl; auto.
  - destruct (token_authorized_cases s token)
      as [Hnot|(t' & l1 & l2 & -> & Hl & Hnot)].
    + rewrite (verifyClient_reject _ _ Hnot). auto.
    + rewrite (verifyClient_accept s t' l1 l2 Hl Hnot). simpl. rewrite Hl.
      rewrite !elem_of_app, elem_of_cons. intros [?|?]; auto.
Qed.

(** As long as the gateways report open with tokens that differ from one
    another, [_authorized] never holds a token twice. *)
Lemma run_NoDup (es : list event) (s : TunnelServer) :
  NoDup (_authorized s) → NoDup (opened_tokens es) →
  (∀ t, t ∈ opened_tokens es → t ∉ _authorized s) →
  NoDup (_authorized (run s es)).
Proof.
  revert s. induction es as [|e es IH]; intros s Hnd Hes Hfresh; [done|].
  change (run s (e :: es)) with (run (step s e) es).
  assert (NoDup (opened_tokens es) ∧
          (∀ gid token port, e = GatewayOpened gid token port →
                             (token ∉ opened_tokens es) ∧ (token ∉ _authorized s)) ∧
          (∀ t, t ∈ opened_tokens es → t ∉ _authorized s)) as (Hes' & He & Hrest).
  { destruct e; simpl in Hes, Hfresh;
      try (split_and!; [done | by intros | done]).
    apply NoDup_cons in Hes as [Hhd Htl]. split_and!; [done| |].
    - intros ? ? ? [= <- <- <-]. split; [done|]. apply Hfresh. by left.
    - intros t Ht. apply Hfresh. by right. }
  apply IH; [|done|].
  - apply step_NoDup; [done|]. intros gid token port ->. by eapply He.
  - intros t Ht Hin. apply authorized_step in Hin as [Hin|(gid & port & ->)].
    + by apply (Hrest t).
    + by destruct (He gid t port eq_refl).
Qed.

Lemma new_server_NoDup (options : UserOptions) (es : list event) :
  NoDup (opened_tokens es) → NoDup (_authorized (run (TunnelServer_new options) es)).
Proof.
  intros Hes. apply run_NoDup; [apply NoDup_nil_2 | done |].
  intros t _. apply not_elem_of_nil.
Qed.

(** C1. Admission tokens are one-shot.  On a server whose authorized list
    holds no token twice, an upgrade is accepted exactly when its token is
    in the list; an accepted upgrade removes the token from the list, so a
    second upgrade with the same token is rejected with status 401 and
    changes nothing; and an upgrade whose token is not in the list is
    rejected with status 401. *)
Theorem verifyClient_one_shot (s : TunnelServer) (token : qs_value) :
  NoDup (_authorized s) →
  let s1 := fst (_verifyClient s token) in
  let v1 := snd (_verifyClient s token) in
  (v1 = Accept ↔ token_authorized s token) ∧
  (v1 = Accept →
     ¬ token_authorized s1 token ∧ _verifyClient s1 token = (s1, Reject 401)) ∧
  (¬ token_authorized s token → v1 = Reject 401 ∧ s1 = s).
Proof.
  intros Hnd s1 v1. split_and!.
  - apply verifyClient_verdict.
  - intros Hacc. apply verifyClient_verdict in Hacc.
    assert (¬ token_authorized s1 token) as Hgone.
    { subst s1. destruct (token_authorized_cases s token)
        as [Hnot|(t & l1 & l2 & -> & Hl & Hnot)]; [done|].
      rewrite (verifyClient_accept s t l1 l2 Hl Hnot). simpl.
      rewrite Hl in Hnd. apply NoDup_app in Hnd as (_ & H2 & H3).
      apply NoDup_cons in H3 as [H3 _].
      rewrite elem_of_app. intros [Hin|Hin]; [|done].
      apply (H2 t Hin). apply elem_of_cons. by left. }
    split; [exact Hgone | by apply verifyClient_reject].
  - intros Hnot. subst s1 v1. by rewrite (verifyClient_reject _ _ Hnot).
Qed.

Lemma verifyClient_one_shot_witness :
  NoDup (_authorized one_open) ∧
  let s1 := fst (_verifyClient one_open (QsString "T")) in
  let v1 := snd (_verifyClient one_open (QsString "T")) in
  (v1 = Accept ↔ token_authorized one_open (QsString "T")) ∧
  (v1 = Accept →
     ¬ token_authorized s1 (QsString "T") ∧
     _verifyClient s1 (QsString "T") = (s1, Reject 401)) ∧
  (¬ token_authorized one_open (QsString "T") → v1 = Reject 401 ∧ s1 = one_open).
Proof.
  split; [vm_compute; apply NoDup_singleton|].
  apply (verifyClient_one_shot one_open (QsString "T")).
  vm_compute; apply NoDup_singleton.
Defined.

(** *** The cap on gateways *)

(** The guard of [createGateway]: at the cap the callback gets the error
    and no gateway is constructed. *)
Lemma createGateway_exhausted (s : TunnelServer) (cb : nat) (r : Q) (tok : string) :
  maxTunnels (_options s) <= gateway_count s →
  createGateway s cb r tok =
    {| _options := _options s; _gateways := _gateways s;
       _authorized := _authorized s; _usedPorts := _usedPorts s;
       created := created s;
       trace := trace s ++ [Callback cb (CbError TunnelsExhausted)] |}.
Proof.
  intros Hcap. unfold createGateway.
  assert ((gateway_count s >=? maxTunnels (_options s)) = true) as ->; [|done].
  apply Z.geb_le. lia.
Qed.

(** Below the cap [createGateway] constructs a gateway and calls nothing
    back before the gateway reports. *)
Lemma createGateway_below_cap (s : TunnelServer) (cb : nat) (r : Q) (tok : string) :
  gateway_count s < maxTunnels (_options s) →
  createGateway s cb r tok =
    {| _options := _options s; _gateways := _gateways s;
       _authorized := _authorized s; _usedPorts := _usedPorts s;
       created := created s ++
         [{| gw_port := _getAvailablePort s r; authID := tok;
             usedPort := None; gw_callback := cb |}];
       trace := trace s ++ [GatewayOpen (length (created s))] |}.
Proof.
  intros Hcap. unfold createGateway.
  assert ((gateway_count s >=? maxTunnels (_options s)) = false) as ->; [|done].
  rewrite Z.geb_leb. apply Z.leb_gt. lia.
Qed.

(** When every gateway has opened before the next call of [createGateway],
    the cap holds: a call followed by the [open] event of the gateway it
    constructed leaves at most [maxTunnels] gateways. *)
Lemma createGateway_sequential (s : TunnelServer) (cb : nat) (r : Q) (tok token : string)
    (port : Z) :
  gateway_count s <= maxTunnels (_options s) →
  let s1 := createGateway s cb r tok in
  let s2 := on_gateway_open s1 (length (created s)) token port in
  gateway_count s2 <= maxTunnels (_options s2).
Proof.
  intros Hcap s1 s2. subst s2 s1.
  destruct (Z.lt_ge_cases (gateway_count s) (maxTunnels (_options s))) as [Hlt|Hge].
  - rewrite createGateway_below_cap by done. unfold on_gateway_open. simpl.
    rewrite lookup_app_r, Nat.sub_diag by done. simpl.
    unfold gateway_count in *. simpl.
    destruct (_gateways s !! token) as [g|] eqn:Hg.
    + rewrite map_size_insert_Some by (rewrite Hg; eauto). lia.
    + rewrite map_size_insert_None by done. lia.
  - rewrite createGateway_exhausted by done. unfold on_gateway_open. simpl.
    rewrite lookup_ge_None_2 by done. done.
Qed.

(** C2. The cap on live gateways.  [createGateway] compares the number of
    gateways that have opened with [maxTunnels], and a gateway is only
    counted once its [open] event has arrived.  With [maxTunnels = 1], two
    calls made before either gateway has opened both pass the guard (they
    are handed the ports 4002 and 4003); when the two gateways open the
    server holds two gateways, and neither callback has received the
    error. *)
Theorem createGateway_cap_exceeded :
  let s := run (TunnelServer_new one_tunnel)
               [CreateGateway 0 0 "a"; CreateGateway 1 (1 # 2) "b";
                GatewayOpened 0 "a" 4002; GatewayOpened 1 "b" 4003] in
  maxTunnels (_options s) = 1 ∧
  gw_port <$> created s = [Some 4002; Some 4003] ∧
  gateway_count s = 2 ∧
  callbacks s = [(0%nat, CbGateway 0); (1%nat, CbGateway 1)].
Proof. vm_compute. done. Qed.

(** *** [locked] and [unlocked] *)

Lemma emitted_app (ev : string) (s : TunnelServer) (l : list effect) :
  length (List.filter (is_emit ev) (trace s ++ l)) =
  (emitted ev s + length (List.filter (is_emit ev) l))%nat.
Proof. unfold emitted. by rewrite List.filter_app, length_app. Qed.

(** C4, as the claim states it, fails: by default three tunnels are
    admitted; with one gateway open the server is below the cap, and the
    close of that gateway still emits [unlocked]. *)
Lemma unlocked_below_cap :
  let s := run (TunnelServer_new no_options)
               [CreateGateway 0 0 "a"; GatewayOpened 0 "a" 4002] in
  gateway_count s < maxTunnels (_options s) ∧
  emitted "unlocked" (step s (GatewayClosed 0)) = S (emitted "unlocked" s).
Proof. vm_compute. done. Qed.

(** C4, amended.  For a gateway the server has constructed: its [open]
    event emits [locked] exactly when the number of gateways, the new one
    included, has reached [maxTunnels], and never emits [unlocked]; its
    [close] event emits [unlocked] once, whatever the number of gateways
    was, and never [locked].  Nothing else the server does emits either
    event. *)
Theorem lock_signals (s : TunnelServer) (gid : nat) (g : GatewayCtx) :
  created s !! gid = Some g →
  (∀ token port,
     let s' := on_gateway_open s gid token port in
     emitted "locked" s' =
       (emitted "locked" s +
          if (maxTunnels (_options s) <=? gateway_count s')%Z then 1 else 0)%nat ∧
     emitted "unlocked" s' = emitted "unlocked" s) ∧
  (let s' := on_gateway_close s gid in
   emitted "unlocked" s' = S (emitted "unlocked" s) ∧
   emitted "locked" s' = emitted "locked" s) ∧
  (∀ ev e, match e with
           | GatewayOpened _ _ _ | GatewayClosed _ => True
           | _ => emitted ev (step s e) = emitted ev s
           end).
Proof.
  intros Hg. split_and!.
  - intros token port. unfold on_gateway_open, gateway_count. rewrite Hg. simpl.
    unfold emitted at 1 3. simpl. rewrite !emitted_app.
    rewrite Z.geb_leb.
    destruct (maxTunnels (_options s) <=? _); simpl; split; lia.
  - unfold on_gateway_close. rewrite Hg. simpl.
    unfold emitted at 1 3. simpl. rewrite !emitted_app. simpl. split; lia.
  - intros ev [cb r tok|?|?|gid' err|token]; try done; simpl.
    + unfold createGateway.
      destruct (gateway_count s >=? _); unfold emitted at 1; simpl;
        rewrite emitted_app; simpl; lia.
    + unfold on_gateway_error. destruct (created s !! gid'); [|done].
      unfold emitted at 1; simpl. rewrite emitted_app; simpl; lia.
    + unfold _verifyClient. by destruct (authorized_indexOf _ _ =? -1).
Qed.

Lemma lock_signals_witness :
  created one_pending !! 0%nat =
    Some {| gw_port := Some 4002; authID := "a"; usedPort := None; gw_callback := 0 |} ∧
  emitted "locked" (on_gateway_open one_pending 0 "a" 4002) = 1%nat ∧
  emitted "unlocked" (on_gateway_close one_pending 0) = 1%nat.
Proof.
  split; [reflexivity|].
  destruct (lock_signals one_pending 0
              {| gw_port := Some 4002; authID := "a"; usedPort := None;
                 gw_callback := 0 |} eq_refl) as (Hopen & Hclose & _).
  split; [exact (proj1 (Hopen "a" 4002)) | exact (proj1 Hclose)].
Defined.

(** *** Port leasing *)

(** The first loop of [_getAvailablePort] leaves the ports from [start] to
    [e] in [available], in increasing order; the fuel it is given is never
    the reason it stops. *)
Lemma push_range_seqZ (e : Z) (n : nat) (start : Z) (acc : list Z) :
  (Z.to_nat (e - start + 1) <= n)%nat →
  push_range n start e acc = acc ++ seqZ start (e - start + 1).
Proof.
  revert start acc. induction n as [|n IH]; intros start acc Hn; simpl.
  - rewrite seqZ_nil by lia. by rewrite app_nil_r.
  - destruct (Z.leb_spec start e) as [Hle|Hgt].
    + rewrite IH by lia. rewrite <- app_assoc. simpl.
      rewrite (seqZ_cons start) by lia.
      do 3 f_equal; lia.
    + rewrite seqZ_nil by lia. by rewrite app_nil_r.
Qed.

Lemma filter_all {A} (P : A → Prop) `{∀ x, Decision (P x)} (l : list A) :
  Forall P l → filter P l = l.
Proof.
  induction 1 as [|x l Hx _ IH]; [done|].
  by rewrite filter_cons_True, IH.
Qed.

(** On an array without repetitions one iteration of the second loop
    removes the used port. *)
Lemma drop_used_filter (available : list Z) (used : Z) :
  NoDup available → drop_used available used = filter (λ p, p ≠ used) available.
Proof.
  intros Hnd. unfold drop_used.
  destruct (indexOf_spec available used)
    as [[Habs ->]|(l1 & l2 & Hl & Hnot & Hidx)]; simpl.
  - symmetry. apply filter_all. apply Forall_forall. intros x Hx ->. done.
  - assert ((indexOf available used =? -1) = false) as ->
        by (apply Z.eqb_neq; lia).
    simpl. rewrite Hl at 1 2. rewrite splice1_indexOf by done.
    rewrite Hl in Hnd |- *.
    apply NoDup_app in Hnd as (_ & _ & H3). apply NoDup_cons in H3 as [H3 _].
    rewrite filter_app, filter_cons_False by (intros ?; done).
    rewrite !filter_all; [done| |];
      apply Forall_forall; by intros x Hx ->.
Qed.

Lemma fold_drop_used (used available : list Z) :
  NoDup available →
  fold_left drop_used used available = filter (λ p, p ∉ used) available.
Proof.
  revert available. induction used as [|u used IH]; intros available Hnd; simpl.
  - symmetry. apply filter_all, Forall_forall. intros x _. apply not_elem_of_nil.
  - rewrite drop_used_filter by done.
    rewrite IH by (by apply NoDup_filter).
    rewrite list_filter_filter. apply list_filter_iff.
    intros x. rewrite not_elem_of_cons. tauto.
Qed.

Lemma elem_of_free_ports (start e : Z) (used : list Z) (p : Z) :
  p ∈ free_ports start e used ↔ (start <= p <= e) ∧ (p ∉ used).
Proof.
  unfold free_ports. rewrite list_elem_of_filter, elem_of_seqZ.
  split; intros [? ?]; split; try done; lia.
Qed.

Lemma available_ports_free (start e : Z) (used : list Z) :
  available_ports start (Some e) used = free_ports start e used.
Proof.
  unfold available_ports, free_ports.
  rewrite push_range_seqZ by done. simpl.
  apply fold_drop_used, NoDup_seqZ.
Qed.



Lemma getAvailablePort_range (s : TunnelServer) (r : Q) (start e : Z) :
  min (gatewayPortRange (_options s)) = Some start → start ≠ 0 →
  max (gatewayPortRange (_options s)) = Some e →
  let free := free_ports start e (_usedPorts s) in
  _getAvailablePort s r = free !! Z.to_nat (floor_mul r (Z.of_nat (length free))).
Proof.
  intros Hmin Hne Hmax. unfold _getAvailablePort. rewrite Hmin, Hmax.
  rewrite available_ports_free. by destruct start.
Qed.

(** Without a [max] the first loop never runs and nothing is available. *)
Lemma getAvailablePort_no_max (s : TunnelServer) (r : Q) (start : Z) :
  min (gatewayPortRange (_options s)) = Some start → start ≠ 0 →
  max (gatewayPortRange (_options s)) = None →
  _getAvailablePort s r = None.
Proof.
  intros Hmin Hne Hmax. unfold _getAvailablePort. rewrite Hmin, Hmax.
  assert (available_ports start None (_usedPorts s) = []) as ->.
  { unfold available_ports. induction (_usedPorts s) as [|u used IH]; [done|].
    simpl. exact IH. }
  by destruct start.
Qed.





(** *** The default options *)

(** C9. The default port range.  A server constructed without options
    leases gateway ports from 4002 to 4004, not from 4002 to 4003 as the
    documentation of the constructor has it: all three ports can be
    leased. *)
Theorem default_gatewayPortRange :
  let s := TunnelServer_new no_options in
  gatewayPortRange (_options s) = {| min := Some 4002; max := Some 4004 |} ∧
  max (gatewayPortRange (_options s)) ≠ Some 4003 ∧
  available_ports 4002 (max (gatewayPortRange (_options s))) (_usedPorts s)
    = [4002; 4003; 4004] ∧
  _getAvailablePort s (2 # 3) = Some 4004.
Proof. vm_compute. split_and!; done. Qed.

(** A missing (or zero) [min] makes [_getAvailablePort] return 0. *)
Lemma getAvailablePort_falsy_min (s : TunnelServer) (r : Q) :
  min (gatewayPortRange (_options s)) = None ∨
  min (gatewayPortRange (_options s)) = Some 0 →
  _getAvailablePort s r = Some 0.
Proof. unfold _getAvailablePort. by intros [-> | ->]. Qed.

End ServerProps.

(** ** Properties of the tunnel client *)

Module ClientProps.
Import JS JSFacts Client.
Local Open Scope js_scope.

(** *** The constructor *)

Lemma typeof_string (v : value) : typeof v = "string" ↔ ∃ s, v = VStr s.
Proof.
  split; [|by intros [s ->]].
  destruct v; simpl; intros Hv; try discriminate. eauto.
Qed.

(** C10. The constructor.  When the tunnel argument or the target argument
    is not a string the constructor throws an assertion error and yields no
    client; when both are strings it yields a client whose [readyState] is
    [CLOSED] and whose channels map is empty. *)
Theorem TunnelClient_new_spec (tunnel target options : value) :
  (typeof tunnel ≠ "string" ∨ typeof target ≠ "string" →
     ∃ message, TunnelClient_new tunnel target options = inl (AssertionError message)) ∧
  (typeof tunnel = "string" ∧ typeof target = "string" →
     ∃ c, TunnelClient_new tunnel target options = inr c ∧
          readyState c = CLOSED ∧ _channels c = ∅ ∧ _tunnel c = None).
Proof.
  unfold TunnelClient_new, assert. split.
  - intros [Hne|Hne].
    + rewrite bool_decide_eq_false_2 by done. eauto.
    + destruct (bool_decide (typeof tunnel = "string")); [|eauto].
      rewrite bool_decide_eq_false_2 by done. eauto.
  - intros [Ht Hg]. rewrite !bool_decide_eq_true_2 by done.
    eexists. split; [reflexivity|]. done.
Qed.

Lemma TunnelClient_new_strings (tunnel target : string) (options : value) :
  TunnelClient_new (VStr tunnel) (VStr target) options = inr (fresh tunnel target).
Proof. reflexivity. Qed.

(** *** [open], [close] and the failure of a forwarded request *)

Lemma open_eq (c : TunnelClient) :
  open c =
    ({| _tunuri := _tunuri c; _target := _target c;
        _tunnel := Some (length (sockets c));
        _muxer := Some {| mux_listeners := true |};
        _demuxer := Some {| demux_listeners := true; demux_written := [] |};
        _channels := _channels c; readyState := readyState c;
        sockets := sockets c ++
          [{| ws_url := Uri (_tunuri c); ws_role := Tunnel;
              ws_readyState := WS_CONNECTING; ws_sent := [];
              ws_once_open := []; ws_close_calls := 0 |}];
        emitted := emitted c; written := written c; requests := requests c |},
     Ok tt).
Proof. reflexivity. Qed.


Lemma close_no_tunnel (c : TunnelClient) :
  _tunnel c = None → close c = (c, Ok false).
Proof. intros Hc. unfold close, bind, gets. simpl. by rewrite Hc. Qed.

(** What [close] does to a client that has a tunnel. *)
Lemma close_tunnel (c : TunnelClient) (sid : nat) (s : WebSocket) (m : Muxer) (d : Demuxer) :
  _tunnel c = Some sid → sockets c !! sid = Some s →
  _muxer c = Some m → _demuxer c = Some d →
  close c =
    ({| _tunuri := _tunuri c; _target := _target c;
        _tunnel := None;
        _muxer := Some {| mux_listeners := false |};
        _demuxer := Some {| demux_listeners := false;
                            demux_written := demux_written d |};
        _channels := _channels c; readyState := CLOSED;
        sockets :=
          if negb (indexOf [WS_CONNECTING; WS_OPEN] (ws_readyState s) =? -1)
          then <[sid := {| ws_url := ws_url s; ws_role := ws_role s;
                           ws_readyState := WS_CLOSING; ws_sent := ws_sent s;
                           ws_once_open := ws_once_open s;
                           ws_close_calls := S (ws_close_calls s) |}]> (sockets c)
          else sockets c;
        emitted := emitted c ++ [SigClose];
        written := written c; requests := requests c |},
     Ok true).
Proof.
  intros Ht Hs Hm Hd.
  unfold close, bind, gets. simpl. rewrite Ht.
  unfold muxer_removeAllListeners, demuxer_removeAllListeners, socket,
    bind, gets, deref, modify. simpl. rewrite Hm. simpl. rewrite Hd. simpl.
  rewrite Hs. simpl.
  destruct (negb (indexOf [WS_CONNECTING; WS_OPEN] (ws_readyState s) =? -1)).
  - unfold socket_close, socket, put_socket, bind, gets, deref, modify. simpl.
    rewrite Hs. reflexivity.
  - reflexivity.
Qed.

(** On a client that has a tunnel (the tunnel socket, the muxer and the
    demuxer that [open] made) [close] returns [true] and leaves
    [readyState = CLOSED]; called again it returns [false] and changes
    nothing. *)
Lemma close_twice (c : TunnelClient) (sid : nat) (s : WebSocket)
    (m : Muxer) (d : Demuxer) :
  _tunnel c = Some sid → sockets c !! sid = Some s →
  _muxer c = Some m → _demuxer c = Some d →
  let c1 := fst (close c) in
  snd (close c) = Ok true ∧ readyState c1 = CLOSED ∧ close c1 = (c1, Ok false).
Proof.
  intros Ht Hs Hm Hd c1. subst c1.
  rewrite (close_tunnel c sid s m d Ht Hs Hm Hd). cbn [fst snd].
  rewrite close_no_tunnel by done. done.
Qed.

(** Right after [open] the client has a tunnel. *)
Lemma open_has_tunnel (c : TunnelClient) :
  let c1 := fst (open c) in
  ∃ sid s m d, _tunnel c1 = Some sid ∧ sockets c1 !! sid = Some s ∧
               _muxer c1 = Some m ∧ _demuxer c1 = Some d.
Proof.
  rewrite open_eq. simpl. do 4 eexists. split_and!; try reflexivity.
  by rewrite lookup_app_r, Nat.sub_diag.
Qed.

(** The terminal frame of the session that ends with [(1000, bye)]. *)
Example terminal_payload :
  JSON_stringify_code_message 1000 "bye" =
    "{" +:+ json_quote "code" +:+ ":1000," +:+ json_quote "message" +:+ ":"
        +:+ String dquote ("bye" +:+ String dquote "}") ∧
  String.length (JSON_stringify_code_message 1000 "bye") = 29%nat ∧
  json_quote_body (String backslash (String dquote "")) =
    String backslash (String backslash (String backslash (String dquote ""))).
Proof. vm_compute. done. Qed.

(** Whatever the client's state: after [open], the [open] event of the new
    tunnel socket makes the client emit [open] and leaves its [readyState]
    as it was; the handler assigns to the [readyState] of the socket. *)
Lemma open_event_any (c : TunnelClient) :
  let sid := length (sockets c) in
  let c' := fst (run [CallOpen; SocketOpen sid] c) in
  snd (run [CallOpen; SocketOpen sid] c) = Ok tt ∧
  emitted c' = emitted c ++ [SigOpen] ∧
  ws_readyState <$> sockets c' !! sid = Some OPEN ∧
  readyState c' = readyState c.
Proof.
  intros sid c'. subst c' sid.
  unfold run, deliver, bind. rewrite open_eq.
  unfold socket_emits_open, bind, gets. simpl.
  rewrite lookup_app_r, Nat.sub_diag by done. simpl.
  unfold socket_set_readyState, on_tunnel_open, socket_set_readyState, socket,
    put_socket, emit, bind, gets, deref, modify, ret. simpl.
  rewrite lookup_app_r, Nat.sub_diag by done. simpl.
  rewrite list_lookup_insert_eq by (rewrite length_app; simpl; lia). simpl.
  rewrite list_lookup_insert_eq
    by (rewrite length_insert, length_app; simpl; lia).
  split_and!; done.
Qed.

(** *** Data channels: what the handlers leave alone *)

Lemma bool_decide_eq_iff (P Q : Prop) `{Decision P, Decision Q} :
  bool_decide P = bool_decide Q → (P ↔ Q).
Proof.
  intros Hb. rewrite <- (bool_decide_spec P), <- (bool_decide_spec Q).
  by rewrite Hb.
Qed.

Lemma view_channels (c c' : TunnelClient) : view c' = view c → _channels c' = _channels c.
Proof. unfold view. congruence. Qed.

Lemma view_shapes (c c' : TunnelClient) :
  view c' = view c → shape_of <$> sockets c' = shape_of <$> sockets c.
Proof. unfold view. congruence. Qed.

Lemma view_muxer (c c' : TunnelClient) :
  view c' = view c → (is_Some (_muxer c') ↔ is_Some (_muxer c)).
Proof.
  unfold view. intros Heq.
  assert (bool_decide (is_Some (_muxer c')) = bool_decide (is_Some (_muxer c)))
    as Hb by congruence.
  by apply bool_decide_eq_iff in Hb.
Qed.

Lemma view_demuxer (c c' : TunnelClient) :
  view c' = view c → (is_Some (_demuxer c') ↔ is_Some (_demuxer c)).
Proof.
  unfold view. intros Heq.
  assert (bool_decide (is_Some (_demuxer c')) = bool_decide (is_Some (_demuxer c)))
    as Hb by congruence.
  by apply bool_decide_eq_iff in Hb.
Qed.

Lemma view_sockets_nil (c c' : TunnelClient) :
  view c' = view c → sockets c = [] → sockets c' = [].
Proof.
  intros Heq Hnil. apply view_shapes in Heq. rewrite Hnil in Heq.
  by apply fmap_nil_inv in Heq.
Qed.

Lemma wf_view (c c' : TunnelClient) : view c' = view c → wf c → wf c'.
Proof.
  intros Heq [Hch Hmux]. split.
  - intros sid sh q. rewrite (view_shapes _ _ Heq), (view_channels _ _ Heq). apply Hch.
  - destruct Hmux as [Hm|[Hs Hd]].
    + left. by apply (view_muxer _ _ Heq).
    + right. split; [by eapply view_sockets_nil|].
      destruct (_demuxer c') eqn:Hd'; [|done].
      assert (is_Some (_demuxer c)) as [? ?]; [|congruence].
      apply (view_demuxer _ _ Heq). rewrite Hd'. eauto.
Qed.

Lemma quiet_view (quid : string) (c c' : TunnelClient) :
  view c' = view c → quiet quid c → quiet quid c'.
Proof. intros Heq Hq sid sh. rewrite (view_shapes _ _ Heq). apply Hq. Qed.

Lemma obs_view (c c' : TunnelClient) : obs c' = obs c → view c' = view c.
Proof. unfold obs. congruence. Qed.

Lemma obs_written (c c' : TunnelClient) : obs c' = obs c → written c' = written c.
Proof. unfold obs. congruence. Qed.

Lemma keeps_ret {A} (a : A) : keeps (ret a).
Proof. by intros c. Qed.

Lemma keeps_throw {A} (e : exn) : keeps (@throw A e).
Proof. by intros c. Qed.

Lemma keeps_gets {A} (f : TunnelClient → A) : keeps (gets f).
Proof. by intros c. Qed.

Lemma keeps_deref {A} (what : string) (o : option A) : keeps (deref what o).
Proof. destruct o; [apply keeps_ret | apply keeps_throw]. Qed.

Lemma keeps_bind {A B} (m : M A) (k : A → M B) :
  keeps m → (∀ a, keeps (k a)) → keeps (bind m k).
Proof.
  intros Hm Hk c. unfold bind. specialize (Hm c).
  destruct (m c) as [c1 [a|e]]; simpl in *; [|done].
  by rewrite Hk.
Qed.

Lemma keeps_when (b : TunnelClient → bool) (m : M unit) : keeps m → keeps (when b m).
Proof. intros Hm c. unfold when. destruct (b c); [apply Hm | done]. Qed.

Lemma keeps_emit (sig : signal) : keeps (emit sig).
Proof. by intros c. Qed.

Lemma keeps_muxer_removeAllListeners : keeps muxer_removeAllListeners.
Proof.
  intros c. unfold muxer_removeAllListeners, bind, gets, deref, modify. simpl.
  destruct (_muxer c) eqn:Hm; simpl; [|done].
  unfold obs, view. simpl. by rewrite Hm.
Qed.

Lemma keeps_demuxer_removeAllListeners : keeps demuxer_removeAllListeners.
Proof.
  intros c. unfold demuxer_removeAllListeners, bind, gets, deref, modify. simpl.
  destruct (_demuxer c) eqn:Hd; simpl; [|done].
  unfold obs, view. simpl. by rewrite Hd.
Qed.

Lemma keeps_demuxer_write (data : string) : keeps (demuxer_write data).
Proof.
  intros c. unfold demuxer_write, bind, gets, deref, modify. simpl.
  destruct (_demuxer c) eqn:Hd; simpl; [|done].
  unfold obs, view. simpl. by rewrite Hd.
Qed.

Lemma keeps_socket (sid : nat) : keeps (socket sid).
Proof. apply keeps_bind; [apply keeps_gets | intros; apply keeps_deref]. Qed.

(** Replacing a socket by one with the same handlers that is closed
    exactly if the old one was. *)
Lemma put_socket_obs (c : TunnelClient) (sid : nat) (s s' : WebSocket) :
  sockets c !! sid = Some s → shape_of s' = shape_of s →
  obs (fst (put_socket sid s' c)) = obs c.
Proof.
  intros Hs Hsh. unfold put_socket, modify, obs, view. simpl.
  rewrite list_fmap_insert, Hsh.
  rewrite list_insert_id; [done|].
  by rewrite list_lookup_fmap, Hs.
Qed.

Lemma keeps_socket_send (sid : nat) (data : string) (binary : bool) :
  keeps (socket_send sid data binary).
Proof.
  intros c. unfold socket_send, socket, bind, gets, deref. simpl.
  destruct (sockets c !! sid) as [s|] eqn:Hs; simpl; [|done].
  destruct (ws_readyState s =? WS_OPEN); [|done].
  by apply (put_socket_obs c sid s).
Qed.

Lemma keeps_socket_once_open (sid : nat) (data : string) (binary : bool) :
  keeps (socket_once_open sid data binary).
Proof.
  intros c. unfold socket_once_open, socket, bind, gets, deref. simpl.
  destruct (sockets c !! sid) as [s|] eqn:Hs; simpl; [|done].
  by apply (put_socket_obs c sid s).
Qed.

Lemma keeps_clear_once_open (sid : nat) : keeps (clear_once_open sid).
Proof.
  intros c. unfold clear_once_open, socket, bind, gets, deref. simpl.
  destruct (sockets c !! sid) as [s|] eqn:Hs; simpl; [|done].
  by apply (put_socket_obs c sid s).
Qed.

Lemma keeps_flush_once_open (sid : nat) (pending : list (string * bool)) :
  keeps (flush_once_open sid pending).
Proof.
  induction pending as [|[data binary] pending IH]; simpl.
  - apply keeps_ret.
  - apply keeps_bind; [apply keeps_socket_send | intros _; exact IH].
Qed.

(** An assignment to a socket's [readyState] that neither closes it nor
    brings it back. *)
Lemma socket_set_readyState_obs (c : TunnelClient) (sid : nat) (s : WebSocket) (v : Z) :
  sockets c !! sid = Some s →
  (v =? WS_CLOSED) = (ws_readyState s =? WS_CLOSED) →
  obs (fst (socket_set_readyState sid v c)) = obs c.
Proof.
  intros Hs Hv. unfold socket_set_readyState, socket, bind, gets, deref. simpl.
  rewrite Hs. simpl. apply (put_socket_obs c sid s _ Hs).
  unfold shape_of. simpl. by rewrite Hv.
Qed.

Lemma obs_bind {A B} (m : M A) (k : A → M B) (c : TunnelClient) :
  obs (fst (m c)) = obs c →
  (∀ a, snd (m c) = Ok a → obs (fst (k a (fst (m c)))) = obs (fst (m c))) →
  obs (fst (bind m k c)) = obs c.
Proof.
  intros Hm Hk. unfold bind. destruct (m c) as [c1 [a|e]]; simpl in *; [|done].
  rewrite Hk by done. done.
Qed.

Lemma socket_close_obs (c : TunnelClient) (sid : nat) (s : WebSocket) :
  sockets c !! sid = Some s → ws_readyState s ≠ WS_CLOSED →
  obs (fst (socket_close sid c)) = obs c.
Proof.
  intros Hs Hst. unfold socket_close, socket, bind, gets, deref. simpl.
  rewrite Hs. simpl. apply (put_socket_obs c sid s _ Hs).
  unfold shape_of. simpl. f_equal. symmetry. by apply Z.eqb_neq.
Qed.

Lemma keeps_close : keeps close.
Proof.
  unfold close. apply keeps_bind; [apply keeps_gets|].
  intros [sid|]; [|apply keeps_ret].
  apply keeps_bind; [apply keeps_muxer_removeAllListeners|]. intros _.
  apply keeps_bind; [apply keeps_demuxer_removeAllListeners|]. intros _.
  intros c. apply obs_bind; [apply keeps_socket|].
  intros s Hs. unfold socket, bind, gets, deref in Hs |- *. simpl in Hs |- *.
  destruct (sockets c !! sid) as [s'|] eqn:Hlook; simplify_eq/=.
  apply obs_bind.
  - destruct (Z.eq_dec (ws_readyState s) WS_CLOSED) as [Heq|Hne].
    + rewrite Heq. done.
    + destruct (negb _); [by apply (socket_close_obs c sid s)|done].
  - intros _ _. generalize (fst ((if negb (indexOf [WS_CONNECTING; WS_OPEN]
                                                  (ws_readyState s) =? -1)
                                   then socket_close sid else ret ()) c)).
    intros c1. done.
Qed.

Lemma keeps_handleRPC (data : string) : keeps (_handleRPC data).
Proof. by intros c. Qed.

Lemma keeps_sendToExistingSocket (data : string) (binary : bool) (quid : string) :
  keeps (_sendToExistingSocket data binary quid).
Proof.
  unfold _sendToExistingSocket.
  apply keeps_bind; [apply keeps_bind; [apply keeps_gets | intros; apply keeps_deref]|].
  intros sock. apply keeps_bind; [apply keeps_socket|]. intros s.
  destruct (negb _); [apply keeps_socket_once_open | apply keeps_socket_send].
Qed.

Lemma keeps_on_muxer_data (buffer : string) : keeps (on_muxer_data buffer).
Proof.
  unfold on_muxer_data.
  apply keeps_bind; [apply keeps_bind; [apply keeps_gets | intros; apply keeps_deref]|].
  intros t. apply keeps_socket_send.
Qed.

Lemma keeps_on_tunnel_error (err : string) : keeps (on_tunnel_error err).
Proof. apply keeps_bind; [apply keeps_close | intros; apply keeps_emit]. Qed.

Lemma keeps_on_tunnel_close : keeps on_tunnel_close.
Proof. apply keeps_bind; [apply keeps_close | intros; apply keeps_ret]. Qed.

Lemma keeps_socket_emits_error (sid : nat) (err : string) :
  keeps (socket_emits_error sid err).
Proof.
  unfold socket_emits_error. apply keeps_bind; [apply keeps_gets|].
  intros [s|]; [|apply keeps_ret].
  destruct (ws_readyState s =? WS_CLOSED); [apply keeps_ret|].
  destruct (ws_role s); [apply keeps_on_tunnel_error | apply keeps_emit].
Qed.

Lemma socket_set_readyState_eq (c : TunnelClient) (sid : nat) (s : WebSocket) (v : Z) :
  sockets c !! sid = Some s →
  socket_set_readyState sid v c =
    (set_sockets
       (<[sid := {| ws_url := ws_url s; ws_role := ws_role s; ws_readyState := v;
                    ws_sent := ws_sent s; ws_once_open := ws_once_open s;
                    ws_close_calls := ws_close_calls s |}]> (sockets c)) c, Ok tt).
Proof.
  intros Hs. unfold socket_set_readyState, socket, put_socket, bind, gets, deref, modify.
  simpl. by rewrite Hs.
Qed.

Lemma keeps_socket_emits_open (sid : nat) : keeps (socket_emits_open sid).
Proof.
  intros c. unfold socket_emits_open. apply obs_bind; [apply keeps_gets|].
  intros o Ho. unfold gets in Ho |- *. simpl in Ho |- *. simplify_eq.
  destruct (sockets c !! sid) as [s|] eqn:Hs; [|done].
  destruct (Z.eqb_spec (ws_readyState s) WS_CONNECTING) as [Hst|]; [|done].
  assert (sid < length (sockets c))%nat as Hlt by (by eapply lookup_lt_Some).
  apply obs_bind.
  - apply (socket_set_readyState_obs c sid s); [done|]. by rewrite Hst.
  - intros _ _. rewrite (socket_set_readyState_eq c sid s) by done. cbn [fst].
    set (s1 := {| ws_url := ws_url s; ws_role := ws_role s; ws_readyState := WS_OPEN;
                  ws_sent := ws_sent s; ws_once_open := ws_once_open s;
                  ws_close_calls := ws_close_calls s |}).
    set (c1 := set_sockets (<[sid:=s1]> (sockets c)) c).
    assert (sockets c1 !! sid = Some s1) as Hs1
        by (by apply list_lookup_insert_eq).
    destruct (ws_role s) as [|quid data binary].
    + unfold on_tunnel_open. apply obs_bind; [|intros; apply keeps_emit].
      by apply (socket_set_readyState_obs c1 sid s1).
    + apply keeps_bind; [apply keeps_socket_send|]. intros _.
      apply keeps_bind; [apply keeps_clear_once_open|]. intros _.
      apply keeps_flush_once_open.
Qed.

Lemma muxer_write_some (c : TunnelClient) (m : Muxer) (f : frame) :
  _muxer c = Some m →
  muxer_write f c = (set_written (written c ++ [f]) c, Ok tt).
Proof. intros Hm. unfold muxer_write, bind, gets, deref, modify. simpl. by rewrite Hm. Qed.

Lemma muxer_write_none (c : TunnelClient) (f : frame) :
  _muxer c = None → muxer_write f c = (c, Throw (TypeError "_muxer")).
Proof. intros Hm. unfold muxer_write, bind, gets, deref, modify. simpl. by rewrite Hm. Qed.

(** Writing to the muxer changes nothing but the list of written frames. *)
Lemma muxer_write_view (c : TunnelClient) (f : frame) :
  view (fst (muxer_write f c)) = view c ∧
  (written (fst (muxer_write f c)) = written c ∨
   written (fst (muxer_write f c)) = written c ++ [f]).
Proof.
  destruct (_muxer c) as [m|] eqn:Hm.
  - rewrite (muxer_write_some c m f Hm). split; [done|by right].
  - rewrite (muxer_write_none c f Hm). split; [done|by left].
Qed.

(** The [message] event of a socket: nothing changes but what is written,
    and a frame is only written for the quid of a loopback socket that has
    not closed. *)
Lemma socket_emits_message_effect (c : TunnelClient) (sid : nat) (data : string)
    (binary : bool) :
  let c' := fst (socket_emits_message sid data binary c) in
  view c' = view c ∧
  (written c' = written c ∨
   ∃ q sh, (shape_of <$> sockets c) !! sid = Some sh ∧ live_for q sh = true ∧
           written c' = written c ++ [DataChannel data binary q]).
Proof.
  unfold socket_emits_message, bind, gets. simpl.
  destruct (sockets c !! sid) as [s|] eqn:Hs; simpl; [|by split; [|left]].
  destruct ((ws_readyState s =? WS_OPEN) || (ws_readyState s =? WS_CLOSING)) eqn:Hst;
    [|by split; [|left]].
  destruct (ws_role s) as [|quid d b] eqn:Hrole.
  - pose proof (keeps_demuxer_write data c) as Hk.
    split; [by apply obs_view | left; by apply obs_written].
  - unfold on_loopback_message.
    destruct (muxer_write_view c (DataChannel data binary quid)) as [Hv [Hw|Hw]].
    + split; [done|by left].
    + split; [done|]. right. exists quid, (shape_of s).
      rewrite list_lookup_fmap, Hs. split_and!; [done| |done].
      unfold live_for, shape_of. simpl. rewrite Hrole.
      rewrite bool_decide_eq_true_2 by done. simpl.
      apply negb_true_iff, Z.eqb_neq.
      apply orb_true_iff in Hst as [Hst|Hst]; apply Z.eqb_eq in Hst;
        rewrite Hst; done.
Qed.

(** The [close] event of a loopback socket that has not closed before:
    the socket is closed, its quid leaves [_channels], and the terminal
    frame is written if there is a muxer to write to. *)
Lemma socket_emits_close_loopback (c : TunnelClient) (sid : nat) (s : WebSocket)
    (quid d : string) (b : bool) (code : Z) (message : string) :
  sockets c !! sid = Some s → ws_role s = Loopback quid d b →
  ws_readyState s ≠ WS_CLOSED →
  let closed :=
    {| ws_url := ws_url s; ws_role := ws_role s; ws_readyState := WS_CLOSED;
       ws_sent := ws_sent s; ws_once_open := ws_once_open s;
       ws_close_calls := ws_close_calls s |} in
  let c2 := set_channels (delete quid (_channels c))
              (set_sockets (<[sid := closed]> (sockets c)) c) in
  socket_emits_close sid code message c =
    muxer_write (DataChannel (JSON_stringify_code_message code message) false quid) c2.
Proof.
  intros Hs Hrole Hst closed c2.
  unfold socket_emits_close, bind at 1, gets. simpl. rewrite Hs.
  assert ((ws_readyState s =? WS_CLOSED) = false) as -> by (by apply Z.eqb_neq).
  unfold bind at 1. rewrite (socket_set_readyState_eq c sid s) by done.
  rewrite Hrole. unfold on_loopback_close, bind at 1, modify. simpl.
  subst c2 closed. by rewrite Hrole.
Qed.

Lemma socket_emits_close_tunnel (c : TunnelClient) (sid : nat) (s : WebSocket)
    (code : Z) (message : string) :
  sockets c !! sid = Some s → ws_role s = Tunnel → ws_readyState s ≠ WS_CLOSED →
  let closed :=
    {| ws_url := ws_url s; ws_role := ws_role s; ws_readyState := WS_CLOSED;
       ws_sent := ws_sent s; ws_once_open := ws_once_open s;
       ws_close_calls := ws_close_calls s |} in
  socket_emits_close sid code message c =
    on_tunnel_close (set_sockets (<[sid := closed]> (sockets c)) c).
Proof.
  intros Hs Hrole Hst closed.
  unfold socket_emits_close, bind at 1, gets. simpl. rewrite Hs.
  assert ((ws_readyState s =? WS_CLOSED) = false) as -> by (by apply Z.eqb_neq).
  unfold bind at 1. rewrite (socket_set_readyState_eq c sid s) by done.
  subst closed. by rewrite Hrole.
Qed.

Lemma socket_emits_close_ignored (c : TunnelClient) (sid : nat) (code : Z) (message : string) :
  (∀ s, sockets c !! sid = Some s → ws_readyState s = WS_CLOSED) →
  socket_emits_close sid code message c = (c, Ok tt).
Proof.
  intros Hs. unfold socket_emits_close, bind, gets. simpl.
  destruct (sockets c !! sid) as [s|]; [|done].
  by rewrite (Hs s eq_refl).
Qed.

(** The three ways a [close] event can go. *)
Lemma socket_emits_close_cases (c : TunnelClient) (sid : nat) (code : Z) (message : string) :
  socket_emits_close sid code message c = (c, Ok tt) ∨
  ∃ s, sockets c !! sid = Some s ∧ ws_readyState s ≠ WS_CLOSED ∧
       (ws_role s = Tunnel ∨ ∃ quid d b, ws_role s = Loopback quid d b).
Proof.
  destruct (sockets c !! sid) as [s|] eqn:Hs.
  - destruct (Z.eq_dec (ws_readyState s) WS_CLOSED) as [Hst|Hst].
    + left. apply socket_emits_close_ignored. intros s' Hs'. congruence.
    + right. exists s. split_and!; [done|done|].
      destruct (ws_role s); [by left | right; eauto].
  - left. apply socket_emits_close_ignored. intros s' Hs'. congruence.
Qed.

Lemma handleDataChannel_new (c : TunnelClient) (data : string) (binary : bool)
    (quid : string) :
  _channels c !! quid = None →
  _handleDataChannel data binary quid c =
    (set_channels (<[quid := length (sockets c)]> (_channels c))
       (set_sockets
          (sockets c ++
             [{| ws_url := WsHostPort (_target c);
                 ws_role := Loopback quid data binary;
                 ws_readyState := WS_CONNECTING; ws_sent := [];
                 ws_once_open := []; ws_close_calls := 0 |}]) c), Ok tt).
Proof.
  intros Hq. unfold _handleDataChannel, bind at 1, gets. simpl. by rewrite Hq.
Qed.

Lemma handleDataChannel_existing (c : TunnelClient) (data : string) (binary : bool)
    (quid : string) :
  is_Some (_channels c !! quid) →
  obs (fst (_handleDataChannel data binary quid c)) = obs c.
Proof.
  intros [sock Hq]. unfold _handleDataChannel, bind at 1, gets. simpl. rewrite Hq.
  apply keeps_sendToExistingSocket.
Qed.

(** *** The bookkeeping holds in every state the client reaches *)

Lemma live_for_closed (q : string) (r : role) : live_for q (r, true) = false.
Proof. unfold live_for. simpl. destruct r; [done|]. apply andb_false_r. Qed.

Lemma live_for_shape_of (q : string) (s : WebSocket) (quid d : string) (b : bool) :
  ws_role s = Loopback quid d b → ws_readyState s ≠ WS_CLOSED →
  live_for q (shape_of s) = bool_decide (quid = q).
Proof.
  intros Hrole Hst. unfold live_for, shape_of. simpl. rewrite Hrole.
  apply Z.eqb_neq in Hst. rewrite Hst. apply andb_true_r.
Qed.

Lemma wf_fresh (tunnel target : string) : wf (fresh tunnel target).
Proof.
  split.
  - intros sid sh q Hlook. simpl in Hlook. by rewrite lookup_nil in Hlook.
  - by right.
Qed.

Lemma wf_open (c : TunnelClient) : wf c → wf (fst (open c)).
Proof.
  intros [Hch Hmux]. rewrite open_eq. split.
  - intros sid sh q. simpl. rewrite fmap_app. intros Hlook Hlive.
    apply lookup_app_Some in Hlook as [Hlook|[_ Hlook]].
    + by apply (Hch sid sh q).
    + destruct (sid - length (shape_of <$> sockets c))%nat; simplify_eq/=.
  - left. simpl. eauto.
Qed.

(** A socket closes, and with it at most the channel of its own quid
    goes. *)
Lemma wf_socket_closed (c c' : TunnelClient) (sid : nat) (s : WebSocket) :
  wf c → sockets c !! sid = Some s → ws_readyState s ≠ WS_CLOSED →
  shape_of <$> sockets c' = <[sid := (ws_role s, true)]> (shape_of <$> sockets c) →
  (is_Some (_muxer c) → is_Some (_muxer c')) →
  (_channels c' = _channels c ∨
   ∃ q d b, ws_role s = Loopback q d b ∧ _channels c' = delete q (_channels c)) →
  wf c'.
Proof.
  intros [Hch Hmux] Hs Hst Hshapes Hm Hchan. split.
  - intros sid' sh q. rewrite Hshapes. intros Hlook Hlive.
    destruct (decide (sid' = sid)) as [->|Hne].
    + rewrite list_lookup_insert_eq in Hlook
        by (rewrite length_fmap; by eapply lookup_lt_Some).
      simplify_eq. by rewrite live_for_closed in Hlive.
    + rewrite list_lookup_insert_ne in Hlook by done.
      pose proof (Hch sid' sh q Hlook Hlive) as Hq.
      destruct Hchan as [->|(q0 & d & b & Hrole & ->)]; [done|].
      rewrite lookup_delete_ne; [done|]. intros <-.
      assert (_channels c !! q0 = Some sid) as Hq0.
      { apply (Hch sid (shape_of s) q0); [by rewrite list_lookup_fmap, Hs|].
        rewrite (live_for_shape_of _ _ _ _ _ Hrole Hst).
        by apply bool_decide_eq_true_2. }
      congruence.
  - left. apply Hm. destruct Hmux as [?|[Hnil _]]; [done|].
    by rewrite Hnil, lookup_nil in Hs.
Qed.

Lemma wf_socket_emits_close (c : TunnelClient) (sid : nat) (code : Z) (message : string) :
  wf c → wf (fst (socket_emits_close sid code message c)).
Proof.
  intros Hwf.
  destruct (socket_emits_close_cases c sid code message)
    as [->|(s & Hs & Hst & [Hrole|(quid & d & b & Hrole)])]; [done| |].
  - rewrite (socket_emits_close_tunnel c sid s code message Hs Hrole Hst).
    set (c1 := set_sockets _ c).
    pose proof (keeps_on_tunnel_close c1) as Hk. apply obs_view in Hk.
    apply (wf_socket_closed c _ sid s Hwf Hs Hst).
    + rewrite (view_shapes _ _ Hk). subst c1. simpl. by rewrite list_fmap_insert.
    + intros Hm. by apply (view_muxer _ _ Hk).
    + left. by rewrite (view_channels _ _ Hk).
  - rewrite (socket_emits_close_loopback c sid s quid d b code message Hs Hrole Hst).
    set (c2 := set_channels _ _). set (f := DataChannel _ _ _).
    destruct (muxer_write_view c2 f) as [Hk _].
    apply (wf_socket_closed c _ sid s Hwf Hs Hst).
    + rewrite (view_shapes _ _ Hk). subst c2. simpl. by rewrite list_fmap_insert.
    + intros Hm. by apply (view_muxer _ _ Hk).
    + right. exists quid, d, b. split; [done|]. by rewrite (view_channels _ _ Hk).
Qed.

Lemma wf_handleDataChannel (c : TunnelClient) (data : string) (binary : bool)
    (quid : string) :
  wf c → is_Some (_demuxer c) → wf (fst (_handleDataChannel data binary quid c)).
Proof.
  intros Hwf Hd. destruct (_channels c !! quid) as [sock|] eqn:Hq.
  - eapply wf_view; [|exact Hwf].
    apply obs_view, handleDataChannel_existing. rewrite Hq. eauto.
  - rewrite (handleDataChannel_new c data binary quid Hq).
    destruct Hwf as [Hch Hmux]. split.
    + intros sid sh q. simpl. rewrite fmap_app. intros Hlook Hlive.
      apply lookup_app_Some in Hlook as [Hlook|[Hge Hlook]].
      * pose proof (Hch sid sh q Hlook Hlive) as Hsid.
        rewrite lookup_insert_ne; [done|]. intros <-. congruence.
      * rewrite length_fmap in Hge, Hlook.
        destruct (sid - length (sockets c))%nat eqn:Hdiff; simplify_eq/=.
        unfold live_for in Hlive. simpl in Hlive.
        apply andb_true_iff in Hlive as [Hlive _].
        apply bool_decide_eq_true_1 in Hlive as <-.
        replace sid with (length (sockets c)) by lia.
        apply lookup_insert_eq.
    + left. simpl. destruct Hmux as [?|[_ Hnone]]; [done|].
      rewrite Hnone in Hd. by destruct Hd.
Qed.

Lemma demuxer_listening_Some (c : TunnelClient) :
  demuxer_listening c = true → is_Some (_demuxer c).
Proof. unfold demuxer_listening. destruct (_demuxer c); [eauto|done]. Qed.

Lemma wf_deliver (e : event) (c : TunnelClient) : wf c → wf (fst (deliver e c)).
Proof.
  intros Hwf.
  destruct e as [| |sid|sid data binary|sid code message|sid err|object|err|buffer|err
                |err body]; simpl.
  - by apply wf_open.
  - eapply wf_view; [|exact Hwf]. apply obs_view.
    apply keeps_bind; [apply keeps_close | intros; apply keeps_ret].
  - eapply wf_view; [|exact Hwf]. apply obs_view, keeps_socket_emits_open.
  - eapply wf_view; [|exact Hwf]. apply socket_emits_message_effect.
  - by apply wf_socket_emits_close.
  - eapply wf_view; [|exact Hwf]. apply obs_view, keeps_socket_emits_error.
  - unfold when. destruct (demuxer_listening c) eqn:Hl; [|done].
    destruct object as [data|data binary quid|type]; simpl.
    + eapply wf_view; [|exact Hwf]. apply obs_view, keeps_handleRPC.
    + apply wf_handleDataChannel; [done|by apply demuxer_listening_Some].
    + eapply wf_view; [|exact Hwf]. apply obs_view, keeps_emit.
  - eapply wf_view; [|exact Hwf]. apply obs_view, keeps_when, keeps_emit.
  - eapply wf_view; [|exact Hwf]. apply obs_view, keeps_when, keeps_on_muxer_data.
  - eapply wf_view; [|exact Hwf]. apply obs_view, keeps_when, keeps_emit.
  - destruct err as [err|]; simpl.
    + eapply wf_view; [|exact Hwf]. apply obs_view, keeps_emit.
    + eapply wf_view; [|exact Hwf]. apply muxer_write_view.
Qed.

Lemma run_cons (e : event) (es : list event) (c : TunnelClient) :
  run (e :: es) c =
    match snd (deliver e c) with
    | Ok _ => run es (fst (deliver e c))
    | Throw err => (fst (deliver e c), Throw err)
    end.
Proof. simpl. unfold bind. by destruct (deliver e c) as [c1 [[]|err]]. Qed.

Lemma wf_run (es : list event) (c : TunnelClient) : wf c → wf (fst (run es c)).
Proof.
  revert c. induction es as [|e es IH]; intros c Hwf; [done|].
  rewrite run_cons. pose proof (wf_deliver e c Hwf) as Hwf1.
  destruct (snd (deliver e c)); [by apply IH | done].
Qed.

(** *** After the close of a loopback socket *)

Lemma written_for_same (quid : string) (c c' : TunnelClient) :
  written c' = written c → written_for quid c' = written_for quid c.
Proof. unfold written_for. by intros ->. Qed.

Lemma written_for_other (quid : string) (c c' : TunnelClient) (f : frame) :
  written c' = written c ++ [f] → is_for quid f = false →
  written_for quid c' = written_for quid c.
Proof.
  unfold written_for. intros -> Hf. rewrite List.filter_app. simpl.
  rewrite Hf. apply app_nil_r.
Qed.

Lemma quiet_socket_closed (quid : string) (c c' : TunnelClient) (sid : nat) (r : role) :
  quiet quid c →
  shape_of <$> sockets c' = <[sid := (r, true)]> (shape_of <$> sockets c) →
  quiet quid c'.
Proof.
  intros Hq Hshapes sid' sh. rewrite Hshapes. intros Hlook.
  destruct (decide (sid' = sid)) as [->|Hne].
  - apply list_lookup_insert_Some in Hlook as [(_ & <- & _)|[? _]]; [|done].
    apply live_for_closed.
  - rewrite list_lookup_insert_ne in Hlook by done. by apply (Hq sid').
Qed.

Lemma quiet_kept (quid : string) (c c' : TunnelClient) :
  obs c' = obs c → quiet quid c →
  quiet quid c' ∧ written_for quid c' = written_for quid c.
Proof.
  intros Hobs Hq. split.
  - eapply quiet_view; [by apply obs_view | done].
  - apply written_for_same. by apply obs_written.
Qed.

Lemma quiet_socket_emits_close (quid : string) (c : TunnelClient) (sid : nat)
    (code : Z) (message : string) :
  quiet quid c →
  let c' := fst (socket_emits_close sid code message c) in
  quiet quid c' ∧ written_for quid c' = written_for quid c.
Proof.
  intros Hq.
  destruct (socket_emits_close_cases c sid code message)
    as [->|(s & Hs & Hst & [Hrole|(q & d & b & Hrole)])]; [done| |].
  - rewrite (socket_emits_close_tunnel c sid s code message Hs Hrole Hst).
    set (c1 := set_sockets _ c).
    pose proof (keeps_on_tunnel_close c1) as Hk. cbv zeta. split.
    + apply (quiet_socket_closed quid c _ sid (ws_role s) Hq).
      rewrite (view_shapes _ _ (obs_view _ _ Hk)). subst c1. simpl.
      by rewrite list_fmap_insert.
    + apply written_for_same. by rewrite (obs_written _ _ Hk).
  - rewrite (socket_emits_close_loopback c sid s q d b code message Hs Hrole Hst).
    set (c2 := set_channels _ _). set (f := DataChannel _ _ _).
    destruct (muxer_write_view c2 f) as [Hk Hw]. cbv zeta. split.
    + apply (quiet_socket_closed quid c _ sid (ws_role s) Hq).
      rewrite (view_shapes _ _ Hk). subst c2. simpl. by rewrite list_fmap_insert.
    + destruct Hw as [Hw|Hw]; [by apply written_for_same|].
      apply (written_for_other quid c _ f Hw). subst f. simpl.
      apply bool_decide_eq_false_2. intros ->.
      pose proof (Hq sid (shape_of s)) as Hlive.
      rewrite list_lookup_fmap, Hs in Hlive. specialize (Hlive eq_refl).
      rewrite (live_for_shape_of _ _ _ _ _ Hrole Hst) in Hlive.
      by rewrite bool_decide_eq_true_2 in Hlive.
Qed.

(** While no loopback socket of [quid] is left and no inbound frame opens
    one, nothing is written to the muxer for [quid]. *)
Lemma quiet_deliver (quid : string) (e : event) (c : TunnelClient) :
  quiet quid c → opens_channel quid e = false →
  quiet quid (fst (deliver e c)) ∧
  written_for quid (fst (deliver e c)) = written_for quid c.
Proof.
  intros Hq He.
  destruct e as [| |sid|sid data binary|sid code message|sid err|object|err|buffer|err
                |err body]; unfold deliver.
  - rewrite open_eq. split; [|done].
    intros sid sh. simpl. rewrite fmap_app. intros Hlook.
    apply lookup_app_Some in Hlook as [Hlook|[_ Hlook]]; [by apply (Hq sid)|].
    destruct (sid - length (shape_of <$> sockets c))%nat; by simplify_eq/=.
  - apply quiet_kept; [|done].
    apply keeps_bind; [apply keeps_close | intros; apply keeps_ret].
  - apply quiet_kept; [|done]. apply keeps_socket_emits_open.
  - destruct (socket_emits_message_effect c sid data binary)
      as [Hv [Hw|(q & sh & Hlook & Hlive & Hw)]].
    + split; [by eapply quiet_view | by apply written_for_same].
    + split; [by eapply quiet_view|].
      apply (written_for_other quid c _ _ Hw). simpl.
      apply bool_decide_eq_false_2. intros ->.
      rewrite (Hq sid sh Hlook) in Hlive. done.
  - by apply quiet_socket_emits_close.
  - apply quiet_kept; [|done]. apply keeps_socket_emits_error.
  - unfold when. destruct (demuxer_listening c); [|done].
    destruct object as [data|data binary q|type]; simpl.
    + apply quiet_kept; [|done]. apply keeps_handleRPC.
    + simpl in He. apply bool_decide_eq_false_1 in He.
      destruct (_channels c !! q) as [sock|] eqn:Hch.
      * apply quiet_kept; [|done]. apply handleDataChannel_existing.
        rewrite Hch. eauto.
      * rewrite (handleDataChannel_new c data binary q Hch). split; [|done].
        intros sid sh. simpl. rewrite fmap_app. intros Hlook.
        apply lookup_app_Some in Hlook as [Hlook|[_ Hlook]]; [by apply (Hq sid)|].
        destruct (sid - length (shape_of <$> sockets c))%nat; simplify_eq/=.
        unfold live_for. simpl. by rewrite bool_decide_eq_false_2.
    + apply quiet_kept; [|done]. apply keeps_emit.
  - apply quiet_kept; [|done]. apply keeps_when, keeps_emit.
  - apply quiet_kept; [|done]. apply keeps_when, keeps_on_muxer_data.
  - apply quiet_kept; [|done]. apply keeps_when, keeps_emit.
  - destruct err as [err|]; simpl.
    + apply quiet_kept; [|done]. apply keeps_emit.
    + destruct (muxer_write_view c (Rpc body)) as [Hv [Hw|Hw]].
      * split; [by eapply quiet_view | by apply written_for_same].
      * split; [by eapply quiet_view | by apply (written_for_other quid c _ _ Hw)].
Qed.

Lemma quiet_run (quid : string) (es : list event) (c : TunnelClient) :
  quiet quid c → Forall (λ e, opens_channel quid e = false) es →
  written_for quid (fst (run es c)) = written_for quid c.
Proof.
  revert c. induction es as [|e es IH]; intros c Hq Hes; [done|].
  apply Forall_cons in Hes as [He Hes].
  destruct (quiet_deliver quid e c Hq He) as [Hq1 Hw1].
  rewrite run_cons. destruct (snd (deliver e c)); [|done].
  rewrite IH by done. done.
Qed.

(** *** A tunnel, once opened, stays complete *)

Lemma extends_refl (c : TunnelClient) : extends c c.
Proof. unfold extends. split_and!; auto. Qed.

Lemma extends_same (c c' : TunnelClient) :
  sockets c' = sockets c → _muxer c' = _muxer c → _demuxer c' = _demuxer c →
  _tunnel c' = _tunnel c → readyState c' = readyState c → extends c c'.
Proof.
  intros Hs Hm Hd Ht Hr. unfold extends. rewrite Hs, Hm, Hd, Ht, Hr.
  split_and!; auto.
Qed.

Lemma extends_trans (c1 c2 c3 : TunnelClient) :
  extends c1 c2 → extends c2 c3 → extends c1 c3.
Proof.
  intros (H1 & H2 & H3 & H4 & H5) (K1 & K2 & K3 & K4 & K5).
  unfold extends. split_and!; [lia | auto | auto | auto | auto].
Qed.

Lemma grows_ret {A} (a : A) : grows (ret a).
Proof. intros c. apply extends_refl. Qed.

Lemma grows_throw {A} (e : exn) : grows (@throw A e).
Proof. intros c. apply extends_refl. Qed.

Lemma grows_gets {A} (f : TunnelClient → A) : grows (gets f).
Proof. intros c. apply extends_refl. Qed.

Lemma grows_deref {A} (what : string) (o : option A) : grows (deref what o).
Proof. destruct o; [apply grows_ret | apply grows_throw]. Qed.

Lemma grows_bind {A B} (m : M A) (k : A → M B) :
  grows m → (∀ a, grows (k a)) → grows (bind m k).
Proof.
  intros Hm Hk c. unfold bind. specialize (Hm c).
  destruct (m c) as [c1 [a|e]]; simpl in *; [|done].
  eapply extends_trans; [exact Hm | apply Hk].
Qed.

Lemma grows_when (b : TunnelClient → bool) (m : M unit) : grows m → grows (when b m).
Proof. intros Hm c. unfold when. destruct (b c); [apply Hm | apply extends_refl]. Qed.

Lemma grows_modify (f : TunnelClient → TunnelClient) :
  (∀ c, extends c (f c)) → grows (modify f).
Proof. intros Hf c. apply Hf. Qed.

Lemma grows_emit (sig : signal) : grows (emit sig).
Proof. apply grows_modify. intros c. by apply extends_same. Qed.

Lemma grows_lookup {A} (what : string) (f : TunnelClient → option A) :
  grows (bind (gets f) (deref what)).
Proof. apply grows_bind; [apply grows_gets | intros; apply grows_deref]. Qed.

Lemma grows_muxer_write (f : frame) : grows (muxer_write f).
Proof.
  apply grows_bind; [apply grows_lookup|]. intros _.
  apply grows_modify. intros c. by apply extends_same.
Qed.

Lemma grows_muxer_removeAllListeners : grows muxer_removeAllListeners.
Proof.
  apply grows_bind; [apply grows_lookup|]. intros _.
  apply grows_modify. intros c. unfold extends. simpl. split_and!; eauto.
Qed.

Lemma grows_demuxer_removeAllListeners : grows demuxer_removeAllListeners.
Proof.
  apply grows_bind; [apply grows_lookup|]. intros d.
  apply grows_modify. intros c. unfold extends. simpl. split_and!; eauto.
Qed.

Lemma grows_demuxer_write (data : string) : grows (demuxer_write data).
Proof.
  apply grows_bind; [apply grows_lookup|]. intros d.
  apply grows_modify. intros c. unfold extends. simpl. split_and!; eauto.
Qed.

Lemma grows_socket (sid : nat) : grows (socket sid).
Proof. apply grows_lookup. Qed.

Lemma grows_put_socket (sid : nat) (s : WebSocket) : grows (put_socket sid s).
Proof.
  apply grows_modify. intros c. unfold extends. simpl.
  rewrite length_insert. split_and!; auto.
Qed.

Lemma grows_new_socket (url : address) (r : role) : grows (new_socket url r).
Proof.
  apply grows_bind; [apply grows_gets|]. intros sid.
  apply grows_bind; [|intros; apply grows_ret].
  apply grows_modify. intros c. unfold extends. simpl.
  rewrite length_app. split_and!; auto. lia.
Qed.

Lemma grows_socket_send (sid : nat) (data : string) (binary : bool) :
  grows (socket_send sid data binary).
Proof.
  apply grows_bind; [apply grows_socket|]. intros s.
  destruct (ws_readyState s =? WS_OPEN); [apply grows_put_socket | apply grows_throw].
Qed.

Lemma grows_socket_once_open (sid : nat) (data : string) (binary : bool) :
  grows (socket_once_open sid data binary).
Proof. apply grows_bind; [apply grows_socket | intros; apply grows_put_socket]. Qed.

Lemma grows_clear_once_open (sid : nat) : grows (clear_once_open sid).
Proof. apply grows_bind; [apply grows_socket | intros; apply grows_put_socket]. Qed.

Lemma grows_socket_set_readyState (sid : nat) (v : Z) : grows (socket_set_readyState sid v).
Proof. apply grows_bind; [apply grows_socket | intros; apply grows_put_socket]. Qed.

Lemma grows_socket_close (sid : nat) : grows (socket_close sid).
Proof. apply grows_bind; [apply grows_socket | intros; apply grows_put_socket]. Qed.

Lemma grows_flush_once_open (sid : nat) (pending : list (string * bool)) :
  grows (flush_once_open sid pending).
Proof.
  induction pending as [|[data binary] pending IH]; simpl.
  - apply grows_ret.
  - apply grows_bind; [apply grows_socket_send | intros _; exact IH].
Qed.

Lemma grows_close : grows close.
Proof.
  unfold close. apply grows_bind; [apply grows_gets|].
  intros [sid|]; [|apply grows_ret].
  apply grows_bind; [apply grows_muxer_removeAllListeners|]. intros _.
  apply grows_bind; [apply grows_demuxer_removeAllListeners|]. intros _.
  apply grows_bind; [apply grows_socket|]. intros s.
  apply grows_bind; [destruct (negb _); [apply grows_socket_close | apply grows_ret]|].
  intros _. apply grows_bind.
  { apply grows_modify. intros c. unfold extends. simpl. split_and!; auto; done. }
  intros _. apply grows_bind.
  { apply grows_modify. intros c. unfold extends. simpl. split_and!; auto. }
  intros _. apply grows_bind; [apply grows_emit | intros; apply grows_ret].
Qed.

Lemma grows_handleDataChannel (data : string) (binary : bool) (quid : string) :
  grows (_handleDataChannel data binary quid).
Proof.
  unfold _handleDataChannel. apply grows_bind; [apply grows_gets|].
  intros [sock|].
  - unfold _sendToExistingSocket. apply grows_bind; [apply grows_lookup|].
    intros sock'. apply grows_bind; [apply grows_socket|]. intros s.
    destruct (negb _); [apply grows_socket_once_open | apply grows_socket_send].
  - apply grows_bind; [apply grows_gets|]. intros target.
    apply grows_bind; [apply grows_new_socket|]. intros sock.
    apply grows_modify. intros c. by apply extends_same.
Qed.

Lemma grows_socket_emits_open (sid : nat) : grows (socket_emits_open sid).
Proof.
  unfold socket_emits_open. apply grows_bind; [apply grows_gets|].
  intros [s|]; [|apply grows_ret].
  destruct (ws_readyState s =? WS_CONNECTING); [|apply grows_ret].
  apply grows_bind; [apply grows_socket_set_readyState|]. intros _.
  destruct (ws_role s).
  - apply grows_bind; [apply grows_socket_set_readyState | intros; apply grows_emit].
  - apply grows_bind; [apply grows_socket_send|]. intros _.
    apply grows_bind; [apply grows_clear_once_open | intros; apply grows_flush_once_open].
Qed.

Lemma grows_socket_emits_message (sid : nat) (data : string) (binary : bool) :
  grows (socket_emits_message sid data binary).
Proof.
  unfold socket_emits_message. apply grows_bind; [apply grows_gets|].
  intros [s|]; [|apply grows_ret].
  destruct (_ || _); [|apply grows_ret].
  destruct (ws_role s); [apply grows_demuxer_write | apply grows_muxer_write].
Qed.

Lemma grows_socket_emits_close (sid : nat) (code : Z) (message : string) :
  grows (socket_emits_close sid code message).
Proof.
  unfold socket_emits_close. apply grows_bind; [apply grows_gets|].
  intros [s|]; [|apply grows_ret].
  destruct (ws_readyState s =? WS_CLOSED); [apply grows_ret|].
  apply grows_bind; [apply grows_socket_set_readyState|]. intros _.
  destruct (ws_role s).
  - apply grows_bind; [apply grows_close | intros; apply grows_ret].
  - apply grows_bind; [|intros; apply grows_muxer_write].
    apply grows_modify. intros c. by apply extends_same.
Qed.

Lemma grows_socket_emits_error (sid : nat) (err : string) :
  grows (socket_emits_error sid err).
Proof.
  unfold socket_emits_error. apply grows_bind; [apply grows_gets|].
  intros [s|]; [|apply grows_ret].
  destruct (ws_readyState s =? WS_CLOSED); [apply grows_ret|].
  destruct (ws_role s); [|apply grows_emit].
  apply grows_bind; [apply grows_close | intros; apply grows_emit].
Qed.

(** Every event but a call of [open] keeps what is there. *)
Lemma grows_deliver (e : event) : e ≠ CallOpen → grows (deliver e).
Proof.
  destruct e as [| |sid|sid data binary|sid code message|sid err|object|err|buffer|err
                |err body]; intros He; unfold deliver.
  - done.
  - apply grows_bind; [apply grows_close | intros; apply grows_ret].
  - apply grows_socket_emits_open.
  - apply grows_socket_emits_message.
  - apply grows_socket_emits_close.
  - apply grows_socket_emits_error.
  - apply grows_when. destruct object as [data|data binary quid|type]; simpl.
    + apply grows_modify. intros c. by apply extends_same.
    + apply grows_handleDataChannel.
    + apply grows_emit.
  - apply grows_when, grows_emit.
  - apply grows_when. unfold on_muxer_data.
    apply grows_bind; [apply grows_lookup | intros; apply grows_socket_send].
  - apply grows_when, grows_emit.
  - destruct err as [err|]; [apply grows_emit | apply grows_muxer_write].
Qed.

Lemma tunnel_ok_fresh (tunnel target : string) : tunnel_ok (fresh tunnel target).
Proof. intros sid Hsid. done. Qed.

Lemma tunnel_ok_deliver (e : event) (c : TunnelClient) :
  tunnel_ok c → tunnel_ok (fst (deliver e c)).
Proof.
  intros Hok.
  assert (e = CallOpen ∨ e ≠ CallOpen) as [->|He]
      by (destruct e; (by left) || (by right)).
  - unfold deliver. rewrite open_eq. intros sid Hsid. simpl in *. simplify_eq.
    rewrite lookup_app_r, Nat.sub_diag by done. simpl. eauto.
  - destruct (grows_deliver e He c) as (Hlen & Hm & Hd & Ht & _).
    intros sid Hsid. destruct (Hok sid (Ht sid Hsid)) as (Hs & Hm' & Hd').
    split_and!; [|auto|auto].
    apply lookup_lt_is_Some. apply lookup_lt_is_Some in Hs. lia.
Qed.

Lemma tunnel_ok_run (es : list event) (c : TunnelClient) :
  tunnel_ok c → tunnel_ok (fst (run es c)).
Proof.
  revert c. induction es as [|e es IH]; intros c Hok; [done|].
  rewrite run_cons. pose proof (tunnel_ok_deliver e c Hok) as Hok1.
  destruct (snd (deliver e c)); [by apply IH | done].
Qed.

(** No assignment to the client's [readyState] ever stores [OPEN]: in every
    state the client reaches from its construction it is [CLOSED]. *)
Lemma readyState_always_closed (tunnel target : string) (es : list event) :
  readyState (fst (run es (fresh tunnel target))) = CLOSED.
Proof.
  assert (∀ es c, readyState c = CLOSED → readyState (fst (run es c)) = CLOSED) as Hrun.
  { clear es. intros es. induction es as [|e es IH]; intros c Hc; [done|].
    rewrite run_cons.
    assert (readyState (fst (deliver e c)) = CLOSED) as Hc1.
    { assert (e = CallOpen ∨ e ≠ CallOpen) as [->|He]
          by (destruct e; (by left) || (by right)).
      - unfold deliver. by rewrite open_eq.
      - by apply (grows_deliver e He c). }
    destruct (snd (deliver e c)); [by apply IH | done]. }
  by apply Hrun.
Qed.

(** C3. [open] and the socket's [open] event.  A client is constructed
    with two strings and opened; when its tunnel socket reports [open] the
    client emits [open], but its [readyState] is still [CLOSED], not
    [OPEN]: the handler has assigned [TunnelClient.OPEN] to the
    [readyState] of the socket. *)
Theorem open_event_leaves_client_closed (tunnel target : string) (options : value) :
  ∃ c, TunnelClient_new (VStr tunnel) (VStr target) options = inr c ∧
       let c' := fst (run [CallOpen; SocketOpen 0] c) in
       snd (run [CallOpen; SocketOpen 0] c) = Ok tt ∧
       emitted c' = [SigOpen] ∧
       ws_readyState <$> sockets c' !! 0%nat = Some OPEN ∧
       readyState c' = CLOSED ∧ readyState c' ≠ OPEN.
Proof.
  exists (fresh tunnel target). split; [reflexivity|].
  pose proof (open_event_any (fresh tunnel target)) as H.
  cbv zeta in H. destruct H as (H1 & H2 & H3 & H4).
  cbv zeta. change (length (sockets (fresh tunnel target))) with 0%nat in *.
  split_and!; [exact H1 | exact H2 | exact H3 | by rewrite H4 | by rewrite H4].
Qed.

(** C7. [close] is idempotent.  In every state the client reaches from its
    construction: if it has a tunnel, [close] returns [true] and leaves
    [readyState = CLOSED], and [close] called again returns [false] and
    changes nothing, so [readyState] is still [CLOSED]; and on any client
    without a tunnel [close] returns [false] and changes nothing. *)
Theorem close_idempotent (tunnel target : string) (es : list event) (sid : nat) :
  let c := fst (run es (fresh tunnel target)) in
  _tunnel c = Some sid →
  let c1 := fst (close c) in
  let c2 := fst (close c1) in
  snd (close c) = Ok true ∧ readyState c1 = CLOSED ∧
  snd (close c1) = Ok false ∧ c2 = c1 ∧ readyState c2 = CLOSED ∧
  (∀ c0, _tunnel c0 = None → close c0 = (c0, Ok false)).
Proof.
  intros c Ht c1 c2.
  assert (tunnel_ok c) as Hok by apply tunnel_ok_run, tunnel_ok_fresh.
  destruct (Hok sid Ht) as ([s Hs] & [m Hm] & [d Hd]).
  destruct (close_twice c sid s m d Ht Hs Hm Hd) as (H1 & H2 & H3).
  subst c2. fold c1 in H2, H3. rewrite H3. cbn [fst snd].
  split_and!; try done. apply close_no_tunnel.
Qed.

Lemma close_idempotent_witness :
  _tunnel (fst (run [CallOpen] (fresh "ws://tunnel:4001/tun?token=T"
                                      "http://127.0.0.1:8080"))) = Some 0%nat ∧
  snd (close just_opened) = Ok true ∧
  readyState (fst (close just_opened)) = CLOSED ∧
  snd (close (fst (close just_opened))) = Ok false ∧
  fst (close (fst (close just_opened))) = fst (close just_opened).
Proof.
  split; [reflexivity|].
  pose proof (close_idempotent "ws://tunnel:4001/tun?token=T" "http://127.0.0.1:8080"
                [CallOpen] 0 eq_refl) as (H1 & H2 & H3 & H4 & _).
  split_and!; [exact H1 | exact H2 | exact H3 | exact H4].
Defined.

(** C6, as the claim states it, fails: the loopback socket of quid [Q]
    closes and the terminal frame is written; then another frame for [Q]
    arrives through the tunnel, the client opens a new loopback socket for
    [Q], and the message of that socket is written to the muxer as one more
    frame for [Q]. *)
Lemma frame_after_terminal_frame :
  let c := fst (run [CallOpen; SocketOpen 0;
                     DemuxerData (DataChannel "P1" true "Q"); SocketOpen 1]
                    (fresh "ws://tunnel:4001/tun?token=T" "http://127.0.0.1:8080")) in
  let c1 := fst (deliver (SocketClose 1 1000 "bye") c) in
  let c2 := fst (run [DemuxerData (DataChannel "P3" true "Q"); SocketOpen 2;
                      SocketMessage 2 "P4" true] c1) in
  let terminal := DataChannel (JSON_stringify_code_message 1000 "bye") false "Q" in
  written_for "Q" c1 = [terminal] ∧
  written_for "Q" c2 = [terminal; DataChannel "P4" true "Q"].
Proof. vm_compute. done. Qed.

(** C6, amended.  In every state the client reaches from its construction:
    when a loopback socket of quid [quid] that has not closed before closes
    with [(code, message)], the handler returns, [_channels] no longer has
    [quid], and exactly one frame is written to the muxer, a [datachannel]
    frame for [quid] with [binary = false] whose data is the JSON text of
    [{ code, message }].  From then on no frame for [quid] is written for
    as long as no [datachannel] frame for [quid] comes in through the
    tunnel. *)
Theorem loopback_close_terminal (tunnel target : string) (es0 : list event)
    (sid : nat) (s : WebSocket) (quid d : string) (b : bool)
    (code : Z) (message : string) :
  let c := fst (run es0 (fresh tunnel target)) in
  sockets c !! sid = Some s → ws_role s = Loopback quid d b →
  ws_readyState s ≠ WS_CLOSED →
  let c1 := fst (deliver (SocketClose sid code message) c) in
  snd (deliver (SocketClose sid code message) c) = Ok tt ∧
  _channels c1 !! quid = None ∧
  written c1 =
    written c ++ [DataChannel (JSON_stringify_code_message code message) false quid] ∧
  (∀ es, Forall (λ e, opens_channel quid e = false) es →
         written_for quid (fst (run es c1)) = written_for quid c1).
Proof.
  intros c Hs Hrole Hst c1.
  assert (wf c) as [Hch Hmux] by apply wf_run, wf_fresh.
  assert (is_Some (_muxer c)) as [m Hm].
  { destruct Hmux as [?|[Hnil _]]; [done|]. by rewrite Hnil, lookup_nil in Hs. }
  subst c1. simpl.
  rewrite (socket_emits_close_loopback c sid s quid d b code message Hs Hrole Hst).
  set (c2 := set_channels _ _). set (f := DataChannel _ _ _).
  rewrite (muxer_write_some c2 m f) by done. cbn [fst snd].
  split_and!; [done|apply lookup_delete_eq|done|].
  intros es Hes. apply quiet_run; [|done].
  intros sid' sh. simpl. rewrite list_fmap_insert. intros Hlook.
  destruct (decide (sid' = sid)) as [->|Hne].
  - apply list_lookup_insert_Some in Hlook as [(_ & <- & _)|[? _]]; [|done].
    unfold shape_of. simpl. apply live_for_closed.
  - rewrite list_lookup_insert_ne in Hlook by done.
    destruct (live_for quid sh) eqn:Hlive; [|done].
    pose proof (Hch sid' sh quid Hlook Hlive) as Hq'.
    assert (_channels c !! quid = Some sid) as Hq.
    { apply (Hch sid (shape_of s) quid); [by rewrite list_lookup_fmap, Hs|].
      rewrite (live_for_shape_of _ _ _ _ _ Hrole Hst).
      by apply bool_decide_eq_true_2. }
    congruence.
Qed.

Lemma loopback_close_terminal_witness :
  let c := fst (run example_events (fresh "ws://tunnel:4001/tun?token=T"
                                          "http://127.0.0.1:8080")) in
  sockets c !! 1%nat = Some example_loopback ∧
  ws_role example_loopback = Loopback "Q" "P1" true ∧
  ws_readyState example_loopback ≠ WS_CLOSED ∧
  let c1 := fst (deliver (SocketClose 1 1000 "bye") c) in
  snd (deliver (SocketClose 1 1000 "bye") c) = Ok tt ∧
  _channels c1 !! "Q" = None ∧
  written c1 =
    written c ++ [DataChannel (JSON_stringify_code_message 1000 "bye") false "Q"] ∧
  (∀ es, Forall (λ e, opens_channel "Q" e = false) es →
         written_for "Q" (fst (run es c1)) = written_for "Q" c1).
Proof.
  split_and!; [reflexivity | reflexivity | done |].
  apply (loopback_close_terminal "ws://tunnel:4001/tun?token=T" "http://127.0.0.1:8080"
           example_events 1 example_loopback "Q" "P1" true 1000 "bye");
    [reflexivity | reflexivity | done].
Defined.

End ClientProps.

(** ** Further properties of the tunnel server *)

Module ServerExtra.
Import JS JSFacts Server ServerProps.

(** *** Availability and admission *)

(** X1. [hasTunnelAvailable] tells what [createGateway] will do: when it
    returns [false] the call hands the error [Maximum number of tunnels
    open] to its callback at once and constructs no gateway; when it returns
    [true] the call constructs one gateway and calls nothing back before
    that gateway reports. *)
Theorem hasTunnelAvailable_createGateway (s : TunnelServer) (cb : nat) (r : Q)
    (tok : string) :
  let s' := createGateway s cb r tok in
  (hasTunnelAvailable s = false ↔
     callbacks s' = callbacks s ++ [(cb, CbError TunnelsExhausted)] ∧
     created s' = created s) ∧
  (hasTunnelAvailable s = true ↔
     callbacks s' = callbacks s ∧
     length (created s') = S (length (created s))).
Proof.
  intros s'. subst s'. unfold hasTunnelAvailable.
  destruct (Z.ltb_spec (gateway_count s) (maxTunnels (_options s))) as [Hlt|Hge].
  - rewrite createGateway_below_cap by done. unfold callbacks. simpl.
    rewrite omap_app, app_nil_r, length_app. simpl. split.
    + split; [done|]. intros [_ Hc].
      apply (f_equal length) in Hc. rewrite length_app in Hc. simpl in Hc. lia.
    + split; [|done]. intros _. split; [done|lia].
  - rewrite createGateway_exhausted by done. unfold callbacks. simpl.
    rewrite omap_app. simpl. split.
    + split; [|done]. done.
    + split; [done|]. intros [_ Hc]. lia.
Qed.

Lemma admissions_app (s : TunnelServer) (l1 l2 : list string) (t : string) :
  _authorized s = l1 ++ l2 →
  admissions s t =
    (length (filter (λ x, x = t) l1) + length (filter (λ x, x = t) l2))%nat.
Proof. unfold admissions. intros ->. by rewrite filter_app, length_app. Qed.

Lemma admissions_none (s : TunnelServer) (t : string) :
  t ∉ _authorized s ↔ admissions s t = 0%nat.
Proof.
  unfold admissions. split.
  - intros Hnot. induction (_authorized s) as [|x l IH]; [done|].
    rewrite not_elem_of_cons in Hnot. destruct Hnot as [Hne Hnot].
    rewrite filter_cons_False by congruence. by apply IH.
  - intros Hlen Hin.
    assert (t ∈ filter (λ x, x = t) (_authorized s)) as Hin'
        by (by apply list_elem_of_filter).
    destruct (filter (λ x, x = t) (_authorized s)); [|done].
    by apply not_elem_of_nil in Hin'.
Qed.

(** X2. Admissions are counted.  A token that is [k] times in the list of
    authorized tokens is accepted by the first [k] upgrade requests that
    present it and rejected with status 401 by all later ones; these
    requests use up the admissions of that token and of no other. *)
Theorem upgrades_counted (n : nat) (s : TunnelServer) (t : string) :
  let k := admissions s t in
  snd (upgrades n s (QsString t)) =
    replicate (n `min` k) Accept ++ replicate (n - k) (Reject 401) ∧
  admissions (fst (upgrades n s (QsString t))) t = (k - n)%nat ∧
  (∀ t', t' ≠ t →
     admissions (fst (upgrades n s (QsString t))) t' = admissions s t').
Proof.
  revert s. induction n as [|n IH]; intros s k; subst k.
  - simpl. split_and!; [done|lia|done].
  - simpl.
    destruct (token_authorized_cases s (QsString t))
      as [Hnot|(t0 & l1 & l2 & [= <-] & Hl & Hnot)].
    + rewrite (verifyClient_reject _ _ Hnot).
      simpl in Hnot. apply admissions_none in Hnot.
      specialize (IH s). cbv zeta in IH. rewrite Hnot in IH |- *.
      destruct (upgrades n s (QsString t)) as [s2 vs]. simpl in *.
      destruct IH as (Hv & Hk & Ho). rewrite Hv.
      rewrite Nat.min_0_r, !Nat.sub_0_r. simpl. split_and!; [done|lia|done].
    + rewrite (verifyClient_accept s t l1 l2 Hl Hnot).
      set (s1 := {| _options := _options s; _gateways := _gateways s;
                    _authorized := l1 ++ l2; _usedPorts := _usedPorts s;
                    created := created s; trace := trace s |}).
      assert (admissions s t = S (admissions s1 t)) as Hk.
      { rewrite (admissions_app s l1 (t :: l2) t Hl).
        rewrite (admissions_app s1 l1 l2 t eq_refl).
        rewrite filter_cons_True by done. simpl. lia. }
      assert (∀ t', t' ≠ t → admissions s1 t' = admissions s t') as Hother.
      { intros t' Hne. rewrite (admissions_app s l1 (t :: l2) t' Hl).
        rewrite (admissions_app s1 l1 l2 t' eq_refl).
        by rewrite filter_cons_False by congruence. }
      specialize (IH s1). cbv zeta in IH.
      destruct (upgrades n s1 (QsString t)) as [s2 vs]. simpl in *.
      destruct IH as (Hv & Hk' & Ho). rewrite Hv, Hk. simpl.
      split_and!; [done|lia|].
      intros t' Hne. rewrite Ho by done. by apply Hother.
Qed.

(** *** Opening and closing a gateway *)

Lemma splice1_indexOf_last (l : list Z) (p : Z) :
  p ∉ l → splice1 (l ++ [p]) (indexOf (l ++ [p]) p) = l.
Proof. intros Hp. rewrite (splice1_indexOf l [] p Hp). apply app_nil_r. Qed.

(** X3. A gateway that opens and closes again.  When a gateway the server
    has constructed reports open with a token that is not registered and a
    port that is not in [_usedPorts], and then reports close, [_gateways] and
    [_usedPorts] are what they were before; but its token stays in the list
    of authorized tokens, and an upgrade request that presents it afterwards
    is accepted. *)
Theorem gateway_open_close (s : TunnelServer) (gid : nat) (g : GatewayCtx)
    (token : string) (port : Z) :
  created s !! gid = Some g → _gateways s !! token = None → port ∉ _usedPorts s →
  let s' := on_gateway_close (on_gateway_open s gid token port) gid in
  _gateways s' = _gateways s ∧ _usedPorts s' = _usedPorts s ∧
  _authorized s' = _authorized s ++ [token] ∧
  snd (_verifyClient s' (QsString token)) = Accept.
Proof.
  intros Hg Htok Hport s'. subst s'.
  assert (gid < length (created s))%nat as Hlt by (by eapply lookup_lt_Some).
  unfold on_gateway_close, on_gateway_open. rewrite Hg. simpl.
  rewrite list_lookup_insert_eq by done. simpl.
  assert (_authorized
            (on_gateway_close (on_gateway_open s gid token port) gid)
          = _authorized s ++ [token]) as Hauth.
  { unfold on_gateway_close, on_gateway_open. rewrite Hg. simpl.
    by rewrite list_lookup_insert_eq. }
  split_and!.
  - by apply delete_insert_id.
  - by apply splice1_indexOf_last.
  - done.
  - apply verifyClient_verdict. simpl. apply elem_of_app. right.
    by apply list_elem_of_singleton.
Qed.

Lemma gateway_open_close_witness :
  created one_pending !! 0%nat =
    Some {| gw_port := Some 4002; authID := "a"; usedPort := None; gw_callback := 0 |} ∧
  _gateways one_pending !! "a" = None ∧ (4002 ∉ _usedPorts one_pending) ∧
  _authorized (on_gateway_close (on_gateway_open one_pending 0 "a" 4002) 0) =
    _authorized one_pending ++ ["a"].
Proof.
  split_and!; [reflexivity | reflexivity | apply not_elem_of_nil |].
  apply (gateway_open_close one_pending 0 _ "a" 4002 eq_refl eq_refl).
  apply not_elem_of_nil.
Defined.

(** X4. A close event without a port to release.  When a gateway reports
    close although its port is not in [_usedPorts] (it never opened, or it
    has reported close before), the handler takes the last port off
    [_usedPorts], the port of whichever gateway opened last, and emits
    [unlocked]; an empty [_usedPorts] stays empty. *)
Theorem stale_close_releases_last_port (s : TunnelServer) (gid : nat) (g : GatewayCtx) :
  created s !! gid = Some g →
  (usedPort g = None ∨ ∃ p, usedPort g = Some p ∧ (p ∉ _usedPorts s)) →
  let s' := on_gateway_close s gid in
  (∀ l q, _usedPorts s = l ++ [q] → _usedPorts s' = l) ∧
  (_usedPorts s = [] → _usedPorts s' = []) ∧
  trace s' = trace s ++ [Emit "unlocked"].
Proof.
  intros Hg Hport s'. subst s'. unfold on_gateway_close. rewrite Hg. simpl.
  assert (usedPorts_indexOf (_usedPorts s) (usedPort g) = -1) as ->.
  { destruct Hport as [->|(p & -> & Hp)]; [done|]. simpl. by apply indexOf_absent. }
  split_and!; [|by intros ->|done].
  intros l q ->. apply splice1_minus_one.
Qed.

Lemma stale_close_releases_last_port_witness :
  created second_open !! 0%nat =
    Some {| gw_port := Some 4002; authID := "a"; usedPort := Some 4002;
            gw_callback := 0 |} ∧
  (4002 ∉ _usedPorts second_open) ∧
  _usedPorts second_open = [] ++ [4003] ∧
  port_of second_open "b" = Some 4003 ∧
  _usedPorts (on_gateway_close second_open 0) = [].
Proof.
  split_and!; [reflexivity | | reflexivity | reflexivity |].
  - intros Hin. change (_usedPorts second_open) with [4003] in Hin.
    by apply list_elem_of_singleton in Hin.
  - assert (4002 ∉ _usedPorts second_open) as Hp.
    { intros Hin. change (_usedPorts second_open) with [4003] in Hin.
      by apply list_elem_of_singleton in Hin. }
    apply (proj1 (stale_close_releases_last_port second_open 0 _ eq_refl
                    (or_intror (ex_intro _ 4002 (conj eq_refl Hp))))
                 [] 4003 eq_refl).
Defined.

(** *** The cap, when gateways open one after the other *)

Lemma options_step (s : TunnelServer) (e : event) : _options (step s e) = _options s.
Proof.
  destruct e as [cb r tok|gid token port|gid|gid err|token]; simpl.
  - unfold createGateway. by destruct (gateway_count s >=? _).
  - unfold on_gateway_open. by destruct (created s !! gid).
  - unfold on_gateway_close. by destruct (created s !! gid).
  - unfold on_gateway_error. by destruct (created s !! gid).
  - unfold _verifyClient. by destruct (authorized_indexOf _ _ =? -1).
Qed.

Lemma options_commit (s : TunnelServer) (t : txn) : _options (commit s t) = _options s.
Proof.
  unfold commit, run. destruct t; cbn [events_of fold_left];
    by rewrite ?options_step.
Qed.

Lemma cap_commit (s : TunnelServer) (t : txn) :
  0 <= maxTunnels (_options s) →
  gateway_count s <= maxTunnels (_options s) →
  gateway_count (commit s t) <= maxTunnels (_options s).
Proof.
  intros Hmax Hcap. destruct t as [cb r tok token port|cb r tok err|gid|token];
    unfold commit, run; cbn [events_of fold_left step fst].
  - pose proof (createGateway_sequential s cb r tok token port Hcap) as Hseq.
    pose proof (options_step (createGateway s cb r tok)
                  (GatewayOpened (length (created s)) token port)) as H1.
    pose proof (options_step s (CreateGateway cb r tok)) as H2.
    cbn [step] in H1, H2. cbv zeta in Hseq. by rewrite H1, H2 in Hseq.
  - assert (_gateways (on_gateway_error (createGateway s cb r tok)
                         (length (created s)) err) = _gateways s) as Hg.
    { unfold on_gateway_error, createGateway.
      destruct (gateway_count s >=? _); simpl; by destruct (_ !! _). }
    unfold gateway_count in *. by rewrite Hg.
  - unfold on_gateway_close, gateway_count in *.
    destruct (created s !! gid) as [g|]; [|done]. simpl.
    rewrite map_size_delete. destruct (_gateways s !! authID g); simpl; lia.
  - unfold _verifyClient. by destruct (authorized_indexOf _ _ =? -1).
Qed.

(** X5. The cap on gateways, when each gateway reports before the next is
    asked for.  Starting from a new server whose [maxTunnels] is not
    negative, let each call of [createGateway] be followed at once by the
    [open] event (or the failure) of the gateway it constructed, with
    gateways closing and upgrade requests arriving in between: then the
    number of gateways never exceeds [maxTunnels]. *)
Theorem cap_sequential (options : UserOptions) (ts : list txn) :
  0 <= maxTunnels (merge DEFAULTS options) →
  let s := commit_all (TunnelServer_new options) ts in
  gateway_count s <= maxTunnels (merge DEFAULTS options).
Proof.
  intros Hmax.
  assert (∀ ts s, _options s = merge DEFAULTS options →
                  gateway_count s <= maxTunnels (merge DEFAULTS options) →
                  gateway_count (commit_all s ts) <= maxTunnels (merge DEFAULTS options))
    as Hall.
  { clear ts. intros ts. induction ts as [|t ts IH]; intros s Hopt Hcap; [done|].
    simpl. apply IH.
    - by rewrite options_commit.
    - rewrite <- Hopt. apply cap_commit; by rewrite Hopt. }
  apply Hall; [done|]. unfold gateway_count.
  change (_gateways (TunnelServer_new options)) with (∅ : gmap string nat).
  rewrite map_size_empty. lia.
Qed.

Lemma cap_sequential_witness :
  0 <= maxTunnels (merge DEFAULTS one_tunnel) ∧
  gateway_count
    (commit_all (TunnelServer_new one_tunnel)
       [Lease 0 0 "a" "a" 4002; Lease 1 0 "b" "b" 4003; Release 0;
        Lease 2 0 "c" "c" 4002])
    <= maxTunnels (merge DEFAULTS one_tunnel).
Proof.
  split; [done|].
  apply (cap_sequential one_tunnel
           [Lease 0 0 "a" "a" 4002; Lease 1 0 "b" "b" 4003; Release 0;
            Lease 2 0 "c" "c" 4002]).
  done.
Defined.

(** *** The ports in use *)

Lemma port_of_Some (s : TunnelServer) (token : string) (p : Z) :
  port_of s token = Some p ↔
  ∃ gid g, _gateways s !! token = Some gid ∧ created s !! gid = Some g ∧
           usedPort g = Some p.
Proof.
  unfold port_of. split.
  - destruct (_gateways s !! token) as [gid|] eqn:Hgid; [|done]. simpl.
    destruct (created s !! gid) as [g|] eqn:Hg; [|done]. simpl.
    intros Hp. by exists gid, g.
  - intros (gid & g & -> & Hg & Hp). simpl. rewrite Hg. done.
Qed.

Lemma ports_ok_new (options : UserOptions) : ports_ok (TunnelServer_new options).
Proof.
  unfold ports_ok. simpl. split_and!.
  - apply NoDup_nil_2.
  - by rewrite map_size_empty.
  - intros token gid Hg. by rewrite lookup_empty in Hg.
  - intros p Hp. by apply not_elem_of_nil in Hp.
  - intros t1 t2 p Hp. apply port_of_Some in Hp as (gid & g & Hg & _).
    simpl in Hg. by rewrite lookup_empty in Hg.
Qed.

(** The invariant only reads [_gateways], [_usedPorts] and the gateways
    constructed so far. *)
Lemma ports_ok_same (s s' : TunnelServer) :
  _gateways s' = _gateways s → _usedPorts s' = _usedPorts s →
  created s' = created s → ports_ok s → ports_ok s'.
Proof.
  intros Hg Hu Hc. unfold ports_ok, port_of. by rewrite Hg, Hu, Hc.
Qed.

Lemma ports_ok_createGateway (s : TunnelServer) (cb : nat) (r : Q) (tok : string) :
  ports_ok s → ports_ok (createGateway s cb r tok).
Proof.
  intros Hok. unfold createGateway.
  destruct (gateway_count s >=? _); [by apply (ports_ok_same s)|].
  destruct Hok as (Hnd & Hlen & Hreg & Hused & Hinj).
  set (gw := {| gw_port := _; authID := tok; usedPort := None; gw_callback := cb |}).
  assert (∀ token p,
            port_of {| _options := _options s; _gateways := _gateways s;
                       _authorized := _authorized s; _usedPorts := _usedPorts s;
                       created := created s ++ [gw];
                       trace := trace s ++ [GatewayOpen (length (created s))] |}
                    token = Some p ↔ port_of s token = Some p) as Hport.
  { intros token p. rewrite !port_of_Some. simpl. split.
    - intros (gid & g & Hg & Hc & Hp).
      destruct (Hreg token gid Hg) as (g' & p' & Hc' & _).
      rewrite (lookup_app_l_Some _ _ _ _ Hc') in Hc. simplify_eq. eauto.
    - intros (gid & g & Hg & Hc & Hp). exists gid, g.
      split_and!; [done| |done]. by apply lookup_app_l_Some. }
  unfold ports_ok. simpl. split_and!; [done|done| | |].
  - intros token gid Hg. destruct (Hreg token gid Hg) as (g & p & Hc & Hrest).
    exists g, p. split; [by apply lookup_app_l_Some | done].
  - intros p Hp. destruct (Hused p Hp) as [token Htok].
    exists token. by apply Hport.
  - intros t1 t2 p H1 H2. apply Hport in H1, H2. by eapply Hinj.
Qed.

Lemma ports_ok_open (s : TunnelServer) (gid : nat) (token : string) (port : Z) :
  ports_ok s → admissible s (GatewayOpened gid token port) →
  ports_ok (on_gateway_open s gid token port).
Proof.
  intros (Hnd & Hlen & Hreg & Hused & Hinj) ((g & Hg & Hnone) & Hfresh & Hport).
  assert (gid < length (created s))%nat as Hlt by (by eapply lookup_lt_Some).
  unfold on_gateway_open. rewrite Hg.
  set (g' := {| gw_port := gw_port g; authID := token; usedPort := Some port;
                gw_callback := gw_callback g |}).
  set (s' := {| _options := _options s; _gateways := <[token:=gid]> (_gateways s);
                _authorized := _authorized s ++ [token];
                _usedPorts := _usedPorts s ++ [port];
                created := <[gid:=g']> (created s); trace := _ |}).
  assert (∀ t gid1, _gateways s !! t = Some gid1 → gid1 ≠ gid) as Hother.
  { intros t gid1 Ht ->. destruct (Hreg t gid Ht) as (g0 & p0 & Hg0 & _ & Hp0 & _).
    congruence. }
  assert (∀ t p, port_of s' t = Some p ↔
                 (t = token ∧ p = port) ∨ (t ≠ token ∧ port_of s t = Some p)) as Hpo.
  { intros t p. rewrite !port_of_Some. subst s'. simpl. split.
    - intros (gid1 & g1 & Ht & Hc & Hp).
      apply lookup_insert_Some in Ht as [[<- <-]|[Hne Ht]].
      + rewrite list_lookup_insert_eq in Hc by done.
        injection Hc as <-. simpl in Hp. injection Hp as <-. by left.
      + right. split; [done|]. exists gid1, g1.
        rewrite list_lookup_insert_ne in Hc by (symmetry; by eapply Hother). done.
    - intros [[-> ->]|[Hne (gid1 & g1 & Ht & Hc & Hp)]].
      + exists gid, g'. rewrite lookup_insert_eq.
        by rewrite list_lookup_insert_eq.
      + exists gid1, g1. rewrite lookup_insert_ne by done.
        rewrite list_lookup_insert_ne by (symmetry; by eapply Hother). done. }
  assert (∀ t, port_of s t ≠ Some port) as Hnew.
  { intros t Ht. apply port_of_Some in Ht as (gid1 & g1 & Ht & Hc & Hp).
    destruct (Hreg t gid1 Ht) as (g0 & p0 & Hg0 & _ & Hp0 & Hin). congruence. }
  unfold ports_ok. split_and!.
  - subst s'. simpl. apply NoDup_app. split_and!; [done| |apply NoDup_singleton].
    intros x Hx Hx'. apply list_elem_of_singleton in Hx' as ->. done.
  - subst s'. simpl. rewrite length_app, map_size_insert_None by done. simpl. lia.
  - intros t gid1 Ht. subst s'. simpl in *.
    apply lookup_insert_Some in Ht as [[<- <-]|[Hne Ht]].
    + exists g', port. rewrite list_lookup_insert_eq by done.
      split_and!; [done|done|done|]. apply elem_of_app. right.
      by apply list_elem_of_singleton.
    + destruct (Hreg t gid1 Ht) as (g0 & p0 & Hg0 & Ha & Hp0 & Hin).
      exists g0, p0.
      rewrite list_lookup_insert_ne by (symmetry; by eapply Hother).
      split_and!; [done|done|done|]. apply elem_of_app. by left.
  - intros p Hp. subst s'. simpl in Hp. apply elem_of_app in Hp as [Hp|Hp].
    + destruct (Hused p Hp) as [t Ht]. exists t. apply Hpo. right.
      split; [|done]. intros ->.
      apply port_of_Some in Ht as (gid1 & g1 & Ht & _). congruence.
    + apply list_elem_of_singleton in Hp as ->. exists token. apply Hpo. by left.
  - intros t1 t2 p H1 H2. apply Hpo in H1, H2.
    destruct H1 as [[-> ->]|[Hne1 H1]], H2 as [[-> Hp]|[Hne2 H2]]; try done.
    + by destruct (Hnew t2).
    + subst p. by destruct (Hnew t1).
    + by eapply Hinj.
Qed.

Lemma ports_ok_close (s : TunnelServer) (gid : nat) :
  ports_ok s → admissible s (GatewayClosed gid) → ports_ok (on_gateway_close s gid).
Proof.
  intros (Hnd & Hlen & Hreg & Hused & Hinj) (g & Hg & Hlive).
  destruct (Hreg _ _ Hlive) as (g0 & p & Hg0 & _ & Hp & Hin).
  assert (g0 = g) as -> by congruence.
  assert (port_of s (authID g) = Some p) as Hmine.
  { apply port_of_Some. eauto. }
  destruct (indexOf_spec (_usedPorts s) p)
    as [[Habs _]|(l1 & l2 & Hl & Hl1 & _)]; [done|].
  assert (p ∉ l2) as Hl2.
  { rewrite Hl in Hnd. apply NoDup_app in Hnd as (_ & _ & Hnd).
    by apply NoDup_cons in Hnd as [? _]. }
  unfold on_gateway_close. rewrite Hg.
  set (s' := {| _options := _options s; _gateways := delete (authID g) (_gateways s);
                _authorized := _authorized s; _usedPorts := _;
                created := created s; trace := _ |}).
  assert (_usedPorts s' = l1 ++ l2) as Hports.
  { subst s'. simpl. rewrite Hp. simpl. rewrite Hl. by apply splice1_indexOf. }
  assert (∀ x, x ∈ l1 ++ l2 ↔ x ∈ _usedPorts s ∧ x ≠ p) as Hmem.
  { intros x. rewrite Hl, !elem_of_app, elem_of_cons. split.
    - intros [Hx|Hx]; (split; [tauto|]); by intros ->.
    - intros [[Hx|[->|Hx]] Hne]; tauto. }
  assert (∀ t q, port_of s' t = Some q ↔ t ≠ authID g ∧ port_of s t = Some q) as Hpo.
  { intros t q. rewrite !port_of_Some. subst s'. simpl. split.
    - intros (gid1 & g1 & Ht & Hc & Hq).
      apply lookup_delete_Some in Ht as [Hne Ht]. split; [done|eauto].
    - intros [Hne (gid1 & g1 & Ht & Hc & Hq)]. exists gid1, g1.
      rewrite lookup_delete_ne by done. done. }
  unfold ports_ok. rewrite Hports. split_and!.
  - rewrite Hl in Hnd. apply NoDup_app in Hnd as (H1 & H2 & H3).
    apply NoDup_cons in H3 as [_ H3]. apply NoDup_app. split_and!; [done| |done].
    intros x Hx Hx'. apply (H2 x Hx). apply elem_of_cons. by right.
  - subst s'. simpl. rewrite map_size_delete_Some by (rewrite Hlive; eauto).
    rewrite <- Hlen, Hl, !length_app. simpl. lia.
  - intros t gid1 Ht. subst s'. simpl in Ht.
    apply lookup_delete_Some in Ht as [Hne Ht].
    destruct (Hreg t gid1 Ht) as (g1 & q & Hg1 & Ha & Hq & Hqin).
    exists g1, q. split_and!; [done|done|done|]. apply Hmem. split; [done|].
    intros Heq. subst q. apply Hne. apply (Hinj _ _ p); [done|].
    apply port_of_Some. eauto.
  - intros q Hq. apply Hmem in Hq as [Hq Hne].
    destruct (Hused q Hq) as [t Ht]. exists t. apply Hpo. split; [|done].
    intros ->. congruence.
  - intros t1 t2 q H1 H2. apply Hpo in H1 as [_ H1]. apply Hpo in H2 as [_ H2].
    by eapply Hinj.
Qed.

Lemma ports_ok_step (s : TunnelServer) (e : event) :
  ports_ok s → admissible s e → ports_ok (step s e).
Proof.
  intros Hok Hadm. destruct e as [cb r tok|gid token port|gid|gid err|token];
    cbn [step].
  - by apply ports_ok_createGateway.
  - by apply ports_ok_open.
  - by apply ports_ok_close.
  - apply (ports_ok_same s); [| | |done];
      unfold on_gateway_error; by destruct (created s !! gid).
  - apply (ports_ok_same s); [| | |done];
      unfold _verifyClient; by destruct (authorized_indexOf _ _ =? -1).
Qed.

Lemma ports_ok_run (es : list event) (s : TunnelServer) :
  ports_ok s → admissible_run s es → ports_ok (run s es).
Proof.
  revert s. induction es as [|e es IH]; intros s Hok Hadm; [done|].
  destruct Hadm as [He Hes]. change (run s (e :: es)) with (run (step s e) es).
  apply IH; [by apply ports_ok_step | done].
Qed.

Lemma second_open_admissible :
  admissible_run (TunnelServer_new no_options)
    [CreateGateway 0 0 "a"; GatewayOpened 0 "a" 4002;
     CreateGateway 1 0 "b"; GatewayOpened 1 "b" 4003; GatewayClosed 0].
Proof.
  cbn [admissible_run admissible]. split_and!; try exact I.
  - eexists. split; reflexivity.
  - reflexivity.
  - apply (bool_decide_unpack _). vm_compute. exact I.
  - eexists. split; reflexivity.
  - reflexivity.
  - apply (bool_decide_unpack _). vm_compute. exact I.
  - eexists. split; reflexivity.
Qed.

Lemma second_open_ok : ports_ok second_open.
Proof. apply ports_ok_run; [apply ports_ok_new | apply second_open_admissible]. Qed.

(** X6. The ports in use.  As long as each gateway reports open at most
    once, with a token and on a port that no open gateway has, and only open
    gateways report close, the server keeps its books: [_usedPorts] holds no
    port twice and has as many entries as there are gateways in [_gateways];
    each registered gateway has its port in [_usedPorts]; each port in
    [_usedPorts] is the port of a registered gateway; and no two registered
    gateways have the same port. *)
Theorem ports_invariant (options : UserOptions) (es : list event) :
  admissible_run (TunnelServer_new options) es →
  ports_ok (run (TunnelServer_new options) es).
Proof. intros Hadm. apply ports_ok_run; [apply ports_ok_new | done]. Qed.

Lemma ports_invariant_witness :
  admissible_run (TunnelServer_new no_options)
    [CreateGateway 0 0 "a"; GatewayOpened 0 "a" 4002;
     CreateGateway 1 0 "b"; GatewayOpened 1 "b" 4003; GatewayClosed 0] ∧
  ports_ok second_open.
Proof.
  split; [exact second_open_admissible|].
  exact (ports_invariant no_options _ second_open_admissible).
Defined.

Lemma getAvailablePort_same (s s' : TunnelServer) (r : Q) :
  _options s' = _options s → _usedPorts s' = _usedPorts s →
  _getAvailablePort s' r = _getAvailablePort s r.
Proof. intros Ho Hu. unfold _getAvailablePort. by rewrite Ho, Hu. Qed.

(** X11. The port a new gateway is given.  On a server whose books are in
    order, the port that [_getAvailablePort] returns (for a range that
    starts at a port other than zero) lies in the range and is the port of
    no registered gateway.  But handing it out does not reserve it: until
    the gateway has reported open, another call of [createGateway] gets the
    same port for the same value of [Math.random()]. *)
Theorem leased_port_not_in_use (s : TunnelServer) (r : Q) (start e p : Z) :
  ports_ok s →
  min (gatewayPortRange (_options s)) = Some start → start ≠ 0 →
  max (gatewayPortRange (_options s)) = Some e →
  _getAvailablePort s r = Some p →
  (start <= p <= e) ∧
  (∀ token, port_of s token ≠ Some p) ∧
  (∀ cb r' tok, _getAvailablePort (createGateway s cb r' tok) r = Some p).
Proof.
  intros (_ & _ & Hreg & _ & _) Hmin Hne Hmax Hp.
  pose proof (getAvailablePort_range s r start e Hmin Hne Hmax) as Hrange.
  cbv zeta in Hrange. rewrite Hp in Hrange. symmetry in Hrange.
  assert (p ∈ free_ports start e (_usedPorts s)) as Hfree.
  { apply list_elem_of_lookup. eauto. }
  apply elem_of_free_ports in Hfree as [Hin Hout].
  split_and!; [lia|lia| |].
  - intros token Htok. apply port_of_Some in Htok as (gid & g & Hg & Hc & Hq).
    destruct (Hreg token gid Hg) as (g' & q & Hc' & _ & Hq' & Hused).
    assert (q = p) as -> by congruence. done.
  - intros cb r' tok. rewrite <- Hp. apply getAvailablePort_same;
      unfold createGateway; by destruct (gateway_count s >=? _).
Qed.

Lemma leased_port_not_in_use_witness :
  ports_ok second_open ∧
  min (gatewayPortRange (_options second_open)) = Some 4002 ∧ 4002 ≠ 0 ∧
  max (gatewayPortRange (_options second_open)) = Some 4004 ∧
  _getAvailablePort second_open 0 = Some 4002 ∧
  port_of second_open "b" ≠ Some 4002 ∧
  _getAvailablePort (createGateway second_open 2 0 "c") 0 = Some 4002.
Proof.
  pose proof second_open_ok as Hok.
  pose proof (leased_port_not_in_use second_open 0 4002 4004 4002 Hok
                eq_refl ltac:(done) eq_refl eq_refl) as (_ & H2 & H3).
  split_and!; [exact Hok | reflexivity | done | reflexivity | reflexivity
              | exact (H2 "b") | exact (H3 2%nat 0%Q "c")].
Defined.

End ServerExtra.

(** ** Properties of the server's sessions *)

Module SessionProps.
Import JS JSFacts Session.

(** *** A socket whose gateway is gone *)

Lemma on_peer_unwired (pid : nat) (st : State)
    (handler : Peer → Wiring → State → State) (p : Peer) :
  peers st !! pid = Some p → p_wired p = None → on_peer pid st handler = st.
Proof. intros Hp Hw. unfold on_peer. by rewrite Hp, Hw. Qed.

Lemma step_unwired (st : State) (e : event) (pid : nat) (p : Peer) :
  peers st !! pid = Some p → p_wired p = None → peer_of e = Some pid →
  step st e = st.
Proof.
  intros Hp Hw He. destruct e; simpl in He; simplify_eq; simpl;
    by apply (on_peer_unwired _ _ _ p).
Qed.

Lemma run_unwired (st : State) (es : list event) (pid : nat) (p : Peer) :
  peers st !! pid = Some p → p_wired p = None →
  Forall (λ e, peer_of e = Some pid) es → run st es = st.
Proof.
  intros Hp Hw Hes. induction Hes as [|e es He _ IH]; [done|].
  change (run st (e :: es)) with (run (step st e) es).
  by rewrite (step_unwired st e pid p Hp Hw He).
Qed.

(** X7. A socket whose gateway is gone.  When an upgrade request presents an
    authorized token under which no gateway is registered (its gateway has
    closed), the request is accepted and [_handleClient] closes the new
    socket at once with [GATEWAY_CLOSED]; no handler is installed, so
    whatever the socket does afterwards the server makes no call on any
    gateway and sends nothing, and the token has been used up. *)
Theorem gateway_gone (st : State) (t : string) :
  Server.token_authorized (server st) (Server.QsString t) →
  Server._gateways (server st) !! t = None →
  let st' := step st (Handshake (Server.QsString t)) in
  peers st' = peers st ++
    [{| p_token := Server.QsString t; p_readyState := Client.WS_CLOSING;
        p_sent := []; p_closed_with := [(GATEWAY_CLOSED, "Gateway no longer open")];
        p_wired := None |}] ∧
  calls st' = calls st ∧
  Server.admissions (server st') t = pred (Server.admissions (server st) t) ∧
  (∀ es, Forall (λ e, peer_of e = Some (length (peers st))) es → run st' es = st').
Proof.
  intros Hauth Hgone st'.
  destruct (ServerProps.token_authorized_cases (server st) (Server.QsString t))
    as [Hnot|(t0 & l1 & l2 & [= <-] & Hl & Hnot)]; [done|].
  assert (st' =
          {| server := {| Server._options := Server._options (server st);
                          Server._gateways := Server._gateways (server st);
                          Server._authorized := l1 ++ l2;
                          Server._usedPorts := Server._usedPorts (server st);
                          Server.created := Server.created (server st);
                          Server.trace := Server.trace (server st) |};
             peers := peers st ++
               [{| p_token := Server.QsString t; p_readyState := Client.WS_CLOSING;
                   p_sent := [];
                   p_closed_with := [(GATEWAY_CLOSED, "Gateway no longer open")];
                   p_wired := None |}];
             calls := calls st |}) as ->.
  { subst st'. simpl.
    rewrite (ServerProps.verifyClient_accept (server st) t l1 l2 Hl Hnot).
    unfold _handleClient. simpl. by rewrite Hgone. }
  simpl. split_and!; [done|done| |].
  - unfold Server.admissions. simpl. rewrite Hl, !filter_app, !length_app.
    rewrite filter_cons_True by done. simpl. lia.
  - intros es Hes.
    apply (run_unwired _ es (length (peers st))
             {| p_token := Server.QsString t; p_readyState := Client.WS_CLOSING;
                p_sent := [];
                p_closed_with := [(GATEWAY_CLOSED, "Gateway no longer open")];
                p_wired := None |}); [|done|done].
    simpl. by rewrite lookup_app_r, Nat.sub_diag.
Qed.

Lemma gateway_gone_witness :
  Server.token_authorized (server gateway_closed) (Server.QsString "a") ∧
  Server._gateways (server gateway_closed) !! "a" = None ∧
  calls (step gateway_closed (Handshake (Server.QsString "a"))) = [] ∧
  (p_closed_with <$> peers (step gateway_closed (Handshake (Server.QsString "a"))))
    = [[(GATEWAY_CLOSED, "Gateway no longer open")]].
Proof.
  assert (Server.token_authorized (server gateway_closed) (Server.QsString "a")) as Ha.
  { simpl. change (Server._authorized (server gateway_closed)) with ["a"].
    by apply list_elem_of_singleton. }
  split_and!; [exact Ha | reflexivity | |].
  - exact (proj1 (proj2 (gateway_gone gateway_closed "a" Ha eq_refl))).
  - rewrite (proj1 (gateway_gone gateway_closed "a" Ha eq_refl)). reflexivity.
Defined.

(** *** After [cleanup] *)

Lemma forwards_app (l : list (nat * gateway_call)) (gid : nat) :
  List.filter forwards (l ++ [(gid, Close)]) = List.filter forwards l.
Proof. rewrite List.filter_app. simpl. apply app_nil_r. Qed.

Lemma cleaned_step (st : State) (pid : nat) (p : Peer) (e : event) :
  peers st !! pid = Some p → cleaned p → peer_of e = Some pid →
  server (step st e) = server st ∧
  List.filter forwards (calls (step st e)) = List.filter forwards (calls st) ∧
  length (peers (step st e)) = length (peers st) ∧
  ∃ p', peers (step st e) !! pid = Some p' ∧ cleaned p' ∧
        p_sent p' = p_sent p ∧ p_closed_with p' = p_closed_with p.
Proof.
  intros Hp (w & Hw & Hm & Hd) He.
  assert (pid < length (peers st))%nat as Hlt by (by eapply lookup_lt_Some).
  destruct e; simpl in He; simplify_eq; simpl; unfold on_peer; rewrite Hp, Hw;
    rewrite ?Hm, ?Hd.
  - unfold on_message, set_peer. simpl. rewrite length_insert.
    split_and!; [done|done|done|].
    eexists. rewrite list_lookup_insert_eq by done. split; [done|].
    split; [|done]. eexists. by split.
  - unfold cleanup, set_peer, add_call. simpl. rewrite length_insert, forwards_app.
    split_and!; [done|done|done|].
    eexists. rewrite list_lookup_insert_eq by done. split; [done|].
    split; [|done]. eexists. by split.
  - unfold cleanup, set_peer, add_call. simpl. rewrite length_insert, forwards_app.
    split_and!; [done|done|done|].
    eexists. rewrite list_lookup_insert_eq by done. split; [done|].
    split; [|done]. eexists. by split.
  - split_and!; [done|done|done|]. exists p. split_and!; try done. by exists w.
  - split_and!; [done|done|done|]. exists p. split_and!; try done. by exists w.
  - split_and!; [done|done|done|]. exists p. split_and!; try done. by exists w.
  - split_and!; [done|done|done|]. exists p. split_and!; try done. by exists w.
Qed.

(** Once [cleanup] has run for a socket, nothing that socket, its demuxer
    or its muxer does makes the server call [respond] or [transfer] on a
    gateway, send on the socket or close it. *)
Lemma silent_after_cleanup (st : State) (pid : nat) (p : Peer) (es : list event) :
  peers st !! pid = Some p → cleaned p →
  Forall (λ e, peer_of e = Some pid) es →
  let st' := run st es in
  server st' = server st ∧
  List.filter forwards (calls st') = List.filter forwards (calls st) ∧
  ∃ p', peers st' !! pid = Some p' ∧ cleaned p' ∧
        p_sent p' = p_sent p ∧ p_closed_with p' = p_closed_with p.
Proof.
  intros Hp Hc Hes. revert st p Hp Hc.
  induction Hes as [|e es He _ IH]; intros st p Hp Hc.
  - simpl. split_and!; [done|done|]. by exists p.
  - change (run st (e :: es)) with (run (step st e) es).
    destruct (cleaned_step st pid p e Hp Hc He)
      as (Hsrv & Hcalls & _ & p1 & Hp1 & Hc1 & Hs1 & Hw1).
    destruct (IH (step st e) p1 Hp1 Hc1) as (Hsrv' & Hcalls' & p2 & Hp2 & Hc2 & Hs2 & Hw2).
    cbv zeta. rewrite Hsrv', Hcalls', Hsrv, Hcalls. split_and!; [done|done|].
    exists p2. split_and!; [done|done|congruence|congruence].
Qed.

(** X8. The end of a session.  When a wired socket reports [close] or
    [error], or its gateway has output for it while the socket is not open,
    [cleanup] runs: the server calls [close] on the gateway of that socket.
    From then on nothing the socket, its demuxer or its muxer does makes the
    server call [respond] or [transfer] on a gateway, send on the socket or
    close it: frames that still arrive are dropped, and the only calls made
    are further calls of [gateway.close()]. *)
Theorem session_teardown (st : State) (pid : nat) (p : Peer) (w : Wiring)
    (e : event) (es : list event) :
  peers st !! pid = Some p → p_wired p = Some w →
  (e = PeerClose pid ∨ e = PeerError pid ∨
   ∃ data, e = MuxerData pid data ∧ w_muxer_listeners w = true ∧
           p_readyState p ≠ Client.WS_OPEN) →
  Forall (λ e, peer_of e = Some pid) es →
  let st1 := step st e in
  let st' := run st1 es in
  calls st1 = calls st ++ [(w_gateway w, Close)] ∧
  server st' = server st ∧
  List.filter forwards (calls st') = List.filter forwards (calls st) ∧
  ∃ p', peers st' !! pid = Some p' ∧ cleaned p' ∧
        p_sent p' = p_sent p ∧ p_closed_with p' = p_closed_with p.
Proof.
  intros Hp Hw He Hes st1 st'.
  assert (pid < length (peers st))%nat as Hlt by (by eapply lookup_lt_Some).
  assert (calls st1 = calls st ++ [(w_gateway w, Close)] ∧ server st1 = server st ∧
          ∃ p1, peers st1 !! pid = Some p1 ∧ cleaned p1 ∧
                p_sent p1 = p_sent p ∧ p_closed_with p1 = p_closed_with p)
    as (Hcalls & Hsrv & p1 & Hp1 & Hc1 & Hs1 & Hw1).
  { subst st1. destruct He as [->|[->|(data & -> & Hm & Hst)]]; simpl;
      unfold on_peer; rewrite Hp, Hw.
    - unfold cleanup, set_peer, add_call. simpl.
      rewrite list_lookup_insert_eq by done. split_and!; [done|done|].
      eexists. split; [done|]. split; [|done]. eexists. by split.
    - unfold cleanup, set_peer, add_call. simpl.
      rewrite list_lookup_insert_eq by done. split_and!; [done|done|].
      eexists. split; [done|]. split; [|done]. eexists. by split.
    - rewrite Hm. unfold on_muxer_data.
      assert (negb (Client.WS_OPEN =? p_readyState p) = true) as ->.
      { apply negb_true_iff, Z.eqb_neq. congruence. }
      unfold cleanup, set_peer, add_call. simpl.
      rewrite list_lookup_insert_eq by done. split_and!; [done|done|].
      eexists. split; [done|]. split; [|done]. eexists. by split. }
  destruct (silent_after_cleanup st1 pid p1 es Hp1 Hc1 Hes)
    as (Hsrv' & Hcalls' & p2 & Hp2 & Hc2 & Hs2 & Hw2).
  subst st'. split_and!; [done|congruence| |].
  - rewrite Hcalls', Hcalls. apply forwards_app.
  - exists p2. split_and!; [done|done|congruence|congruence].
Qed.

Lemma session_teardown_witness :
  peers in_session !! 0%nat =
    Some {| p_token := Server.QsString "a"; p_readyState := Client.WS_OPEN;
            p_sent := []; p_closed_with := [];
            p_wired := Some {| w_gateway := 0; w_muxer_listeners := true;
                               w_demuxer_listeners := true; w_demuxed := [] |} |} ∧
  Forall (λ e, peer_of e = Some 0%nat)
    [DemuxerData 0 (Client.Rpc "late"); PeerMessage 0 "bytes"; MuxerData 0 "out"] ∧
  calls (step in_session (PeerClose 0)) = [(0%nat, Close)] ∧
  List.filter forwards
    (calls (run (step in_session (PeerClose 0))
              [DemuxerData 0 (Client.Rpc "late"); PeerMessage 0 "bytes";
               MuxerData 0 "out"])) = [].
Proof.
  assert (Forall (λ e, peer_of e = Some 0%nat)
            [DemuxerData 0 (Client.Rpc "late"); PeerMessage 0 "bytes";
             MuxerData 0 "out"]) as Hes by (repeat constructor).
  pose proof (session_teardown in_session 0 _ _ (PeerClose 0) _ eq_refl eq_refl
                (or_introl eq_refl) Hes) as (H1 & _ & H2 & _).
  split_and!; [reflexivity | exact Hes | exact H1 | exact H2].
Defined.

(** X9. Closing a session frees its slot.  Let the server's books be in
    order and a socket be wired to a registered gateway.  When the socket
    reports [close], the server calls [close] on that gateway; when the
    gateway then reports [close], it is no longer registered, the number of
    gateways has gone down by one, its port is no longer in [_usedPorts],
    [unlocked] has been emitted, and if the server was not above the cap a
    tunnel is available again. *)
Theorem session_close_frees_slot (st : State) (pid : nat) (p : Peer) (w : Wiring)
    (g : Server.GatewayCtx) (port : Z) :
  Server.ports_ok (server st) →
  peers st !! pid = Some p → p_wired p = Some w →
  Server.created (server st) !! w_gateway w = Some g →
  Server._gateways (server st) !! Server.authID g = Some (w_gateway w) →
  Server.usedPort g = Some port →
  let st1 := step st (PeerClose pid) in
  let st2 := step st1 (ServerEvent (Server.GatewayClosed (w_gateway w))) in
  calls st2 = calls st ++ [(w_gateway w, Close)] ∧
  Server._gateways (server st2) !! Server.authID g = None ∧
  Server.gateway_count (server st2) = Server.gateway_count (server st) - 1 ∧
  (port ∉ Server._usedPorts (server st2)) ∧
  Server.emitted "unlocked" (server st2) = S (Server.emitted "unlocked" (server st)) ∧
  (Server.gateway_count (server st) <= Server.maxTunnels (Server._options (server st)) →
   Server.hasTunnelAvailable (server st2) = true).
Proof.
  intros Hok Hp Hw Hg Hreg Hport st1 st2.
  assert (pid < length (peers st))%nat as Hlt by (by eapply lookup_lt_Some).
  assert (server st1 = server st ∧ calls st1 = calls st ++ [(w_gateway w, Close)])
    as [Hsrv Hcalls].
  { subst st1. simpl. unfold on_peer. by rewrite Hp, Hw. }
  assert (Server.admissible (server st) (Server.GatewayClosed (w_gateway w))) as Hadm.
  { simpl. by exists g. }
  pose proof (ServerExtra.ports_ok_close _ _ Hok Hadm) as Hok2.
  assert (server st2 = Server.on_gateway_close (server st) (w_gateway w)) as Hsrv2.
  { subst st2. simpl. by rewrite Hsrv. }
  assert (calls st2 = calls st1) as Hcalls2 by done.
  rewrite Hsrv2, Hcalls2, Hcalls.
  assert (Server._gateways (Server.on_gateway_close (server st) (w_gateway w))
          = delete (Server.authID g) (Server._gateways (server st))) as Hgw.
  { unfold Server.on_gateway_close. by rewrite Hg. }
  assert (Server.gateway_count (Server.on_gateway_close (server st) (w_gateway w))
          = Server.gateway_count (server st) - 1) as Hcount.
  { unfold Server.gateway_count. rewrite Hgw.
    rewrite map_size_delete_Some by (rewrite Hreg; eauto).
    assert (size (Server._gateways (server st)) ≠ 0%nat); [|lia].
    intros Hz. apply map_size_empty_inv in Hz. rewrite Hz in Hreg.
    by rewrite lookup_empty in Hreg. }
  split_and!.
  - done.
  - rewrite Hgw. apply lookup_delete_eq.
  - done.
  - intros Hin. destruct Hok2 as (_ & _ & _ & Hused2 & _).
    destruct (Hused2 port Hin) as [t Ht].
    apply ServerExtra.port_of_Some in Ht as (gid1 & g1 & Ht & Hc & Hq).
    rewrite Hgw in Ht. apply lookup_delete_Some in Ht as [Hne Ht].
    assert (Server.created (Server.on_gateway_close (server st) (w_gateway w))
            = Server.created (server st)) as Hcr.
    { unfold Server.on_gateway_close. by rewrite Hg. }
    rewrite Hcr in Hc. destruct Hok as (_ & _ & _ & _ & Hinj).
    apply Hne. apply (Hinj _ _ port); apply ServerExtra.port_of_Some; eauto.
  - unfold Server.on_gateway_close. rewrite Hg. unfold Server.emitted. simpl.
    rewrite List.filter_app, length_app. simpl. lia.
  - intros Hcap. unfold Server.hasTunnelAvailable. rewrite Hcount.
    assert (Server._options (Server.on_gateway_close (server st) (w_gateway w))
            = Server._options (server st)) as ->.
    { unfold Server.on_gateway_close. by rewrite Hg. }
    apply Z.ltb_lt. lia.
Qed.

(** *** One socket for each gateway *)

Lemma wired_same (st st' : State) :
  peers st' = peers st → ∀ pid gid, wired st' pid gid ↔ wired st pid gid.
Proof. intros Hp pid gid. unfold wired. by rewrite Hp. Qed.

Lemma wired_set_peer (st : State) (pid0 : nat) (p p' : Peer) :
  peers st !! pid0 = Some p →
  w_gateway <$> p_wired p' = w_gateway <$> p_wired p →
  ∀ pid gid, wired (set_peer pid0 p' st) pid gid ↔ wired st pid gid.
Proof.
  intros Hp Hw pid gid. unfold wired, set_peer. simpl.
  assert (pid0 < length (peers st))%nat as Hlt by (by eapply lookup_lt_Some).
  destruct (decide (pid = pid0)) as [->|Hne].
  - rewrite list_lookup_insert_eq by done. rewrite Hp. split.
    + intros (q & w & [= <-] & Hq & Hgid). rewrite Hq in Hw. simpl in Hw.
      destruct (p_wired p) as [w0|] eqn:Hw0; simplify_eq/=. exists p, w0. by rewrite Hw.
    + intros (q & w & [= <-] & Hq & Hgid). rewrite Hq in Hw. simpl in Hw.
      destruct (p_wired p') as [w0|] eqn:Hw0; simplify_eq/=. exists p', w0. by rewrite Hw.
  - by rewrite list_lookup_insert_ne.
Qed.

Lemma wired_new_peer (st : State) (srv : Server.TunnelServer) (q : Peer) :
  ∀ pid gid,
    wired {| server := srv; peers := peers st ++ [q]; calls := calls st |} pid gid ↔
    wired st pid gid ∨
    (pid = length (peers st) ∧ ∃ w, p_wired q = Some w ∧ w_gateway w = gid).
Proof.
  intros pid gid. unfold wired. simpl. split.
  - intros (p & w & Hp & Hw & Hgid).
    apply lookup_app_Some in Hp as [Hp|[Hge Hp]]; [left; eauto|].
    right. destruct (pid - length (peers st))%nat eqn:Hd; simplify_eq/=.
    split; [lia|eauto].
  - intros [(p & w & Hp & Hw & Hgid)|[-> (w & Hw & Hgid)]].
    + exists p, w. split; [by apply lookup_app_l_Some | done].
    + exists q, w. split; [|done]. by rewrite lookup_app_r, Nat.sub_diag.
Qed.

(** The events of a socket leave the server and the wiring as they are. *)
Lemma step_peer (st : State) (e : event) (pid0 : nat) :
  peer_of e = Some pid0 →
  server (step st e) = server st ∧
  ∀ pid gid, wired (step st e) pid gid ↔ wired st pid gid.
Proof.
  intros He.
  destruct e; simpl in He; simplify_eq; simpl; unfold on_peer;
    (destruct (peers st !! pid0) as [p|] eqn:Hp; [|done]);
    (destruct (p_wired p) as [w|] eqn:Hw; [|done]).
  - split; [done|]. apply (wired_set_peer st pid0 p); [done|]. by rewrite Hw.
  - split; [done|]. unfold cleanup. intros pid gid.
    rewrite (wired_set_peer (add_call (w_gateway w) Close st) pid0 p);
      [by apply wired_same | done | by rewrite Hw].
  - split; [done|]. unfold cleanup. intros pid gid.
    rewrite (wired_set_peer (add_call (w_gateway w) Close st) pid0 p);
      [by apply wired_same | done | by rewrite Hw].
  - destruct (w_demuxer_listeners w); [|done].
    destruct object as [data|data binary quid|type]; simpl;
      [split; [done|by apply wired_same] ..|].
    split; [done|]. by apply (wired_set_peer st pid0 p).
  - destruct (w_demuxer_listeners w); [|done].
    split; [done|]. by apply (wired_set_peer st pid0 p).
  - destruct (w_muxer_listeners w); [|done]. unfold on_muxer_data.
    destruct (negb _).
    + split; [done|]. unfold cleanup. intros pid gid.
      rewrite (wired_set_peer (add_call (w_gateway w) Close st) pid0 p);
        [by apply wired_same | done | by rewrite Hw].
    + split; [done|]. by apply (wired_set_peer st pid0 p).
  - destruct (w_muxer_listeners w); [|done].
    split; [done|]. by apply (wired_set_peer st pid0 p).
Qed.

Lemma exclusive_same (st st' : State) :
  server st' = server st →
  (∀ pid gid, wired st' pid gid ↔ wired st pid gid) →
  exclusive st → exclusive st'.
Proof.
  intros Hsrv Hw (Hok & Hnd & H2 & H3 & H4 & H5). unfold exclusive.
  rewrite Hsrv. split_and!; [done|done| | | |].
  - intros t gid pid Ht Hin Hwd. apply Hw in Hwd. by eapply H2.
  - intros gid g pid Hg Hp Hwd. apply Hw in Hwd. by eapply H3.
  - intros pid gid Hwd. apply Hw in Hwd. by eapply H4.
  - intros pid1 pid2 gid Hw1 Hw2. apply Hw in Hw1, Hw2. by eapply H5.
Qed.

Lemma exclusive_new (options : Server.UserOptions) : exclusive (State_new options).
Proof.
  assert (∀ pid gid, ¬ wired (State_new options) pid gid) as Hnone.
  { intros pid gid (p & w & Hp & _). simpl in Hp. by rewrite lookup_nil in Hp. }
  unfold exclusive. split_and!.
  - apply ServerExtra.ports_ok_new.
  - apply NoDup_nil_2.
  - intros t gid pid _ _. apply Hnone.
  - intros gid g pid _ _. apply Hnone.
  - intros pid gid Hw. by destruct (Hnone pid gid).
  - intros pid1 pid2 gid Hw. by destruct (Hnone pid1 gid).
Qed.

Lemma exclusive_server_event (st : State) (e : Server.event) :
  exclusive st → admissible st (ServerEvent e) → exclusive (step st (ServerEvent e)).
Proof.
  intros (Hok & Hnd & H2 & H3 & H4 & H5) Hadm.
  assert (Server.admissible (server st) e) as Hadm'.
  { destruct e; try exact Hadm. exact (proj1 Hadm). }
  assert (∀ pid gid,
            wired (step st (ServerEvent e)) pid gid ↔ wired st pid gid) as Hw
      by (by apply wired_same).
  unfold exclusive. cbn [step server]. split_and!.
  - by apply ServerExtra.ports_ok_step.
  - apply ServerProps.step_NoDup; [done|]. intros gid token port ->. apply Hadm.
  - intros t gid pid Ht Hin Hwd. apply Hw in Hwd.
    destruct e as [cb r tok|gid0 token port|gid0|gid0 err|token]; cbn [Server.step] in *.
    + unfold Server.createGateway in Ht, Hin.
      destruct (Server.gateway_count (server st) >=? _); simpl in *; by eapply H2.
    + destruct Hadm as (((g & Hg & Hnone) & Hfresh & Hport) & Hnew).
      unfold Server.on_gateway_open in Ht, Hin. rewrite Hg in Ht, Hin. simpl in *.
      apply lookup_insert_Some in Ht as [[<- <-]|[Hne Ht]].
      * by eapply H3.
      * apply elem_of_app in Hin as [Hin|Hin]; [by eapply H2|].
        apply list_elem_of_singleton in Hin. congruence.
    + unfold Server.on_gateway_close in Ht, Hin.
      destruct (Server.created (server st) !! gid0) as [g|]; simpl in *; [|by eapply H2].
      apply lookup_delete_Some in Ht as [_ Ht]. by eapply H2.
    + unfold Server.on_gateway_error in Ht, Hin.
      destruct (Server.created (server st) !! gid0); simpl in *; by eapply H2.
    + assert (Server._gateways (Server._verifyClient (server st) token).1
              = Server._gateways (server st)) as Hg.
      { unfold Server._verifyClient. by destruct (_ =? -1). }
      rewrite Hg in Ht.
      apply (ServerProps.authorized_step _ (Server.Upgrade token)) in Hin
        as [Hin|(? & ? & ?)]; [by eapply H2 | done].
  - intros gid g pid Hg Hp Hwd. apply Hw in Hwd.
    destruct e as [cb r tok|gid0 token port|gid0|gid0 err|token]; cbn [Server.step] in *.
    + unfold Server.createGateway in Hg.
      destruct (Server.gateway_count (server st) >=? _); simpl in *; [by eapply H3|].
      apply lookup_app_Some in Hg as [Hg|[Hge _]]; [by eapply H3|].
      apply H4 in Hwd. lia.
    + destruct Hadm as (((g0 & Hg0 & Hnone) & Hfresh & Hport) & Hnew).
      unfold Server.on_gateway_open in Hg. rewrite Hg0 in Hg. simpl in Hg.
      destruct (decide (gid = gid0)) as [->|Hne].
      * rewrite list_lookup_insert_eq in Hg by (by eapply lookup_lt_Some).
        by simplify_eq.
      * rewrite list_lookup_insert_ne in Hg by done. by eapply H3.
    + unfold Server.on_gateway_close in Hg.
      destruct (Server.created (server st) !! gid0); simpl in *; by eapply H3.
    + unfold Server.on_gateway_error in Hg.
      destruct (Server.created (server st) !! gid0); simpl in *; by eapply H3.
    + assert (Server.created (Server._verifyClient (server st) token).1
              = Server.created (server st)) as Hc.
      { unfold Server._verifyClient. by destruct (_ =? -1). }
      rewrite Hc in Hg. by eapply H3.
  - intros pid gid Hwd. apply Hw in Hwd. apply H4 in Hwd.
    assert (length (Server.created (server st)) ≤
            length (Server.created (Server.step (server st) e)))%nat; [|lia].
    destruct e as [cb r tok|gid0 token port|gid0|gid0 err|token]; cbn [Server.step].
    + unfold Server.createGateway.
      destruct (Server.gateway_count (server st) >=? _); simpl; [done|].
      rewrite length_app. lia.
    + unfold Server.on_gateway_open.
      destruct (Server.created (server st) !! gid0); simpl; [|done].
      by rewrite length_insert.
    + unfold Server.on_gateway_close.
      by destruct (Server.created (server st) !! gid0).
    + unfold Server.on_gateway_error.
      by destruct (Server.created (server st) !! gid0).
    + unfold Server._verifyClient. by destruct (_ =? -1).
  - intros pid1 pid2 gid Hw1 Hw2. apply Hw in Hw1, Hw2. by eapply H5.
Qed.

Lemma exclusive_handshake (st : State) (token : Server.qs_value) :
  exclusive st → exclusive (step st (Handshake token)).
Proof.
  intros Hex.
  destruct (ServerProps.token_authorized_cases (server st) token)
    as [Hnot|(t & l1 & l2 & -> & Hl & Hnot)].
  { cbn [step]. rewrite (ServerProps.verifyClient_reject _ _ Hnot).
    by apply (exclusive_same st). }
  cbn [step]. rewrite (ServerProps.verifyClient_accept (server st) t l1 l2 Hl Hnot).
  set (srv := {| Server._options := _; Server._gateways := _;
                 Server._authorized := l1 ++ l2; Server._usedPorts := _;
                 Server.created := _; Server.trace := _ |}).
  destruct Hex as (Hok & Hnd & H2 & H3 & H4 & H5).
  assert (t ∈ Server._authorized (server st)) as Hin.
  { rewrite Hl. apply elem_of_app. right. apply elem_of_cons. by left. }
  assert (t ∉ l1 ++ l2) as Hout.
  { rewrite Hl in Hnd. apply NoDup_app in Hnd as (_ & Hd & Hnd).
    apply NoDup_cons in Hnd as [Hnd _].
    rewrite elem_of_app. intros [Hx|Hx]; [|done].
    apply (Hd t Hx). apply elem_of_cons. by left. }
  assert (∀ x, x ∈ l1 ++ l2 → x ∈ Server._authorized (server st)) as Hsub.
  { intros x. rewrite Hl, !elem_of_app, elem_of_cons. tauto. }
  assert (Server.ports_ok srv) as Hok'.
  { by apply (ServerExtra.ports_ok_same (server st)). }
  assert (NoDup (l1 ++ l2)) as Hnd'.
  { rewrite Hl in Hnd. apply NoDup_app in Hnd as (Ha & Hb & Hc).
    apply NoDup_cons in Hc as [_ Hc]. apply NoDup_app. split_and!; [done| |done].
    intros x Hx Hx'. apply (Hb x Hx). apply elem_of_cons. by right. }
  unfold _handleClient. cbn [server key_of].
  change (Server._gateways srv) with (Server._gateways (server st)).
  destruct (Server._gateways (server st) !! t) as [gid|] eqn:Hreg.
  - destruct Hok as (_ & _ & Hregs & _ & _).
    destruct (Hregs t gid Hreg) as (g & port & Hg & Ha & Hp & _).
    set (q := {| p_token := Server.QsString t; p_readyState := Client.WS_OPEN;
                 p_sent := []; p_closed_with := [];
                 p_wired := Some {| w_gateway := gid; w_muxer_listeners := true;
                                    w_demuxer_listeners := true; w_demuxed := [] |} |}).
    assert (∀ pid gid',
              wired {| server := srv; peers := peers st ++ [q]; calls := calls st |}
                    pid gid' ↔
              wired st pid gid' ∨ (pid = length (peers st) ∧ gid' = gid)) as Hw.
    { intros pid gid'. rewrite (wired_new_peer st srv q). subst q. simpl. split.
      - intros [?|[-> (w & [= <-] & <-)]]; [by left|by right].
      - intros [?|[-> ->]]; [by left|]. right. split; [done|]. eauto. }
    unfold exclusive. cbn [server]. split_and!; [done|done| | | |].
    + intros t1 gid1 pid Ht1 Hin1 Hwd. apply Hw in Hwd as [Hwd|[-> ->]].
      * eapply H2; [exact Ht1 | by apply Hsub | exact Hwd].
      * destruct (Hregs t1 gid Ht1) as (g1 & p1 & Hg1 & Ha1 & _).
        assert (t1 = t) as -> by congruence. done.
    + intros gid1 g1 pid Hg1 Hp1 Hwd. apply Hw in Hwd as [Hwd|[-> ->]].
      * by eapply H3.
      * simpl in Hg1. congruence.
    + intros pid gid1 Hwd. apply Hw in Hwd as [Hwd|[-> ->]]; [by eapply H4|].
      simpl. by eapply lookup_lt_Some.
    + intros pid1 pid2 gid1 Hw1 Hw2.
      apply Hw in Hw1 as [Hw1|[-> ->]], Hw2 as [Hw2|[-> Hgid]].
      * by eapply H5.
      * subst gid1. by destruct (H2 t gid pid1 Hreg Hin).
      * by destruct (H2 t gid pid2 Hreg Hin).
      * done.
  - set (q := peer_close _ _ _).
    assert (∀ pid gid',
              wired {| server := srv; peers := peers st ++ [q]; calls := calls st |}
                    pid gid' ↔ wired st pid gid') as Hw.
    { intros pid gid'. rewrite (wired_new_peer st srv q). subst q. simpl. split.
      - intros [?|[_ (w & ? & _)]]; done.
      - by left. }
    unfold exclusive. cbn [server]. split_and!; [done|done| | | |].
    + intros t1 gid1 pid Ht1 Hin1 Hwd. apply Hw in Hwd.
      eapply H2; [exact Ht1 | by apply Hsub | exact Hwd].
    + intros gid1 g1 pid Hg1 Hp1 Hwd. apply Hw in Hwd. by eapply H3.
    + intros pid gid1 Hwd. apply Hw in Hwd. by eapply H4.
    + intros pid1 pid2 gid1 Hw1 Hw2. apply Hw in Hw1, Hw2. by eapply H5.
Qed.

Lemma exclusive_step (st : State) (e : event) :
  exclusive st → admissible st e → exclusive (step st e).
Proof.
  intros Hex Hadm.
  destruct (peer_of e) as [pid0|] eqn:He.
  - destruct (step_peer st e pid0 He) as [Hsrv Hw]. by apply (exclusive_same st).
  - destruct e; try discriminate.
    + by apply exclusive_server_event.
    + by apply exclusive_handshake.
Qed.

Lemma exclusive_run (st : State) (es : list event) :
  exclusive st → admissible_run st es → exclusive (run st es).
Proof.
  revert st. induction es as [|e es IH]; intros st Hex Hadm; [done|].
  destruct Hadm as [He Hes]. change (run st (e :: es)) with (run (step st e) es).
  apply IH; [by apply exclusive_step | done].
Qed.

(** X10. One socket for each gateway.  As long as each gateway reports open
    at most once, on a port that no open gateway has and with a token that
    is neither registered nor authorized already, and only open gateways
    report close: no two sockets are ever wired to the same gateway, a
    gateway whose token is still in the list of authorized tokens has no
    socket, and every socket is wired to a gateway the server constructed. *)
Theorem one_socket_per_gateway (options : Server.UserOptions) (es : list event) :
  admissible_run (State_new options) es →
  let st := run (State_new options) es in
  (∀ pid1 pid2 gid, wired st pid1 gid → wired st pid2 gid → pid1 = pid2) ∧
  (∀ t gid pid, Server._gateways (server st) !! t = Some gid →
                t ∈ Server._authorized (server st) → ¬ wired st pid gid) ∧
  (∀ pid gid, wired st pid gid → is_Some (Server.created (server st) !! gid)).
Proof.
  intros Hadm st.
  destruct (exclusive_run (State_new options) es (exclusive_new options) Hadm)
    as (_ & _ & H2 & _ & H4 & H5).
  split_and!; [exact H5 | exact H2 |].
  intros pid gid Hw. apply lookup_lt_is_Some. by eapply H4.
Qed.

Lemma session_events_admissible :
  admissible_run (State_new Server.no_options) session_events.
Proof.
  unfold session_events. cbn [admissible_run admissible Server.admissible].
  split_and!; try exact I.
  - eexists. split; reflexivity.
  - reflexivity.
  - apply (bool_decide_unpack _). vm_compute. exact I.
  - apply (bool_decide_unpack _). vm_compute. exact I.
Qed.

Lemma one_socket_per_gateway_witness :
  admissible_run (State_new Server.no_options) session_events ∧
  wired in_session 0 0 ∧
  (∀ pid, wired in_session pid 0 → pid = 0%nat).
Proof.
  split; [exact session_events_admissible|].
  assert (wired in_session 0 0) as Hw.
  { eexists _, _. split; [reflexivity|]. split; reflexivity. }
  split; [exact Hw|]. intros pid Hpid.
  exact (proj1 (one_socket_per_gateway Server.no_options session_events
                  session_events_admissible) pid 0%nat 0%nat Hpid Hw).
Defined.

Lemma session_close_frees_slot_witness :
  Server.ports_ok (server in_session) ∧
  Server._gateways (server in_session) !! "a" = Some 0%nat ∧
  Server.gateway_count (server in_session) = 1 ∧
  Server.gateway_count
    (server (run in_session [PeerClose 0; ServerEvent (Server.GatewayClosed 0)])) = 0 ∧
  calls (run in_session [PeerClose 0; ServerEvent (Server.GatewayClosed 0)])
    = [(0%nat, Close)].
Proof.
  assert (Server.ports_ok (server in_session)) as Hok.
  { exact (proj1 (exclusive_run _ _ (exclusive_new Server.no_options)
                    session_events_admissible)). }
  pose proof (session_close_frees_slot in_session 0 _ _ _ 4002 Hok
                eq_refl eq_refl eq_refl eq_refl eq_refl) as (H1 & _ & H3 & _).
  split_and!; [exact Hok | reflexivity | reflexivity | exact H3 | exact H1].
Defined.

End SessionProps.

(** ** Properties of the client's data channels *)

Module ClientExtra.
Import JS JSFacts Client ClientProps.
Local Open Scope js_scope.

(** *** The entries of [_channels] *)

Lemma channels_live_view (c c' : TunnelClient) :
  view c' = view c → channels_live c → channels_live c'.
Proof.
  intros Heq Hl q sid. rewrite (view_shapes _ _ Heq), (view_channels _ _ Heq).
  apply Hl.
Qed.

Lemma channels_live_fresh (tunnel target : string) :
  channels_live (fresh tunnel target).
Proof. intros q sid Hq. simpl in Hq. by rewrite lookup_empty in Hq. Qed.

Lemma channels_live_open (c : TunnelClient) :
  channels_live c → channels_live (fst (open c)).
Proof.
  intros Hl q sid Hq. rewrite open_eq in Hq |- *. simpl in Hq |- *.
  destruct (Hl q sid Hq) as (sh & Hsh & Hlive). exists sh. split; [|done].
  rewrite fmap_app. by apply lookup_app_l_Some.
Qed.

Lemma live_for_role (q : string) (s : WebSocket) :
  live_for q (shape_of s) = true →
  ∃ d b, ws_role s = Loopback q d b ∧ ws_readyState s ≠ WS_CLOSED.
Proof.
  unfold live_for, shape_of. simpl. destruct (ws_role s) as [|q' d b]; [done|].
  intros Hlive. apply andb_true_iff in Hlive as [Hq Hst].
  apply bool_decide_eq_true_1 in Hq as ->.
  apply negb_true_iff, Z.eqb_neq in Hst. eauto.
Qed.

(** A socket closes, and with it the channel of its own quid goes. *)
Lemma channels_live_socket_closed (c c' : TunnelClient) (sid : nat) (s : WebSocket) :
  channels_live c → sockets c !! sid = Some s →
  shape_of <$> sockets c' = <[sid := (ws_role s, true)]> (shape_of <$> sockets c) →
  ((ws_role s = Tunnel ∧ _channels c' = _channels c) ∨
   ∃ q d b, ws_role s = Loopback q d b ∧ _channels c' = delete q (_channels c)) →
  channels_live c'.
Proof.
  intros Hl Hs Hshapes Hchan q' sid' Hq'.
  assert (_channels c !! q' = Some sid' ∧
          ∀ d b, ws_role s ≠ Loopback q' d b) as [Hq Hrole].
  { destruct Hchan as [[Hrole Heq]|(q & d & b & Hrole & Heq)]; rewrite Heq in Hq'.
    - split; [done|]. intros d b. by rewrite Hrole.
    - apply lookup_delete_Some in Hq' as [Hne Hq']. split; [done|].
      intros d' b'. rewrite Hrole. congruence. }
  destruct (Hl q' sid' Hq) as (sh & Hsh & Hlive). exists sh. split; [|done].
  rewrite Hshapes. rewrite list_lookup_insert_ne; [done|]. intros <-.
  rewrite list_lookup_fmap, Hs in Hsh. simplify_eq/=.
  apply live_for_role in Hlive as (d & b & Hr & _). by apply (Hrole d b).
Qed.

Lemma channels_live_socket_emits_close (c : TunnelClient) (sid : nat) (code : Z)
    (message : string) :
  channels_live c → channels_live (fst (socket_emits_close sid code message c)).
Proof.
  intros Hl.
  destruct (socket_emits_close_cases c sid code message)
    as [->|(s & Hs & Hst & [Hrole|(quid & d & b & Hrole)])]; [done| |].
  - rewrite (socket_emits_close_tunnel c sid s code message Hs Hrole Hst).
    set (c1 := set_sockets _ c).
    pose proof (keeps_on_tunnel_close c1) as Hk. apply obs_view in Hk.
    apply (channels_live_socket_closed c _ sid s Hl Hs).
    + rewrite (view_shapes _ _ Hk). subst c1. simpl. by rewrite list_fmap_insert.
    + left. split; [done|]. by rewrite (view_channels _ _ Hk).
  - rewrite (socket_emits_close_loopback c sid s quid d b code message Hs Hrole Hst).
    set (c2 := set_channels _ _). set (f := DataChannel _ _ _).
    destruct (muxer_write_view c2 f) as [Hk _].
    apply (channels_live_socket_closed c _ sid s Hl Hs).
    + rewrite (view_shapes _ _ Hk). subst c2. simpl. by rewrite list_fmap_insert.
    + right. exists quid, d, b. split; [done|]. by rewrite (view_channels _ _ Hk).
Qed.

Lemma channels_live_handleDataChannel (c : TunnelClient) (data : string)
    (binary : bool) (quid : string) :
  channels_live c → channels_live (fst (_handleDataChannel data binary quid c)).
Proof.
  intros Hl. destruct (_channels c !! quid) as [sock|] eqn:Hq.
  - eapply channels_live_view; [|exact Hl].
    apply obs_view, handleDataChannel_existing. rewrite Hq. eauto.
  - rewrite (handleDataChannel_new c data binary quid Hq).
    intros q' sid'. simpl. rewrite fmap_app. intros Hq'.
    apply lookup_insert_Some in Hq' as [[<- <-]|[Hne Hq']].
    + eexists. split.
      * rewrite lookup_app_r by (by rewrite length_fmap).
        rewrite length_fmap, Nat.sub_diag. reflexivity.
      * unfold live_for. simpl. by rewrite bool_decide_eq_true_2.
    + destruct (Hl q' sid' Hq') as (sh & Hsh & Hlive). exists sh.
      split; [by apply lookup_app_l_Some | done].
Qed.

Lemma channels_live_deliver (e : event) (c : TunnelClient) :
  channels_live c → channels_live (fst (deliver e c)).
Proof.
  intros Hl.
  destruct e as [| |sid|sid data binary|sid code message|sid err|object|err|buffer|err
                |err body]; simpl.
  - by apply channels_live_open.
  - eapply channels_live_view; [|exact Hl]. apply obs_view.
    apply keeps_bind; [apply keeps_close | intros; apply keeps_ret].
  - eapply channels_live_view; [|exact Hl]. apply obs_view, keeps_socket_emits_open.
  - eapply channels_live_view; [|exact Hl]. apply socket_emits_message_effect.
  - by apply channels_live_socket_emits_close.
  - eapply channels_live_view; [|exact Hl]. apply obs_view, keeps_socket_emits_error.
  - unfold when. destruct (demuxer_listening c) eqn:Hlis; [|done].
    destruct object as [data|data binary quid|type]; simpl.
    + eapply channels_live_view; [|exact Hl]. apply obs_view, keeps_handleRPC.
    + by apply channels_live_handleDataChannel.
    + eapply channels_live_view; [|exact Hl]. apply obs_view, keeps_emit.
  - eapply channels_live_view; [|exact Hl]. apply obs_view, keeps_when, keeps_emit.
  - eapply channels_live_view; [|exact Hl].
    apply obs_view, keeps_when, keeps_on_muxer_data.
  - eapply channels_live_view; [|exact Hl]. apply obs_view, keeps_when, keeps_emit.
  - destruct err as [err|]; simpl.
    + eapply channels_live_view; [|exact Hl]. apply obs_view, keeps_emit.
    + eapply channels_live_view; [|exact Hl]. apply muxer_write_view.
Qed.

Lemma channels_live_run (es : list event) (c : TunnelClient) :
  channels_live c → channels_live (fst (run es c)).
Proof.
  revert c. induction es as [|e es IH]; intros c Hl; [done|].
  rewrite run_cons. pose proof (channels_live_deliver e c Hl) as Hl1.
  destruct (snd (deliver e c)); [by apply IH | done].
Qed.

(** X12. The channels are the loopback sockets that have not closed.  In
    every state the client reaches from its construction, [_channels] maps a
    quid to a socket exactly if that socket is a loopback socket made for
    this quid which has not reported [close]; so there is at most one such
    socket for each quid. *)
Theorem channels_are_live_sockets (tunnel target : string) (es : list event)
    (q : string) (sid : nat) :
  let c := fst (run es (fresh tunnel target)) in
  _channels c !! q = Some sid ↔
  ∃ s d b, sockets c !! sid = Some s ∧ ws_role s = Loopback q d b ∧
           ws_readyState s ≠ WS_CLOSED.
Proof.
  intros c.
  assert (wf c) as [Hch _] by apply wf_run, wf_fresh.
  assert (channels_live c) as Hl by apply channels_live_run, channels_live_fresh.
  split.
  - intros Hq. destruct (Hl q sid Hq) as (sh & Hsh & Hlive).
    rewrite list_lookup_fmap in Hsh.
    destruct (sockets c !! sid) as [s|] eqn:Hs; [|done]. simplify_eq/=.
    apply live_for_role in Hlive as (d & b & Hrole & Hst). by exists s, d, b.
  - intros (s & d & b & Hs & Hrole & Hst).
    apply (Hch sid (shape_of s) q); [by rewrite list_lookup_fmap, Hs|].
    rewrite (live_for_shape_of _ _ _ _ _ Hrole Hst).
    by apply bool_decide_eq_true_2.
Qed.

(** *** What the handlers do to the sockets *)

Lemma socket_send_open (c : TunnelClient) (sid : nat) (s : WebSocket)
    (data : string) (binary : bool) :
  sockets c !! sid = Some s → ws_readyState s = WS_OPEN →
  socket_send sid data binary c =
    (set_sockets
       (<[sid := {| ws_url := ws_url s; ws_role := ws_role s;
                    ws_readyState := ws_readyState s;
                    ws_sent := ws_sent s ++ [(data, binary)];
                    ws_once_open := ws_once_open s;
                    ws_close_calls := ws_close_calls s |}]> (sockets c)) c, Ok tt).
Proof.
  intros Hs Hst. unfold socket_send, socket, put_socket, bind, gets, deref, modify.
  simpl. rewrite Hs. simpl. by rewrite Hst.
Qed.

Lemma socket_send_not_open (c : TunnelClient) (sid : nat) (s : WebSocket)
    (data : string) (binary : bool) :
  sockets c !! sid = Some s → ws_readyState s ≠ WS_OPEN →
  socket_send sid data binary c = (c, Throw (Error "not opened")).
Proof.
  intros Hs Hst. unfold socket_send, socket, put_socket, bind, gets, deref, modify.
  simpl. rewrite Hs. simpl. apply Z.eqb_neq in Hst. by rewrite Hst.
Qed.

Lemma socket_once_open_eq (c : TunnelClient) (sid : nat) (s : WebSocket)
    (data : string) (binary : bool) :
  sockets c !! sid = Some s →
  socket_once_open sid data binary c =
    (set_sockets
       (<[sid := {| ws_url := ws_url s; ws_role := ws_role s;
                    ws_readyState := ws_readyState s; ws_sent := ws_sent s;
                    ws_once_open := ws_once_open s ++ [(data, binary)];
                    ws_close_calls := ws_close_calls s |}]> (sockets c)) c, Ok tt).
Proof.
  intros Hs. unfold socket_once_open, socket, put_socket, bind, gets, deref, modify.
  simpl. by rewrite Hs.
Qed.

Lemma set_sockets_id (c : TunnelClient) (sid : nat) (s : WebSocket) :
  sockets c !! sid = Some s → set_sockets (<[sid := s]> (sockets c)) c = c.
Proof. intros Hs. rewrite list_insert_id by done. by destruct c. Qed.

(** The handlers that wait for [open] send their payloads in the order in
    which they were registered. *)
Lemma flush_once_open_open (pending : list (string * bool)) (c : TunnelClient)
    (sid : nat) (s : WebSocket) :
  sockets c !! sid = Some s → ws_readyState s = WS_OPEN →
  flush_once_open sid pending c =
    (set_sockets
       (<[sid := {| ws_url := ws_url s; ws_role := ws_role s;
                    ws_readyState := ws_readyState s;
                    ws_sent := ws_sent s ++ pending;
                    ws_once_open := ws_once_open s;
                    ws_close_calls := ws_close_calls s |}]> (sockets c)) c, Ok tt).
Proof.
  revert c s. induction pending as [|[data binary] pending IH]; intros c s Hs Hst.
  - simpl. unfold ret. rewrite app_nil_r.
    replace {| ws_url := ws_url s; ws_role := ws_role s;
               ws_readyState := ws_readyState s; ws_sent := ws_sent s;
               ws_once_open := ws_once_open s;
               ws_close_calls := ws_close_calls s |} with s by (by destruct s).
    by rewrite set_sockets_id.
  - cbn [flush_once_open]. unfold bind at 1.
    rewrite (socket_send_open c sid s data binary Hs Hst).
    set (s1 := {| ws_url := ws_url s; ws_role := ws_role s;
                  ws_readyState := ws_readyState s;
                  ws_sent := ws_sent s ++ [(data, binary)];
                  ws_once_open := ws_once_open s;
                  ws_close_calls := ws_close_calls s |}).
    assert (sid < length (sockets c))%nat as Hlt by (by eapply lookup_lt_Some).
    rewrite (IH _ s1); [| by apply list_lookup_insert_eq | done].
    subst s1. simpl. unfold set_sockets. simpl.
    by rewrite list_insert_insert_eq, <- app_assoc.
Qed.

Lemma socket_emits_open_ignored (c : TunnelClient) (sid : nat) :
  (∀ s, sockets c !! sid = Some s → ws_readyState s ≠ WS_CONNECTING) →
  socket_emits_open sid c = (c, Ok tt).
Proof.
  intros Hs. unfold socket_emits_open, bind, gets. simpl.
  destruct (sockets c !! sid) as [s|]; [|done].
  specialize (Hs s eq_refl). apply Z.eqb_neq in Hs. by rewrite Hs.
Qed.

(** The [open] event of a tunnel socket: the handler assigns to the
    [readyState] of the socket and the client emits [open]. *)
Lemma socket_emits_open_tunnel (c : TunnelClient) (sid : nat) (s : WebSocket) :
  sockets c !! sid = Some s → ws_readyState s = WS_CONNECTING → ws_role s = Tunnel →
  socket_emits_open sid c =
    (set_emitted (emitted c ++ [SigOpen])
       (set_sockets
          (<[sid := {| ws_url := ws_url s; ws_role := ws_role s;
                       ws_readyState := OPEN; ws_sent := ws_sent s;
                       ws_once_open := ws_once_open s;
                       ws_close_calls := ws_close_calls s |}]> (sockets c)) c), Ok tt).
Proof.
  intros Hs Hst Hrole.
  assert (sid < length (sockets c))%nat as Hlt by (by eapply lookup_lt_Some).
  unfold socket_emits_open, bind at 1, gets. simpl. rewrite Hs, Hst. simpl.
  unfold bind at 1. rewrite (socket_set_readyState_eq c sid s) by done.
  rewrite Hrole. unfold on_tunnel_open, bind at 1.
  erewrite socket_set_readyState_eq by (by apply list_lookup_insert_eq).
  unfold emit, modify, set_emitted, set_sockets. simpl.
  by rewrite list_insert_insert_eq.
Qed.

(** The [open] event of a loopback socket: the payload the socket was made
    for is sent first, then the payloads that were waiting, in order. *)
Lemma socket_emits_open_loopback (c : TunnelClient) (sid : nat) (s : WebSocket)
    (q data : string) (binary : bool) :
  sockets c !! sid = Some s → ws_readyState s = WS_CONNECTING →
  ws_role s = Loopback q data binary →
  socket_emits_open sid c =
    (set_sockets
       (<[sid := {| ws_url := ws_url s; ws_role := ws_role s;
                    ws_readyState := WS_OPEN;
                    ws_sent := ws_sent s ++ (data, binary) :: ws_once_open s;
                    ws_once_open := [];
                    ws_close_calls := ws_close_calls s |}]> (sockets c)) c, Ok tt).
Proof.
  intros Hs Hst Hrole.
  assert (sid < length (sockets c))%nat as Hlt by (by eapply lookup_lt_Some).
  unfold socket_emits_open, bind at 1, gets. simpl. rewrite Hs, Hst. simpl.
  unfold bind at 1. rewrite (socket_set_readyState_eq c sid s) by done.
  rewrite Hrole. unfold on_loopback_open, bind at 1.
  erewrite socket_send_open; [|by apply list_lookup_insert_eq|done].
  unfold bind at 1, clear_once_open, socket, put_socket, bind, gets, deref, modify.
  simpl. rewrite list_lookup_insert_eq by (by rewrite length_insert). simpl.
  erewrite flush_once_open_open;
    [|simpl; apply list_lookup_insert_eq; by rewrite !length_insert|done].
  unfold set_sockets. simpl. rewrite !list_insert_insert_eq.
  by rewrite <- app_assoc.
Qed.

Lemma socket_emits_open_cases (c : TunnelClient) (sid : nat) :
  socket_emits_open sid c = (c, Ok tt) ∨
  ∃ s, sockets c !! sid = Some s ∧ ws_readyState s = WS_CONNECTING ∧
       (ws_role s = Tunnel ∨ ∃ quid d b, ws_role s = Loopback quid d b).
Proof.
  destruct (sockets c !! sid) as [s|] eqn:Hs.
  - destruct (Z.eq_dec (ws_readyState s) WS_CONNECTING) as [Hst|Hst].
    + right. exists s. split_and!; [done|done|].
      destruct (ws_role s); [by left | right; eauto].
    + left. apply socket_emits_open_ignored. intros s' Hs'. congruence.
  - left. apply socket_emits_open_ignored. intros s' Hs'. congruence.
Qed.

(** A frame for a data channel that has a socket: the payload is sent if the
    socket is open, and waits for the [open] event of the socket if not. *)
Lemma sendToExistingSocket_eq (c : TunnelClient) (data : string) (binary : bool)
    (quid : string) (sid : nat) (s : WebSocket) :
  _channels c !! quid = Some sid → sockets c !! sid = Some s →
  _handleDataChannel data binary quid c =
    (set_sockets
       (<[sid := if ws_readyState s =? WS_OPEN
                 then {| ws_url := ws_url s; ws_role := ws_role s;
                         ws_readyState := ws_readyState s;
                         ws_sent := ws_sent s ++ [(data, binary)];
                         ws_once_open := ws_once_open s;
                         ws_close_calls := ws_close_calls s |}
                 else {| ws_url := ws_url s; ws_role := ws_role s;
                         ws_readyState := ws_readyState s; ws_sent := ws_sent s;
                         ws_once_open := ws_once_open s ++ [(data, binary)];
                         ws_close_calls := ws_close_calls s |}]> (sockets c)) c,
     Ok tt).
Proof.
  intros Hq Hs. unfold _handleDataChannel, bind at 1, gets. simpl. rewrite Hq.
  unfold _sendToExistingSocket, bind at 1, bind at 1, gets, deref. simpl.
  rewrite Hq. simpl. unfold bind at 1, socket, bind, gets, deref. simpl.
  rewrite Hs. simpl.
  destruct (Z.eqb_spec (ws_readyState s) WS_OPEN) as [Hst|Hst]; simpl.
  - by apply socket_send_open.
  - by apply socket_once_open_eq.
Qed.

Lemma sendToExistingSocket_missing (c : TunnelClient) (data : string) (binary : bool)
    (quid : string) (sid : nat) :
  _channels c !! quid = Some sid → sockets c !! sid = None →
  _handleDataChannel data binary quid c = (c, Throw (TypeError "socket")).
Proof.
  intros Hq Hs. unfold _handleDataChannel, bind at 1, gets. simpl. rewrite Hq.
  unfold _sendToExistingSocket, bind at 1, bind at 1, gets, deref. simpl.
  rewrite Hq. simpl. unfold bind at 1, socket, bind, gets, deref. simpl.
  by rewrite Hs.
Qed.

(** *** Which sockets an event changes *)

Lemma tunnel_only_same (c c' : TunnelClient) :
  sockets c' = sockets c → tunnel_only c c'.
Proof. intros Heq. unfold tunnel_only. rewrite Heq. split; [done|]. eauto. Qed.

Lemma tunnel_only_sockets (c c1 c2 : TunnelClient) :
  sockets c2 = sockets c1 → tunnel_only c c1 → tunnel_only c c2.
Proof. unfold tunnel_only. by intros ->. Qed.

Lemma tunnel_only_trans (c1 c2 c3 : TunnelClient) :
  tunnel_only c1 c2 → tunnel_only c2 c3 → tunnel_only c1 c3.
Proof.
  intros [Hlen1 H1] [Hlen2 H2]. split; [congruence|].
  intros sid s Hs. destruct (H1 sid s Hs) as (s1 & Hs1 & Hr1 & Hsame1).
  destruct (H2 sid s1 Hs1) as (s2 & Hs2 & Hr2 & Hsame2).
  exists s2. split_and!; [done|congruence|].
  intros Hrole. rewrite Hsame2 by congruence. by apply Hsame1.
Qed.

Lemma tunnel_only_insert (c c' : TunnelClient) (t : nat) (st st' : WebSocket) :
  sockets c !! t = Some st → ws_role st = Tunnel → ws_role st' = Tunnel →
  sockets c' = <[t := st']> (sockets c) → tunnel_only c c'.
Proof.
  intros Hst Hrole Hrole' Heq. split; [by rewrite Heq, length_insert|].
  intros sid s Hs. rewrite Heq. destruct (decide (sid = t)) as [->|Hne].
  - exists st'. rewrite list_lookup_insert_eq by (by eapply lookup_lt_Some).
    simplify_eq. split_and!; [done|congruence|done].
  - exists s. by rewrite list_lookup_insert_ne.
Qed.

Lemma sockets_bind_ret {A} (m : M A) (c : TunnelClient) :
  fst (bind m (λ _, ret tt) c) = fst (m c).
Proof. unfold bind, ret. by destruct (m c) as [c1 [a|e]]. Qed.

Lemma sockets_bind_emit {A} (m : M A) (sig : signal) (c : TunnelClient) :
  sockets (fst (bind m (λ _, emit sig) c)) = sockets (fst (m c)).
Proof. unfold bind, emit, modify. by destruct (m c) as [c1 [a|e]]. Qed.

Lemma sockets_muxer_write (f : frame) (c : TunnelClient) :
  sockets (fst (muxer_write f c)) = sockets c.
Proof.
  destruct (_muxer c) as [m|] eqn:Hm.
  - by rewrite (muxer_write_some c m f Hm).
  - by rewrite (muxer_write_none c f Hm).
Qed.

Lemma sockets_demuxer_write (data : string) (c : TunnelClient) :
  sockets (fst (demuxer_write data c)) = sockets c.
Proof.
  unfold demuxer_write, bind, gets, deref, modify. simpl.
  by destruct (_demuxer c).
Qed.

(** [close] touches no socket but the tunnel socket. *)
Lemma close_tunnel_only (c : TunnelClient) :
  tunnel_role c → tunnel_only c (fst (close c)).
Proof.
  intros Hrole. destruct (_tunnel c) as [t|] eqn:Ht.
  - destruct (Hrole t Ht) as (st & Hst & Hr).
    unfold close, bind at 1, gets. simpl. rewrite Ht.
    unfold bind at 1, muxer_removeAllListeners, bind at 1, bind at 1, gets, deref, modify.
    simpl. destruct (_muxer c) as [m|]; simpl; [|by apply tunnel_only_same].
    unfold bind at 1, demuxer_removeAllListeners, bind at 1, bind at 1, gets, deref,
      modify. simpl. destruct (_demuxer c) as [d|]; simpl; [|by apply tunnel_only_same].
    unfold bind at 1, socket, bind at 1, gets, deref. simpl. rewrite Hst. simpl.
    destruct (negb (indexOf [WS_CONNECTING; WS_OPEN] (ws_readyState st) =? -1)).
    + unfold bind at 1, socket_close, socket, put_socket, bind, gets, deref, modify.
      simpl. rewrite Hst. simpl.
      eapply (tunnel_only_insert c _ t st); [done|done| |reflexivity]. done.
    + by apply tunnel_only_same.
  - rewrite close_no_tunnel by done. by apply tunnel_only_same.
Qed.

(** What one event does to the sockets: it changes tunnel sockets only, or
    it makes a new socket, or it changes one loopback socket in one of the
    ways of [loopback_change]. *)
Lemma deliver_sockets (e : event) (c : TunnelClient) :
  tunnel_role c →
  let c' := fst (deliver e c) in
  tunnel_only c c' ∨
  (∃ s, sockets c' = sockets c ++ [s] ∧ ws_readyState s = WS_CONNECTING ∧
        ws_sent s = [] ∧ ws_close_calls s = 0%nat) ∨
  (∃ sid s s', sockets c !! sid = Some s ∧ ws_role s ≠ Tunnel ∧
               sockets c' = <[sid := s']> (sockets c) ∧
               loopback_change c e sid s s').
Proof.
  intros Hrole c'. subst c'.
  destruct e as [| |sid|sid data binary|sid code message|sid err|object|err|buffer|err
                |err body]; unfold deliver.
  - right. left. rewrite open_eq. simpl. eauto.
  - left. rewrite sockets_bind_ret. by apply close_tunnel_only.
  - destruct (socket_emits_open_cases c sid)
      as [->|(s & Hs & Hst & [Hr|(quid & d & b & Hr)])].
    + left. by apply tunnel_only_same.
    + left. rewrite (socket_emits_open_tunnel c sid s Hs Hst Hr). simpl.
      eapply (tunnel_only_insert c _ sid s); [done|done| |reflexivity]; done.
    + right. right.
      rewrite (socket_emits_open_loopback c sid s quid d b Hs Hst Hr). simpl.
      eexists sid, s, _. split_and!; [done|by rewrite Hr|reflexivity|].
      unfold loopback_change. simpl. split_and!; try done. eauto.
  - left. apply tunnel_only_same.
    unfold socket_emits_message, bind, gets. simpl.
    destruct (sockets c !! sid) as [s|]; [|done].
    destruct ((ws_readyState s =? WS_OPEN) || (ws_readyState s =? WS_CLOSING)); [|done].
    destruct (ws_role s); [apply sockets_demuxer_write | apply sockets_muxer_write].
  - destruct (socket_emits_close_cases c sid code message)
      as [->|(s & Hs & Hst & [Hr|(quid & d & b & Hr)])].
    + left. by apply tunnel_only_same.
    + left. rewrite (socket_emits_close_tunnel c sid s code message Hs Hr Hst).
      set (c1 := set_sockets _ c).
      assert (tunnel_only c c1) as H1.
      { eapply (tunnel_only_insert c c1 sid s); [done|done| |reflexivity]; done. }
      apply (tunnel_only_trans c c1); [done|].
      unfold on_tunnel_close. rewrite sockets_bind_ret. apply close_tunnel_only.
      intros t Ht. destruct (Hrole t Ht) as (st & Hst' & Hr').
      destruct H1 as [_ H1]. destruct (H1 t st Hst') as (st1 & ? & ? & _).
      exists st1. split; [done|congruence].
    + right. right.
      rewrite (socket_emits_close_loopback c sid s quid d b code message Hs Hr Hst).
      rewrite sockets_muxer_write. simpl.
      eexists sid, s, _. split_and!; [done|by rewrite Hr|reflexivity|].
      unfold loopback_change. simpl. by split_and!.
  - left. unfold socket_emits_error, bind at 1, gets. simpl.
    destruct (sockets c !! sid) as [s|]; [|by apply tunnel_only_same].
    destruct (ws_readyState s =? WS_CLOSED); [by apply tunnel_only_same|].
    destruct (ws_role s).
    + unfold on_tunnel_error.
      eapply tunnel_only_sockets; [apply sockets_bind_emit|].
      by apply close_tunnel_only.
    + by apply tunnel_only_same.
  - unfold when. destruct (demuxer_listening c) eqn:Hlis;
      [|left; by apply tunnel_only_same].
    destruct object as [data|data binary quid|type]; simpl;
      [left; by apply tunnel_only_same| |left; by apply tunnel_only_same].
    destruct (_channels c !! quid) as [sid|] eqn:Hq.
    + destruct (sockets c !! sid) as [s|] eqn:Hs.
      * rewrite (sendToExistingSocket_eq c data binary quid sid s Hq Hs). simpl.
        destruct (ws_role s) as [|q0 d0 b0] eqn:Hr.
        -- left. eapply (tunnel_only_insert c _ sid s); [done|done| |reflexivity].
           by destruct (ws_readyState s =? WS_OPEN).
        -- right. right. eexists sid, s, _.
           split_and!; [done|by rewrite Hr|reflexivity|].
           unfold loopback_change.
           destruct (Z.eqb_spec (ws_readyState s) WS_OPEN) as [Hst|Hst]; simpl;
             split_and!; try done; [left|right]; by split_and!.
      * left. rewrite (sendToExistingSocket_missing c data binary quid sid Hq Hs).
        by apply tunnel_only_same.
    + right. left. rewrite (handleDataChannel_new c data binary quid Hq). simpl. eauto.
  - left. unfold when. destruct (demuxer_listening c); by apply tunnel_only_same.
  - left. unfold when. destruct (muxer_listening c); [|by apply tunnel_only_same].
    unfold on_muxer_data, bind at 1, bind at 1, gets, deref. simpl.
    destruct (_tunnel c) as [t|] eqn:Ht; simpl; [|by apply tunnel_only_same].
    destruct (Hrole t Ht) as (st & Hst & Hr).
    destruct (Z.eq_dec (ws_readyState st) WS_OPEN) as [Hopen|Hopen].
    + rewrite (socket_send_open c t st buffer true Hst Hopen). simpl.
      eapply (tunnel_only_insert c _ t st); [done|done| |reflexivity]; done.
    + rewrite (socket_send_not_open c t st buffer true Hst Hopen).
      by apply tunnel_only_same.
  - left. unfold when. destruct (muxer_listening c); by apply tunnel_only_same.
  - left. apply tunnel_only_same. destruct err as [err|]; simpl; [done|].
    apply sockets_muxer_write.
Qed.

(** *** The loopback sockets in every state the client reaches *)

Lemma deliver_roles (e : event) (c : TunnelClient) (sid : nat) (s : WebSocket) :
  tunnel_role c → sockets c !! sid = Some s →
  ∃ s', sockets (fst (deliver e c)) !! sid = Some s' ∧ ws_role s' = ws_role s.
Proof.
  intros Hrole Hs.
  destruct (deliver_sockets e c Hrole)
    as [[_ Ht]|[(snew & -> & _)|(sid' & s0 & s' & Hs0 & _ & -> & Hch)]].
  - destruct (Ht sid s Hs) as (s' & Hs' & Hr & _). eauto.
  - exists s. split; [by apply lookup_app_l_Some | done].
  - destruct (decide (sid = sid')) as [->|Hne].
    + exists s'. rewrite list_lookup_insert_eq by (by eapply lookup_lt_Some).
      simplify_eq. split; [done|]. apply Hch.
    + exists s. by rewrite list_lookup_insert_ne.
Qed.

Lemma tunnel_role_deliver (e : event) (c : TunnelClient) :
  tunnel_role c → tunnel_role (fst (deliver e c)).
Proof.
  intros Hrole.
  assert (e = CallOpen ∨ e ≠ CallOpen) as [->|He]
      by (destruct e; (by left) || (by right)).
  - unfold deliver. rewrite open_eq. intros t Ht. simpl in *. simplify_eq.
    rewrite lookup_app_r, Nat.sub_diag by done. simpl. eauto.
  - destruct (grows_deliver e He c) as (_ & _ & _ & Ht & _).
    intros t Ht'. destruct (Hrole t (Ht t Ht')) as (st & Hst & Hr).
    destruct (deliver_roles e c t st Hrole Hst) as (st' & Hst' & Hr').
    exists st'. split; [done|congruence].
Qed.

Lemma loopback_ok_tunnel (s : WebSocket) : ws_role s = Tunnel → loopback_ok s.
Proof. unfold loopback_ok. by intros ->. Qed.

Lemma sockets_ok_deliver (e : event) (c : TunnelClient) :
  sockets_ok c → sockets_ok (fst (deliver e c)).
Proof.
  intros [Hrole Hok]. split; [by apply tunnel_role_deliver|].
  intros sid s1 Hs1.
  destruct (deliver_sockets e c Hrole)
    as [[Hlen Ht]|[(snew & Heq & Hst & Hsent & Hcc)
                  |(sid' & s0 & s' & Hs0 & Hr0 & Heq & Hurl & Hr & Hcc & Hch)]].
  - assert (is_Some (sockets c !! sid)) as [s Hs].
    { apply lookup_lt_is_Some. rewrite <- Hlen. by eapply lookup_lt_Some. }
    destruct (Ht sid s Hs) as (s' & Hs' & Hr & Hsame). simplify_eq.
    destruct (ws_role s) as [|q d b] eqn:Hrs.
    + by apply loopback_ok_tunnel.
    + rewrite Hsame by done. by apply (Hok sid).
  - rewrite Heq in Hs1. apply lookup_app_Some in Hs1 as [Hs1|[_ Hs1]].
    + by apply (Hok sid).
    + destruct (sid - length (sockets c))%nat; simplify_eq/=.
      unfold loopback_ok. destruct (ws_role s1); [done|]. split; [done|]. by left.
  - rewrite Heq in Hs1. destruct (decide (sid = sid')) as [->|Hne].
    + rewrite list_lookup_insert_eq in Hs1 by (by eapply lookup_lt_Some).
      simplify_eq. pose proof (Hok sid' s0 Hs0) as Hok0.
      unfold loopback_ok in Hok0 |- *. rewrite Hr.
      destruct (ws_role s0) as [|q0 d0 b0]; [done|].
      destruct Hok0 as [Hcc0 Hst0]. split; [congruence|].
      destruct e as [| |sid|sid data binary|sid code message|sid err|object|err|buffer
                    |err|err body]; try done.
      * destruct Hch as (_ & _ & Hopen & _). by right; left.
      * destruct Hch as (_ & _ & Hclosed & _). by right; right.
      * destruct object as [data|data binary quid|type]; try done.
        destruct Hch as (_ & _ & Hsame & [(Hopen & _)|(Hnot & Hsent & _)]).
        -- right; left. congruence.
        -- rewrite Hsame, Hsent. destruct Hst0 as [?|[?|?]]; [by left|done|by right; right].
    + rewrite list_lookup_insert_ne in Hs1 by done. by apply (Hok sid).
Qed.

Lemma sockets_ok_fresh (tunnel target : string) : sockets_ok (fresh tunnel target).
Proof.
  split.
  - intros t Ht. done.
  - intros sid s Hs. simpl in Hs. by rewrite lookup_nil in Hs.
Qed.

Lemma sockets_ok_run (es : list event) (c : TunnelClient) :
  sockets_ok c → sockets_ok (fst (run es c)).
Proof.
  revert c. induction es as [|e es IH]; intros c Hok; [done|].
  rewrite run_cons. pose proof (sockets_ok_deliver e c Hok) as Hok1.
  destruct (snd (deliver e c)); [by apply IH | done].
Qed.

(** X13. The client never closes a data channel.  In every state the
    client reaches from its construction no loopback socket has had its
    [close] called: a loopback socket ends only when the target ends it.  In
    particular [close] leaves [_channels] and every loopback socket as they
    are, so the data channels of a closed tunnel stay connected to the
    target. *)
Theorem loopback_never_closed_by_client (tunnel target : string) (es : list event)
    (sid : nat) (s : WebSocket) :
  let c := fst (run es (fresh tunnel target)) in
  sockets c !! sid = Some s → ws_role s ≠ Tunnel →
  ws_close_calls s = 0%nat ∧
  _channels (fst (close c)) = _channels c ∧
  sockets (fst (close c)) !! sid = Some s.
Proof.
  intros c Hs Hr.
  assert (sockets_ok c) as [Hrole Hok] by apply sockets_ok_run, sockets_ok_fresh.
  pose proof (Hok sid s Hs) as Hs_ok. unfold loopback_ok in Hs_ok.
  destruct (ws_role s) as [|q d b] eqn:Hrs; [done|].
  destruct Hs_ok as [Hcc Hst]. split_and!.
  - done.
  - apply view_channels, obs_view, keeps_close.
  - destruct (close_tunnel_only c Hrole) as [_ Ht].
    destruct (Ht sid s Hs) as (s' & Hs' & _ & Hsame).
    rewrite Hs'. f_equal. apply Hsame. by rewrite Hrs.
Qed.

Lemma loopback_never_closed_by_client_witness :
  let c := fst (run example_events (fresh "ws://tunnel:4001/tun?token=T"
                                          "http://127.0.0.1:8080")) in
  sockets c !! 1%nat = Some example_loopback ∧ ws_role example_loopback ≠ Tunnel ∧
  ws_close_calls example_loopback = 0%nat ∧
  _channels (fst (close c)) = _channels c ∧
  sockets (fst (close c)) !! 1%nat = Some example_loopback.
Proof.
  split_and!; [reflexivity | done |..];
    apply (loopback_never_closed_by_client "ws://tunnel:4001/tun?token=T"
             "http://127.0.0.1:8080" example_events 1 example_loopback);
    (reflexivity || done).
Defined.

(** *** The payloads of a data channel *)

Lemma inbound_cases (q : string) (c : TunnelClient) (e : event) :
  (inbound q c e = [] ∧
   ∀ d b, e = DemuxerData (DataChannel d b q) → demuxer_listening c = false) ∨
  ∃ d b, e = DemuxerData (DataChannel d b q) ∧ demuxer_listening c = true ∧
         inbound q c e = [(d, b)].
Proof.
  destruct e as [| |sid|sid data binary|sid code message|sid err|object|err|buffer|err
                |err body]; try (left; by split).
  destruct object as [data|data binary quid|type]; try (left; by split).
  unfold inbound. destruct (demuxer_listening c) eqn:Hlis; [|left; by split].
  destruct (decide (quid = q)) as [->|Hne].
  - right. exists data, binary. by rewrite bool_decide_eq_true_2.
  - left. rewrite bool_decide_eq_false_2 by done. split; [done|]. congruence.
Qed.

Lemma outbox_connecting (s : WebSocket) (q d : string) (b : bool) :
  ws_role s = Loopback q d b → ws_readyState s = WS_CONNECTING →
  outbox s = (d, b) :: ws_once_open s.
Proof. intros Hr Hst. unfold outbox. by rewrite Hr, Hst. Qed.

Lemma outbox_open (s : WebSocket) :
  ws_readyState s = WS_OPEN → outbox s = ws_sent s.
Proof. intros Hst. unfold outbox. rewrite Hst. by destruct (ws_role s). Qed.

(** X14. The payloads of a data channel reach the target in the order in
    which they came in.  In every state the client reaches from its
    construction, let [s] be a loopback socket of the quid [q] that has not
    closed.  Whatever happens next, the socket is still there with the same
    handlers, and unless it has closed now, what it has been given to pass
    on is what it had been given before, followed by the payload of the
    event if the event is a [datachannel] frame for [q] that reaches the
    listener of the demuxer: a payload that comes in while the socket is
    connecting is neither lost nor sent before the ones that came in
    earlier. *)
Theorem outbox_in_order (tunnel target : string) (es : list event) (e : event)
    (sid : nat) (s : WebSocket) (q d0 : string) (b0 : bool) :
  let c := fst (run es (fresh tunnel target)) in
  let c' := fst (deliver e c) in
  sockets c !! sid = Some s → ws_role s = Loopback q d0 b0 →
  ws_readyState s ≠ WS_CLOSED →
  ∃ s', sockets c' !! sid = Some s' ∧ ws_role s' = ws_role s ∧
        (ws_readyState s' ≠ WS_CLOSED → outbox s' = outbox s ++ inbound q c e).
Proof.
  intros c c' Hs Hr Hst. subst c'.
  assert (wf c) as [Hch _] by apply wf_run, wf_fresh.
  assert (channels_live c) as Hl by apply channels_live_run, channels_live_fresh.
  assert (sockets_ok c) as [Hrole Hok] by apply sockets_ok_run, sockets_ok_fresh.
  assert (sid < length (sockets c))%nat as Hlt by (by eapply lookup_lt_Some).
  assert (_channels c !! q = Some sid) as Hq.
  { apply (Hch sid (shape_of s) q); [by rewrite list_lookup_fmap, Hs|].
    rewrite (live_for_shape_of _ _ _ _ _ Hr Hst). by apply bool_decide_eq_true_2. }
  pose proof (Hok sid s Hs) as Hs_ok. unfold loopback_ok in Hs_ok.
  rewrite Hr in Hs_ok. destruct Hs_ok as [_ Hstate].
  destruct (inbound_cases q c e) as [[-> Hnot]|(d & b & -> & Hlis & ->)].
  - rewrite app_nil_r.
    destruct (deliver_sockets e c Hrole)
      as [[_ Ht]|[(snew & Heq & _)|(sid' & s0 & s' & Hs0 & _ & Heq & _ & Hr' & _ & Hch')]].
    + destruct (Ht sid s Hs) as (s' & Hs' & Hr' & Hsame).
      exists s'. split_and!; [done|done|]. intros _. rewrite Hsame; [done|].
      by rewrite Hr.
    + exists s. rewrite Heq. split_and!; [by apply lookup_app_l_Some|done|done].
    + rewrite Heq. destruct (decide (sid = sid')) as [<-|Hne];
        [|exists s; by rewrite list_lookup_insert_ne].
      exists s'. rewrite list_lookup_insert_eq by done. simplify_eq.
      split_and!; [done|done|]. intros Hst'.
      destruct e as [| |sid'|sid' data binary|sid' code message|sid' err|object|err
                    |buffer|err|err body]; try done.
      * destruct Hch' as (_ & Hconn & Hopen & _ & q1 & d1 & b1 & Hr1 & Hsent).
        rewrite (outbox_open s' Hopen), (outbox_connecting s q d0 b0 Hr Hconn), Hsent.
        destruct Hstate as [[_ Hnil]|[Ho|Hc]];
          [|by rewrite Hconn in Ho|by rewrite Hconn in Hc].
        rewrite Hnil. simpl. congruence.
      * by destruct Hch' as (_ & _ & Hclosed & _).
      * destruct object as [data|data binary quid|type]; try done.
        destruct Hch' as (Hlis & Hquid & _).
        destruct (Hl quid sid Hquid) as (sh & Hsh & Hlive).
        rewrite list_lookup_fmap, Hs in Hsh. simplify_eq/=.
        apply live_for_role in Hlive as (d & b & Hr1 & _).
        assert (quid = q) as -> by congruence.
        rewrite (Hnot data binary eq_refl) in Hlis. done.
  - unfold deliver, when. rewrite Hlis. simpl.
    rewrite (sendToExistingSocket_eq c d b q sid s Hq Hs). simpl.
    eexists. rewrite list_lookup_insert_eq by done. split; [done|].
    destruct (Z.eqb_spec (ws_readyState s) WS_OPEN) as [Hopen|Hopen].
    + split; [done|]. intros _. by rewrite !outbox_open.
    + split; [done|]. intros _.
      destruct Hstate as [[Hconn _]|[?|?]]; [|done|done].
      erewrite !outbox_connecting; [|done|done|done|done]. done.
Qed.

Lemma outbox_in_order_witness :
  let c := fst (run [CallOpen; SocketOpen 0; DemuxerData (DataChannel "P1" true "Q")]
                    (fresh "ws://tunnel:4001/tun?token=T" "http://127.0.0.1:8080")) in
  let e := DemuxerData (DataChannel "P2" false "Q") in
  sockets c !! 1%nat = Some connecting_loopback ∧
  ws_role connecting_loopback = Loopback "Q" "P1" true ∧
  ws_readyState connecting_loopback ≠ WS_CLOSED ∧
  outbox connecting_loopback = [("P1", true)] ∧
  inbound "Q" c e = [("P2", false)] ∧
  ∃ s', sockets (fst (deliver e c)) !! 1%nat = Some s' ∧
        ws_role s' = ws_role connecting_loopback ∧
        (ws_readyState s' ≠ WS_CLOSED →
         outbox s' = outbox connecting_loopback ++ inbound "Q" c e).
Proof.
  split_and!; [reflexivity | reflexivity | done | reflexivity | reflexivity |].
  apply (outbox_in_order "ws://tunnel:4001/tun?token=T" "http://127.0.0.1:8080"
           [CallOpen; SocketOpen 0; DemuxerData (DataChannel "P1" true "Q")]
           (DemuxerData (DataChannel "P2" false "Q")) 1 connecting_loopback
           "Q" "P1" true); [reflexivity | reflexivity | done].
Defined.

(** *** The tunnel socket of an earlier [open] *)

(** X15. The [close] event of an old tunnel socket closes the new tunnel.
    In every state the client reaches from its construction: when a socket
    that an earlier [open] made, and that is not the client's tunnel socket
    any more, reports [close], the handler closes the tunnel the client has
    now: [_tunnel] becomes [null], the listeners of the muxer and the
    demuxer are removed, the client emits [close], and [close] is called on
    the new tunnel socket if that is connecting or open. *)
Theorem stale_tunnel_socket_closes_new_tunnel (tunnel target : string)
    (es : list event) (old t : nat) (so : WebSocket) (code : Z) (message : string) :
  let c := fst (run es (fresh tunnel target)) in
  _tunnel c = Some t → old ≠ t →
  sockets c !! old = Some so → ws_role so = Tunnel → ws_readyState so ≠ WS_CLOSED →
  let c' := fst (deliver (SocketClose old code message) c) in
  snd (deliver (SocketClose old code message) c) = Ok tt ∧
  _tunnel c' = None ∧ emitted c' = emitted c ++ [SigClose] ∧
  muxer_listening c' = false ∧ demuxer_listening c' = false ∧
  ∃ st st', sockets c !! t = Some st ∧ sockets c' !! t = Some st' ∧
            ws_close_calls st' =
              if negb (indexOf [WS_CONNECTING; WS_OPEN] (ws_readyState st) =? -1)
              then S (ws_close_calls st) else ws_close_calls st.
Proof.
  intros c Ht Hne Hso Hr Hst c'. subst c'.
  assert (tunnel_ok c) as Hok by apply tunnel_ok_run, tunnel_ok_fresh.
  destruct (Hok t Ht) as ([st Hs] & [m Hm] & [d Hd]).
  unfold deliver. rewrite (socket_emits_close_tunnel c old so code message Hso Hr Hst).
  set (c1 := set_sockets _ c).
  assert (sockets c1 !! t = Some st) as Hs1.
  { subst c1. simpl. by rewrite list_lookup_insert_ne. }
  unfold on_tunnel_close, bind.
  rewrite (close_tunnel c1 t st m d Ht Hs1 Hm Hd).
  set (b := negb (indexOf [WS_CONNECTING; WS_OPEN] (ws_readyState st) =? -1)).
  cbn [fst snd ret sockets _tunnel emitted]. split_and!; try done.
  exists st. fold b. destruct b.
  - eexists. split_and!;
      [done | apply list_lookup_insert_eq; by eapply lookup_lt_Some | reflexivity].
  - by exists st.
Qed.

Lemma stale_tunnel_socket_closes_new_tunnel_witness :
  let c := fst (run [CallOpen; SocketOpen 0; CallClose; CallOpen]
                    (fresh "ws://tunnel:4001/tun?token=T" "http://127.0.0.1:8080")) in
  let c' := fst (deliver (SocketClose 0 1000 "bye") c) in
  _tunnel c = Some 1%nat ∧ 0%nat ≠ 1%nat ∧
  sockets c !! 0%nat = Some closing_tunnel_socket ∧
  ws_role closing_tunnel_socket = Tunnel ∧
  ws_readyState closing_tunnel_socket ≠ WS_CLOSED ∧
  (ws_readyState <$> sockets c !! 1%nat) = Some WS_CONNECTING ∧
  snd (deliver (SocketClose 0 1000 "bye") c) = Ok tt ∧
  _tunnel c' = None ∧ emitted c' = emitted c ++ [SigClose] ∧
  (ws_close_calls <$> sockets c !! 1%nat) = Some 0%nat ∧
  (ws_close_calls <$> sockets c' !! 1%nat) = Some 1%nat.
Proof.
  intros c c'.
  destruct (stale_tunnel_socket_closes_new_tunnel
              "ws://tunnel:4001/tun?token=T" "http://127.0.0.1:8080"
              [CallOpen; SocketOpen 0; CallClose; CallOpen] 0 1
              closing_tunnel_socket 1000 "bye")
    as (H1 & H2 & H3 & _); [reflexivity | done | reflexivity | reflexivity | done |].
  split_and!; [reflexivity | done | reflexivity | reflexivity | done | reflexivity
              | exact H1 | exact H2 | exact H3 | reflexivity | reflexivity].
Defined.

(** *** Which handlers can throw *)















End ClientExtra.
